(** * three-scene.js: the orbiting camera and its point cloud

    A shallow embedding of [src/three-scene.js].  The module's top-level
    [let] variables and the parts of the browser they talk to (the canvas
    element, its listeners, the timer queue, the animation-frame queue and
    [Math.random]) are gathered in one record, [World]; every JavaScript
    function becomes a function from [World] to an [Outcome].

    JavaScript numbers are read as real numbers: the rounding of binary64
    arithmetic is not modelled, and [Math.cos], [Math.sin], [Math.max] and
    [Math.min] are [cos], [sin], [Rmax] and [Rmin].  The two scenarios of
    the specification that name exact values are also replayed on binary64
    floats in [Module Binary64].

    Left out, because nothing below depends on it: [event.preventDefault()],
    the clear colour and the colour space of the renderer, the console
    messages, and the geometry arithmetic of the loader's success callback
    (its result enters as the argument of [onPlyLoaded]). *)

From Stdlib Require Import String.
From Stdlib Require Import Floats.
From Stdlib Require Import Reals Lra Lia List Bool Arith ZArith.
Import ListNotations.
Open Scope R_scope.

(** ** Objects of the rendering library *)

Record Vector3 := { vx : R; vy : R; vz : R }.

Definition origin : Vector3 := {| vx := 0; vy := 0; vz := 0 |}.

(** [lookTarget] is the argument of the last [lookAt] call. *)
Record PerspectiveCamera := {
  fov : R;
  aspect : R;
  near : R;
  far : R;
  position : Vector3;
  lookTarget : option Vector3
}.

Record WebGLRenderer := {
  width : R;
  height : R;
  pixelRatio : R;
  framesRendered : nat;
  rendererDisposed : bool
}.

(** A [THREE.Points] object: the flat [positions] and [colors] arrays of its
    geometry (three numbers per point) and the fields of its material. *)
Record Points := {
  positions : list R;
  colors : list R;
  size : R;
  opacity : R;
  geometryDisposed : bool;
  materialDisposed : bool
}.

(** Objects are shared by reference: the scene graph and the variable
    [pointCloud] both hold an index into [heap]. *)
Record Scene := { children : list nat }.

(** ** The browser *)

Inductive PointerEvents := pe_auto | pe_none.
Inductive Cursor := cur_grab | cur_default.

Record CanvasStyle := { pointerEvents : PointerEvents; cursor : Cursor }.

Inductive EventType :=
  | mousedown | mousemove | mouseup | mouseleave | wheel
  | touchstart | touchmove | touchend | resize.

Inductive Handler :=
  | h_onMouseDown | h_onMouseMove | h_onMouseUp | h_onWheel
  | h_onTouchStart | h_onTouchMove | h_onTouchEnd | h_onWindowResize.

Definition Listener := (EventType * Handler)%type.

Definition EventType_eqb (a b : EventType) : bool :=
  match a, b with
  | mousedown, mousedown | mousemove, mousemove | mouseup, mouseup
  | mouseleave, mouseleave | wheel, wheel | touchstart, touchstart
  | touchmove, touchmove | touchend, touchend | resize, resize => true
  | _, _ => false
  end.

Definition Handler_eqb (a b : Handler) : bool :=
  match a, b with
  | h_onMouseDown, h_onMouseDown | h_onMouseMove, h_onMouseMove
  | h_onMouseUp, h_onMouseUp | h_onWheel, h_onWheel
  | h_onTouchStart, h_onTouchStart | h_onTouchMove, h_onTouchMove
  | h_onTouchEnd, h_onTouchEnd | h_onWindowResize, h_onWindowResize => true
  | _, _ => false
  end.

Definition Listener_eqb (a b : Listener) : bool :=
  EventType_eqb (fst a) (fst b) && Handler_eqb (snd a) (snd b).

(** A pending [setTimeout]: its handle and the clock value (ms) at which it
    fires.  Both callbacks that the module ever schedules are the same
    closure, [isUserInteracting = false]. *)
Record Timer := { handle : nat; due : nat }.

Record Dom := {
  canvas : option CanvasStyle;      (* document.getElementById('three-canvas') *)
  canvasListeners : list Listener;
  windowListeners : list Listener;
  canvasDragging : bool;            (* class 'canvas-dragging' on document.body *)
  innerWidth : R;
  innerHeight : R;
  devicePixelRatio : R
}.

Record Loop := {
  timers : list Timer;
  clock : nat;
  nextHandle : nat;
  frameRequests : list nat;         (* pending requestAnimationFrame ids *)
  nextFrame : nat;
  draws : nat -> R;                 (* what Math.random returns to this module's calls, in order *)
  drawn : nat;                      (* how many of them the module has taken *)
  loads : nat                       (* PLY requests still outstanding *)
}.

(** ** The module's variables *)

Record Rig := {
  cameraTheta : R;
  cameraPhi : R;
  targetCameraDistance : R;
  currentCameraDistance : R
}.

Record Pointer := {
  isUserInteracting : bool;
  interactionTimeout : option nat;
  isDragging : bool;
  previousMouseX : R;
  previousMouseY : R;
  orbitEnabled : bool
}.

Record Stage := {
  scene : option Scene;
  camera : option PerspectiveCamera;
  renderer : option WebGLRenderer;
  pointCloud : option nat;
  animationId : option nat;
  time : R;
  heap : list Points
}.

Record World := {
  rig : Rig;
  pointer : Pointer;
  stage : Stage;
  dom : Dom;
  loop : Loop
}.

(** A call either returns or throws; what it had already written stays
    written in both cases. *)
Inductive Outcome :=
  | Done (w : World)
  | Threw (w : World).

Definition world_of (o : Outcome) : World :=
  match o with Done w | Threw w => w end.

Definition returns (o : Outcome) : bool :=
  match o with Done _ => true | Threw _ => false end.

Definition andThen (o : Outcome) (k : World -> Outcome) : Outcome :=
  match o with
  | Done w => k w
  | Threw w => Threw w
  end.

Notation "w <- o ;; k" := (andThen o (fun w => k))
  (at level 61, o at next level, right associativity).

(** ** Field updates *)

Definition set_cameraTheta (x : R) (r : Rig) : Rig :=
  {| cameraTheta := x; cameraPhi := cameraPhi r;
     targetCameraDistance := targetCameraDistance r;
     currentCameraDistance := currentCameraDistance r |}.

Definition set_cameraPhi (x : R) (r : Rig) : Rig :=
  {| cameraTheta := cameraTheta r; cameraPhi := x;
     targetCameraDistance := targetCameraDistance r;
     currentCameraDistance := currentCameraDistance r |}.

Definition set_targetCameraDistance (x : R) (r : Rig) : Rig :=
  {| cameraTheta := cameraTheta r; cameraPhi := cameraPhi r;
     targetCameraDistance := x;
     currentCameraDistance := currentCameraDistance r |}.

Definition set_currentCameraDistance (x : R) (r : Rig) : Rig :=
  {| cameraTheta := cameraTheta r; cameraPhi := cameraPhi r;
     targetCameraDistance := targetCameraDistance r;
     currentCameraDistance := x |}.

Definition set_isUserInteracting (b : bool) (p : Pointer) : Pointer :=
  {| isUserInteracting := b; interactionTimeout := interactionTimeout p;
     isDragging := isDragging p; previousMouseX := previousMouseX p;
     previousMouseY := previousMouseY p; orbitEnabled := orbitEnabled p |}.

Definition set_interactionTimeout (h : option nat) (p : Pointer) : Pointer :=
  {| isUserInteracting := isUserInteracting p; interactionTimeout := h;
     isDragging := isDragging p; previousMouseX := previousMouseX p;
     previousMouseY := previousMouseY p; orbitEnabled := orbitEnabled p |}.

Definition set_isDragging (b : bool) (p : Pointer) : Pointer :=
  {| isUserInteracting := isUserInteracting p;
     interactionTimeout := interactionTimeout p;
     isDragging := b; previousMouseX := previousMouseX p;
     previousMouseY := previousMouseY p; orbitEnabled := orbitEnabled p |}.

Definition set_previousMouse (x y : R) (p : Pointer) : Pointer :=
  {| isUserInteracting := isUserInteracting p;
     interactionTimeout := interactionTimeout p;
     isDragging := isDragging p; previousMouseX := x;
     previousMouseY := y; orbitEnabled := orbitEnabled p |}.

Definition set_orbitEnabled (b : bool) (p : Pointer) : Pointer :=
  {| isUserInteracting := isUserInteracting p;
     interactionTimeout := interactionTimeout p;
     isDragging := isDragging p; previousMouseX := previousMouseX p;
     previousMouseY := previousMouseY p; orbitEnabled := b |}.

Definition set_scene (s : option Scene) (g : Stage) : Stage :=
  {| scene := s; camera := camera g; renderer := renderer g;
     pointCloud := pointCloud g; animationId := animationId g;
     time := time g; heap := heap g |}.

Definition set_camera (c : option PerspectiveCamera) (g : Stage) : Stage :=
  {| scene := scene g; camera := c; renderer := renderer g;
     pointCloud := pointCloud g; animationId := animationId g;
     time := time g; heap := heap g |}.

Definition set_renderer (r : option WebGLRenderer) (g : Stage) : Stage :=
  {| scene := scene g; camera := camera g; renderer := r;
     pointCloud := pointCloud g; animationId := animationId g;
     time := time g; heap := heap g |}.

Definition set_pointCloud (p : option nat) (g : Stage) : Stage :=
  {| scene := scene g; camera := camera g; renderer := renderer g;
     pointCloud := p; animationId := animationId g;
     time := time g; heap := heap g |}.

Definition set_animationId (a : option nat) (g : Stage) : Stage :=
  {| scene := scene g; camera := camera g; renderer := renderer g;
     pointCloud := pointCloud g; animationId := a;
     time := time g; heap := heap g |}.

Definition set_time (t : R) (g : Stage) : Stage :=
  {| scene := scene g; camera := camera g; renderer := renderer g;
     pointCloud := pointCloud g; animationId := animationId g;
     time := t; heap := heap g |}.

Definition set_heap (h : list Points) (g : Stage) : Stage :=
  {| scene := scene g; camera := camera g; renderer := renderer g;
     pointCloud := pointCloud g; animationId := animationId g;
     time := time g; heap := h |}.

Definition set_canvas (c : option CanvasStyle) (d : Dom) : Dom :=
  {| canvas := c; canvasListeners := canvasListeners d;
     windowListeners := windowListeners d;
     canvasDragging := canvasDragging d; innerWidth := innerWidth d;
     innerHeight := innerHeight d; devicePixelRatio := devicePixelRatio d |}.

Definition set_canvasListeners (l : list Listener) (d : Dom) : Dom :=
  {| canvas := canvas d; canvasListeners := l;
     windowListeners := windowListeners d;
     canvasDragging := canvasDragging d; innerWidth := innerWidth d;
     innerHeight := innerHeight d; devicePixelRatio := devicePixelRatio d |}.

Definition set_windowListeners (l : list Listener) (d : Dom) : Dom :=
  {| canvas := canvas d; canvasListeners := canvasListeners d;
     windowListeners := l;
     canvasDragging := canvasDragging d; innerWidth := innerWidth d;
     innerHeight := innerHeight d; devicePixelRatio := devicePixelRatio d |}.

Definition set_canvasDragging (b : bool) (d : Dom) : Dom :=
  {| canvas := canvas d; canvasListeners := canvasListeners d;
     windowListeners := windowListeners d;
     canvasDragging := b; innerWidth := innerWidth d;
     innerHeight := innerHeight d; devicePixelRatio := devicePixelRatio d |}.

Definition set_viewport (wd ht : R) (d : Dom) : Dom :=
  {| canvas := canvas d; canvasListeners := canvasListeners d;
     windowListeners := windowListeners d;
     canvasDragging := canvasDragging d; innerWidth := wd;
     innerHeight := ht; devicePixelRatio := devicePixelRatio d |}.

Definition set_timers (t : list Timer) (l : Loop) : Loop :=
  {| timers := t; clock := clock l; nextHandle := nextHandle l;
     frameRequests := frameRequests l; nextFrame := nextFrame l;
     draws := draws l; drawn := drawn l; loads := loads l |}.

Definition set_clock (c : nat) (l : Loop) : Loop :=
  {| timers := timers l; clock := c; nextHandle := nextHandle l;
     frameRequests := frameRequests l; nextFrame := nextFrame l;
     draws := draws l; drawn := drawn l; loads := loads l |}.

Definition set_nextHandle (n : nat) (l : Loop) : Loop :=
  {| timers := timers l; clock := clock l; nextHandle := n;
     frameRequests := frameRequests l; nextFrame := nextFrame l;
     draws := draws l; drawn := drawn l; loads := loads l |}.

Definition set_frameRequests (f : list nat) (l : Loop) : Loop :=
  {| timers := timers l; clock := clock l; nextHandle := nextHandle l;
     frameRequests := f; nextFrame := nextFrame l;
     draws := draws l; drawn := drawn l; loads := loads l |}.

Definition set_nextFrame (n : nat) (l : Loop) : Loop :=
  {| timers := timers l; clock := clock l; nextHandle := nextHandle l;
     frameRequests := frameRequests l; nextFrame := n;
     draws := draws l; drawn := drawn l; loads := loads l |}.

Definition set_drawn (n : nat) (l : Loop) : Loop :=
  {| timers := timers l; clock := clock l; nextHandle := nextHandle l;
     frameRequests := frameRequests l; nextFrame := nextFrame l;
     draws := draws l; drawn := n; loads := loads l |}.

Definition set_loads (n : nat) (l : Loop) : Loop :=
  {| timers := timers l; clock := clock l; nextHandle := nextHandle l;
     frameRequests := frameRequests l; nextFrame := nextFrame l;
     draws := draws l; drawn := drawn l; loads := n |}.

Definition in_rig (f : Rig -> Rig) (w : World) : World :=
  {| rig := f (rig w); pointer := pointer w; stage := stage w;
     dom := dom w; loop := loop w |}.

Definition in_pointer (f : Pointer -> Pointer) (w : World) : World :=
  {| rig := rig w; pointer := f (pointer w); stage := stage w;
     dom := dom w; loop := loop w |}.

Definition in_stage (f : Stage -> Stage) (w : World) : World :=
  {| rig := rig w; pointer := pointer w; stage := f (stage w);
     dom := dom w; loop := loop w |}.

Definition in_dom (f : Dom -> Dom) (w : World) : World :=
  {| rig := rig w; pointer := pointer w; stage := stage w;
     dom := f (dom w); loop := loop w |}.

Definition in_loop (f : Loop -> Loop) (w : World) : World :=
  {| rig := rig w; pointer := pointer w; stage := stage w;
     dom := dom w; loop := f (loop w) |}.

(** ** Browser primitives *)

(** [setTimeout(cb, delay)]: handles are handed out in increasing order and
    never reused. *)
Definition setTimeout (delay : nat) (w : World) : nat * World :=
  let h := nextHandle (loop w) in
  let t := {| handle := h; due := clock (loop w) + delay |} in
  (h, in_loop (set_nextHandle (S h))
        (in_loop (set_timers (timers (loop w) ++ [t])) w)).

(** [clearTimeout(h)]: [null], and a handle that is no longer pending,
    are ignored. *)
Definition clearTimeout (h : option nat) (w : World) : World :=
  match h with
  | None => w
  | Some n =>
      in_loop (set_timers
        (filter (fun t => negb (handle t =? n)%nat) (timers (loop w)))) w
  end.

Definition requestAnimationFrame (w : World) : nat * World :=
  let id := nextFrame (loop w) in
  (id, in_loop (set_nextFrame (S id))
         (in_loop (set_frameRequests (frameRequests (loop w) ++ [id])) w)).

Definition cancelAnimationFrame (id : nat) (w : World) : World :=
  in_loop (set_frameRequests
    (filter (fun f => negb (f =? id)%nat) (frameRequests (loop w)))) w.

(** [addEventListener] ignores a listener that is already registered. *)
Definition addListener (l : Listener) (ls : list Listener) : list Listener :=
  if existsb (Listener_eqb l) ls then ls else ls ++ [l].

Definition removeListener (l : Listener) (ls : list Listener) : list Listener :=
  filter (fun x => negb (Listener_eqb l x)) ls.

Definition canvas_addEventListener (t : EventType) (h : Handler) (w : World) : World :=
  in_dom (set_canvasListeners (addListener (t, h) (canvasListeners (dom w)))) w.

Definition canvas_removeEventListener (t : EventType) (h : Handler) (w : World) : World :=
  in_dom (set_canvasListeners (removeListener (t, h) (canvasListeners (dom w)))) w.

Definition window_addEventListener (t : EventType) (h : Handler) (w : World) : World :=
  in_dom (set_windowListeners (addListener (t, h) (windowListeners (dom w)))) w.

Definition window_removeEventListener (t : EventType) (h : Handler) (w : World) : World :=
  in_dom (set_windowListeners (removeListener (t, h) (windowListeners (dom w)))) w.

(** [Math.random()] as this module calls it.  The generator is shared with
    three.js, whose constructors draw from it as well (for uuids); [draws]
    lists only the values that the module's own calls receive, so [drawn]
    counts the module's calls, not the calls made on the page. *)
Definition Math_random (w : World) : R * World :=
  (draws (loop w) (drawn (loop w)),
   in_loop (set_drawn (S (drawn (loop w)))) w).

(** The event object handed to a listener; a handler reads the fields of
    its own kind of event. *)
Record DomEvent := {
  type : EventType;
  clientX : R;
  clientY : R;
  ctrlKey : bool;
  metaKey : bool;
  deltaY : R;
  touches : list (R * R)
}.

(** ** three-scene.js *)

Definition setOrbitEnabled (enabled : bool) (w : World) : Outcome :=
  let w := in_pointer (set_orbitEnabled enabled) w in
  match canvas (dom w) with
  | Some _ =>
      Done (in_dom (set_canvas (Some
        {| pointerEvents := if enabled then pe_auto else pe_none;
           cursor := if enabled then cur_grab else cur_default |})) w)
  | None => Done w
  end.

Definition camera_place (x y z : R) (c : PerspectiveCamera) : PerspectiveCamera :=
  {| fov := fov c; aspect := aspect c; near := near c; far := far c;
     position := {| vx := x; vy := y; vz := z |};
     lookTarget := lookTarget c |}.

Definition camera_lookAt (x y z : R) (c : PerspectiveCamera) : PerspectiveCamera :=
  {| fov := fov c; aspect := aspect c; near := near c; far := far c;
     position := position c;
     lookTarget := Some {| vx := x; vy := y; vz := z |} |}.

Definition camera_setAspect (a : R) (c : PerspectiveCamera) : PerspectiveCamera :=
  {| fov := fov c; aspect := a; near := near c; far := far c;
     position := position c; lookTarget := lookTarget c |}.

(** Throws (reading [position] of [undefined]) when no camera exists. *)
Definition updateCameraPosition (w : World) : Outcome :=
  let x := currentCameraDistance (rig w) * cos (cameraPhi (rig w))
             * sin (cameraTheta (rig w)) in
  let y := currentCameraDistance (rig w) * sin (cameraPhi (rig w)) + 5 in
  let z := currentCameraDistance (rig w) * cos (cameraPhi (rig w))
             * cos (cameraTheta (rig w)) in
  match camera (stage w) with
  | None => Threw w
  | Some c =>
      Done (in_stage (set_camera
        (Some (camera_lookAt 0 0 0 (camera_place x y z c)))) w)
  end.

(** The request for one of the two PLY files: one draw picks the file, and
    the loader calls back later (events [PlyLoaded] and [PlyFailed]). *)
Definition loadPointCloud (w : World) : Outcome :=
  let (_, w) := Math_random w in
  Done (in_loop (set_loads (S (loads (loop w)))) w).

Definition numPoints : nat := Z.to_nat 10000.

#[global] Opaque numPoints.

(** The body of the [for] loop, [n] iterations left; [ps] and [cs] are the
    arrays [positions] and [colors]. *)
Fixpoint fallbackLoop (n : nat) (ps cs : list R) (w : World)
  : list R * list R * World :=
  match n with
  | O => (ps, cs, w)
  | S n' =>
      let (r1, w) := Math_random w in
      let angle := r1 * PI * 2 in
      let (r2, w) := Math_random w in
      let radius := 5 + r2 * 25 in
      let (r3, w) := Math_random w in
      let height := (r3 - 0.5) * 20 in
      let ps := ps ++ [cos angle * radius; height; sin angle * radius] in
      let t := (height + 10) / 20 in
      let cs := cs ++ [0.486 * t + 0.3 * (1 - t);
                       0.227 * t + 0.3 * (1 - t);
                       0.929 * t + 0.3 * (1 - t)] in
      fallbackLoop n' ps cs w
  end.

(** [scene.add] of a new object: allocate it and link it into the scene. *)
Definition scene_add (idx : nat) (w : World) : Outcome :=
  match scene (stage w) with
  | None => Threw w
  | Some s =>
      Done (in_stage (set_scene (Some {| children := children s ++ [idx] |})) w)
  end.

Definition newPoints (p : Points) (w : World) : nat * World :=
  (length (heap (stage w)),
   in_stage (set_heap (heap (stage w) ++ [p])) w).

Definition createFallbackPointCloud (w : World) : Outcome :=
  let '(ps, cs, w) := fallbackLoop numPoints [] [] w in
  let (idx, w) := newPoints
    {| positions := ps; colors := cs; size := 0.3; opacity := 0.8;
       geometryDisposed := false; materialDisposed := false |} w in
  let w := in_stage (set_pointCloud (Some idx)) w in
  scene_add idx w.

(** The loader's success callback.  [p] stands for the [THREE.Points] it
    builds from the file (geometry centred, scaled and rotated, material
    chosen by the presence of vertex colours). *)
Definition onPlyLoaded (p : Points) (w : World) : Outcome :=
  let (idx, w) := newPoints p w in
  let w := in_stage (set_pointCloud (Some idx)) w in
  scene_add idx w.

Definition setOpacity (o : R) (p : Points) : Points :=
  {| positions := positions p; colors := colors p; size := size p;
     opacity := o; geometryDisposed := geometryDisposed p;
     materialDisposed := materialDisposed p |}.

Definition dispose (p : Points) : Points :=
  {| positions := positions p; colors := colors p; size := size p;
     opacity := opacity p; geometryDisposed := true;
     materialDisposed := true |}.

Fixpoint heap_update (f : Points -> Points) (idx : nat) (h : list Points)
  : list Points :=
  match h, idx with
  | [], _ => []
  | p :: h', O => f p :: h'
  | p :: h', S i => p :: heap_update f i h'
  end.

Definition renderer_render (r : WebGLRenderer) : WebGLRenderer :=
  {| width := width r; height := height r; pixelRatio := pixelRatio r;
     framesRendered := S (framesRendered r);
     rendererDisposed := rendererDisposed r |}.

Definition renderer_setSize (wd ht : R) (r : WebGLRenderer) : WebGLRenderer :=
  {| width := wd; height := ht; pixelRatio := pixelRatio r;
     framesRendered := framesRendered r;
     rendererDisposed := rendererDisposed r |}.

Definition renderer_setPixelRatio (p : R) (r : WebGLRenderer) : WebGLRenderer :=
  {| width := width r; height := height r; pixelRatio := p;
     framesRendered := framesRendered r;
     rendererDisposed := rendererDisposed r |}.

Definition renderer_dispose (r : WebGLRenderer) : WebGLRenderer :=
  {| width := width r; height := height r; pixelRatio := pixelRatio r;
     framesRendered := framesRendered r; rendererDisposed := true |}.

Definition animate (w : World) : Outcome :=
  let (id, w) := requestAnimationFrame w in
  let w := in_stage (set_animationId (Some id)) w in
  let w := in_stage (set_time (time (stage w) + 0.016)) w in
  w <- (if negb (isUserInteracting (pointer w)) then
          updateCameraPosition
            (in_rig (set_cameraTheta (cameraTheta (rig w) + 0.002)) w)
        else Done w) ;;
  let w := in_rig (set_currentCameraDistance
    (currentCameraDistance (rig w)
     + (targetCameraDistance (rig w) - currentCameraDistance (rig w)) * 0.08)) w in
  w <- updateCameraPosition w ;;
  let w := match pointCloud (stage w) with
           | Some idx =>
               in_stage (set_heap (heap_update
                 (setOpacity (0.8 + sin (time (stage w) * 0.5) * 0.05))
                 idx (heap (stage w)))) w
           | None => w
           end in
  match renderer (stage w) with
  | None => Threw w
  | Some r => Done (in_stage (set_renderer (Some (renderer_render r))) w)
  end.

Definition onWindowResize (w : World) : Outcome :=
  match camera (stage w) with
  | None => Threw w
  | Some c =>
      let w := in_stage (set_camera (Some
        (camera_setAspect (innerWidth (dom w) / innerHeight (dom w)) c))) w in
      match renderer (stage w) with
      | None => Threw w
      | Some r =>
          Done (in_stage (set_renderer (Some
            (renderer_setSize (innerWidth (dom w)) (innerHeight (dom w)) r))) w)
      end
  end.

Definition onMouseDown (event : DomEvent) (w : World) : Outcome :=
  let w := in_pointer (set_isDragging true) w in
  let w := in_pointer (set_isUserInteracting true) w in
  let w := in_pointer (set_previousMouse (clientX event) (clientY event)) w in
  let w := clearTimeout (interactionTimeout (pointer w)) w in
  Done (in_dom (set_canvasDragging true) w).

Definition onMouseMove (event : DomEvent) (w : World) : Outcome :=
  if negb (isDragging (pointer w)) then Done w else
  let deltaX := clientX event - previousMouseX (pointer w) in
  let deltaY := clientY event - previousMouseY (pointer w) in
  let w := in_rig (set_cameraTheta (cameraTheta (rig w) - deltaX * 0.005)) w in
  let w := in_rig (set_cameraPhi (cameraPhi (rig w) + deltaY * 0.003)) w in
  let w := in_rig (set_cameraPhi (Rmax 0.1 (Rmin 1.4 (cameraPhi (rig w))))) w in
  w <- updateCameraPosition w ;;
  Done (in_pointer (set_previousMouse (clientX event) (clientY event)) w).

Definition onMouseUp (w : World) : Outcome :=
  let w := in_pointer (set_isDragging false) w in
  let w := in_dom (set_canvasDragging false) w in
  let w := clearTimeout (interactionTimeout (pointer w)) w in
  let (h, w) := setTimeout 2000 w in
  Done (in_pointer (set_interactionTimeout (Some h)) w).

Definition onWheel (event : DomEvent) (w : World) : Outcome :=
  if negb (ctrlKey event) && negb (metaKey event) then Done w else
  let w := in_pointer (set_isUserInteracting true) w in
  let w := clearTimeout (interactionTimeout (pointer w)) w in
  let w := in_rig (set_targetCameraDistance
    (targetCameraDistance (rig w) + deltaY event * 0.05)) w in
  let w := in_rig (set_targetCameraDistance
    (Rmax 20 (Rmin 120 (targetCameraDistance (rig w))))) w in
  let (h, w) := setTimeout 2000 w in
  Done (in_pointer (set_interactionTimeout (Some h)) w).

Definition onTouchStart (event : DomEvent) (w : World) : Outcome :=
  match touches event with
  | [(x, y)] =>
      let w := in_pointer (set_isDragging true) w in
      let w := in_pointer (set_isUserInteracting true) w in
      let w := in_pointer (set_previousMouse x y) w in
      Done (clearTimeout (interactionTimeout (pointer w)) w)
  | _ => Done w
  end.

Definition onTouchMove (event : DomEvent) (w : World) : Outcome :=
  match negb (isDragging (pointer w)), touches event with
  | false, [(x, y)] =>
      let deltaX := x - previousMouseX (pointer w) in
      let deltaY := y - previousMouseY (pointer w) in
      let w := in_rig (set_cameraTheta (cameraTheta (rig w) - deltaX * 0.005)) w in
      let w := in_rig (set_cameraPhi (cameraPhi (rig w) + deltaY * 0.003)) w in
      let w := in_rig (set_cameraPhi (Rmax 0.1 (Rmin 1.4 (cameraPhi (rig w))))) w in
      w <- updateCameraPosition w ;;
      Done (in_pointer (set_previousMouse x y) w)
  | _, _ => Done w
  end.

Definition onTouchEnd (w : World) : Outcome :=
  let w := in_pointer (set_isDragging false) w in
  let (h, w) := setTimeout 2000 w in
  Done (in_pointer (set_interactionTimeout (Some h)) w).

Definition initThreeScene (w : World) : Outcome :=
  match canvas (dom w) with
  | None => Done w
  | Some _ =>
      let w := in_stage (set_scene (Some {| children := [] |})) w in
      let w := in_stage (set_camera (Some
        {| fov := 50; aspect := innerWidth (dom w) / innerHeight (dom w);
           near := 0.1; far := 500; position := origin;
           lookTarget := None |})) w in
      w <- updateCameraPosition w ;;
      let w := in_stage (set_renderer (Some
        (renderer_setPixelRatio (Rmin (devicePixelRatio (dom w)) 2)
          (renderer_setSize (innerWidth (dom w)) (innerHeight (dom w))
            {| width := 0; height := 0; pixelRatio := 1;
               framesRendered := 0; rendererDisposed := false |})))) w in
      w <- loadPointCloud w ;;
      w <- animate w ;;
      let w := window_addEventListener resize h_onWindowResize w in
      let w := canvas_addEventListener mousedown h_onMouseDown w in
      let w := canvas_addEventListener mousemove h_onMouseMove w in
      let w := canvas_addEventListener mouseup h_onMouseUp w in
      let w := canvas_addEventListener mouseleave h_onMouseUp w in
      let w := canvas_addEventListener wheel h_onWheel w in
      let w := canvas_addEventListener touchstart h_onTouchStart w in
      let w := canvas_addEventListener touchmove h_onTouchMove w in
      Done (canvas_addEventListener touchend h_onTouchEnd w)
  end.

Definition destroyThreeScene (w : World) : Outcome :=
  let w := match animationId (stage w) with
           | Some (S n) => cancelAnimationFrame (S n) w
           | _ => w
           end in
  let w := clearTimeout (interactionTimeout (pointer w)) w in
  let w := match canvas (dom w) with
           | Some _ =>
               let w := canvas_removeEventListener mousedown h_onMouseDown w in
               let w := canvas_removeEventListener mousemove h_onMouseMove w in
               let w := canvas_removeEventListener mouseup h_onMouseUp w in
               let w := canvas_removeEventListener mouseleave h_onMouseUp w in
               let w := canvas_removeEventListener wheel h_onWheel w in
               let w := canvas_removeEventListener touchstart h_onTouchStart w in
               let w := canvas_removeEventListener touchmove h_onTouchMove w in
               canvas_removeEventListener touchend h_onTouchEnd w
           | None => w
           end in
  let w := window_removeEventListener resize h_onWindowResize w in
  let w := match scene (stage w) with
           | Some s =>
               in_stage (set_heap
                 (fold_left (fun h idx => heap_update dispose idx h)
                    (children s) (heap (stage w)))) w
           | None => w
           end in
  match renderer (stage w) with
  | Some r => Done (in_stage (set_renderer (Some (renderer_dispose r))) w)
  | None => Done w
  end.

(** ** The event loop *)

Inductive Event :=
  | Input (event : DomEvent)        (* a mouse, wheel or touch event over the canvas *)
  | Resize (wd ht : R)              (* the window takes a new size *)
  | Frame                           (* a display refresh *)
  | Elapse (ms : nat)               (* time passes *)
  | PlyLoaded (p : Points)          (* the loader succeeds *)
  | PlyFailed                       (* the loader fails *)
  | CallInit                        (* main.js calls initThreeScene() *)
  | CallDestroy                     (* a caller runs destroyThreeScene() *)
  | CallSetOrbitEnabled (b : bool). (* main.js calls setOrbitEnabled(b) *)

Definition invoke (h : Handler) (event : DomEvent) (w : World) : Outcome :=
  match h with
  | h_onMouseDown => onMouseDown event w
  | h_onMouseMove => onMouseMove event w
  | h_onMouseUp => onMouseUp w
  | h_onWheel => onWheel event w
  | h_onTouchStart => onTouchStart event w
  | h_onTouchMove => onTouchMove event w
  | h_onTouchEnd => onTouchEnd w
  | h_onWindowResize => onWindowResize w
  end.

(** The listeners of the event's type run in the order of registration; a
    listener that throws does not stop the ones after it. *)
Definition fire (ls : list Listener) (event : DomEvent) (w : World) : World :=
  fold_left (fun w l =>
    if EventType_eqb (fst l) (type event)
    then world_of (invoke (snd l) event w) else w) ls w.

(** The callback of both timeouts. *)
Definition cooldown (w : World) : World :=
  in_pointer (set_isUserInteracting false) w.

Definition isDue (now : nat) (t : Timer) : bool := (due t <=? now)%nat.

Definition elapse (ms : nat) (w : World) : World :=
  let now := (clock (loop w) + ms)%nat in
  let fired := filter (isDue now) (timers (loop w)) in
  let w := in_loop (set_clock now) w in
  let w := in_loop (set_timers
    (filter (fun t => negb (isDue now t)) (timers (loop w)))) w in
  fold_left (fun w _ => cooldown w) fired w.

Definition frame (w : World) : World :=
  let pending := frameRequests (loop w) in
  let w := in_loop (set_frameRequests []) w in
  fold_left (fun w _ => world_of (animate w)) pending w.

Definition resizeEvent : DomEvent :=
  {| type := resize; clientX := 0; clientY := 0; ctrlKey := false;
     metaKey := false; deltaY := 0; touches := [] |}.

(** What the page does next.  For an input event this is the browser's
    dispatch, not code of the module: an event goes to the canvas only while
    the style [pointer-events] lets the canvas be its target, which is how a
    browser treats mouse and wheel events and the start of a touch.  A touch
    that is already under way keeps its target, so a browser still sends its
    touchmove and touchend to the canvas after the style has changed; [step]
    does not cover that.  What the handlers do when they are called is
    stated on [invoke] and [fire], which have no such gate. *)
Definition step (w : World) (e : Event) : World :=
  match e with
  | Input event =>
      match canvas (dom w) with
      | Some {| pointerEvents := pe_auto |} =>
          fire (canvasListeners (dom w)) event w
      | _ => w
      end
  | Resize wd ht =>
      let w := in_dom (set_viewport wd ht) w in
      fire (windowListeners (dom w)) resizeEvent w
  | Frame => frame w
  | Elapse ms => elapse ms w
  | PlyLoaded p =>
      match loads (loop w) with
      | O => w
      | S n => world_of (onPlyLoaded p (in_loop (set_loads n) w))
      end
  | PlyFailed =>
      match loads (loop w) with
      | O => w
      | S n => world_of (createFallbackPointCloud (in_loop (set_loads n) w))
      end
  | CallInit => world_of (initThreeScene w)
  | CallDestroy => world_of (destroyThreeScene w)
  | CallSetOrbitEnabled b => world_of (setOrbitEnabled b w)
  end.

Definition run (w : World) (es : list Event) : World := fold_left step es w.

(** The module as loaded, before any call: the initial values of its
    variables, in a page whose canvas is [c] (or absent), whose random
    source is [rnd] and whose viewport is [wd] by [ht]. *)
Definition initial (c : option CanvasStyle) (rnd : nat -> R) (wd ht dpr : R)
  : World :=
  {| rig := {| cameraTheta := 0; cameraPhi := 0.4;
               targetCameraDistance := 60; currentCameraDistance := 60 |};
     pointer := {| isUserInteracting := false; interactionTimeout := None;
                   isDragging := false; previousMouseX := 0;
                   previousMouseY := 0; orbitEnabled := true |};
     stage := {| scene := None; camera := None; renderer := None;
                 pointCloud := None; animationId := None; time := 0;
                 heap := [] |};
     dom := {| canvas := c; canvasListeners := []; windowListeners := [];
               canvasDragging := false; innerWidth := wd; innerHeight := ht;
               devicePixelRatio := dpr |};
     loop := {| timers := []; clock := 0; nextHandle := 1;
                frameRequests := []; nextFrame := 1; draws := rnd;
                drawn := 0; loads := 0 |} |}.

(** A page with its canvas, on which main.js has called [initThreeScene]. *)
Definition demoCanvas : CanvasStyle :=
  {| pointerEvents := pe_auto; cursor := cur_default |}.

Definition demoPage : World :=
  step (initial (Some demoCanvas) (fun _ => 0.5) 1920 1080 1) CallInit.

Definition mouseAt (t : EventType) (x y : R) : DomEvent :=
  {| type := t; clientX := x; clientY := y; ctrlKey := false;
     metaKey := false; deltaY := 0; touches := [] |}.

Definition wheelBy (ctrl meta : bool) (dy : R) : DomEvent :=
  {| type := wheel; clientX := 0; clientY := 0; ctrlKey := ctrl;
     metaKey := meta; deltaY := dy; touches := [] |}.

Definition touchAt (t : EventType) (ts : list (R * R)) : DomEvent :=
  {| type := t; clientX := 0; clientY := 0; ctrlKey := false;
     metaKey := false; deltaY := 0; touches := ts |}.

(** ** Vocabulary of the properties *)

(** Nothing has been constructed, scheduled or registered. *)
Definition untouched (w : World) : Prop :=
  scene (stage w) = None /\ camera (stage w) = None
  /\ renderer (stage w) = None /\ animationId (stage w) = None
  /\ frameRequests (loop w) = [] /\ timers (loop w) = []
  /\ interactionTimeout (pointer w) = None
  /\ canvasListeners (dom w) = [] /\ windowListeners (dom w) = [].


(** The three coordinates that one iteration of the fallback loop pushes
    when the next draw is number [k]. *)
Definition fallbackPoint (rnd : nat -> R) (k : nat) : list R :=
  [ cos (rnd k * PI * 2) * (5 + rnd (S k) * 25);
    (rnd (S (S k)) - 0.5) * 20;
    sin (rnd k * PI * 2) * (5 + rnd (S k) * 25) ].

Fixpoint fallbackPoints (rnd : nat -> R) (k n : nat) : list R :=
  match n with
  | O => []
  | S n' => fallbackPoint rnd k ++ fallbackPoints rnd (S (S (S k))) n'
  end.

(** Point number [i] of a flat coordinate array. *)
Definition pointAt (l : list R) (i : nat) : Vector3 :=
  {| vx := nth (3 * i) l 0; vy := nth (3 * i + 1) l 0;
     vz := nth (3 * i + 2) l 0 |}.

(** Distance of a point from the y axis. *)
Definition axisDistance (p : Vector3) : R :=
  sqrt (vx p * vx p + vz p * vz p).

(** The object that the variable [pointCloud] refers to. *)
Definition cloud (w : World) : option Points :=
  match pointCloud (stage w) with
  | Some idx => nth_error (heap (stage w)) idx
  | None => None
  end.

(** The page of [demoPage] before main.js has run. *)
Definition demoStart : World :=
  initial (Some demoCanvas) (fun _ => 0.5) 1920 1080 1.

(** One finger down, a second finger down, then both lifted one after the
    other. *)
Definition twoFingerTap : list Event :=
  [ Input (touchAt touchstart [(10, 10)]);
    Input (touchAt touchstart [(10, 10); (50, 50)]);
    Input (touchAt touchend [(50, 50)]);
    Input (touchAt touchend []) ].

(** The position that [updateCameraPosition] computes from the rig. *)
Definition spherical (r : Rig) : Vector3 :=
  {| vx := currentCameraDistance r * cos (cameraPhi r) * sin (cameraTheta r);
     vy := currentCameraDistance r * sin (cameraPhi r) + 5;
     vz := currentCameraDistance r * cos (cameraPhi r) * cos (cameraTheta r) |}.

(** The world after a mouse move during a drag, camera [c] in place. *)
Definition dragged (event : DomEvent) (c : PerspectiveCamera) (w : World)
  : World :=
  let theta := cameraTheta (rig w)
               - (clientX event - previousMouseX (pointer w)) * 0.005 in
  let phi := Rmax 0.1 (Rmin 1.4
               (cameraPhi (rig w)
                + (clientY event - previousMouseY (pointer w)) * 0.003)) in
  let r := set_cameraPhi phi (set_cameraTheta theta (rig w)) in
  {| rig := r;
     pointer := set_previousMouse (clientX event) (clientY event) (pointer w);
     stage := set_camera (Some
       {| fov := fov c; aspect := aspect c; near := near c; far := far c;
          position := spherical r; lookTarget := Some origin |}) (stage w);
     dom := dom w;
     loop := loop w |}.

(** [demoPage] with the mouse button just pressed at (0, 0) and theta put
    back to 0. *)
Definition midDrag : World :=
  in_rig (set_cameraTheta 0) (step demoPage (Input (mouseAt mousedown 0 0))).

(** [demoPage] after a wheel event of 200 with Ctrl held: the target
    distance is 70 while the camera is still at 60. *)
Definition zoomedOut : World :=
  step demoPage (Input (wheelBy true false 200)).

(** How far [x] lies past [target] for a value that set out from [from]:
    positive once [x] has crossed to the other side of [target]. *)
Definition beyond (from target x : R) : R :=
  if Rle_dec from target then x - target else target - x.

(** What the interaction logic reads and writes: the part of the world on
    which the orbit's invariants depend. *)
Record Controls := {
  c_phi : R;
  c_interacting : bool;
  c_dragging : bool;
  c_timeout : option nat;
  c_timers : list Timer;
  c_clock : nat;
  c_canvasListeners : list Listener;
  c_windowListeners : list Listener
}.

Definition controls (w : World) : Controls :=
  {| c_phi := cameraPhi (rig w);
     c_interacting := isUserInteracting (pointer w);
     c_dragging := isDragging (pointer w);
     c_timeout := interactionTimeout (pointer w);
     c_timers := timers (loop w);
     c_clock := clock (loop w);
     c_canvasListeners := canvasListeners (dom w);
     c_windowListeners := windowListeners (dom w) |}.

(** The clamp range of the vertical angle. *)
Definition phi_ok (w : World) : Prop := 0.1 <= cameraPhi (rig w) <= 1.4.

(** The listeners that [initThreeScene] registers on the canvas. *)
Definition registry : list Listener :=
  [ (mousedown, h_onMouseDown); (mousemove, h_onMouseMove);
    (mouseup, h_onMouseUp); (mouseleave, h_onMouseUp); (wheel, h_onWheel);
    (touchstart, h_onTouchStart); (touchmove, h_onTouchMove);
    (touchend, h_onTouchEnd) ].

(** The timer queue is single-slot: nothing pending, or one timeout, and
    then [interactionTimeout] is its handle. *)
Definition single (c : Controls) : Prop :=
  c_timers c = []
  \/ exists t : Timer, c_timers c = [t] /\ c_timeout c = Some (handle t).

(** During a drag the user counts as interacting and no cooldown is
    pending. *)
Definition drag_ok (c : Controls) : Prop :=
  c_dragging c = true -> c_interacting c = true /\ c_timers c = [].

(** Only [initThreeScene] registers listeners, each of them once. *)
Definition wired (c : Controls) : Prop :=
  NoDup (c_canvasListeners c)
  /\ incl (c_canvasListeners c) registry
  /\ incl (c_windowListeners c) [(resize, h_onWindowResize)].

(** Does handler [h], run on [event], call [setTimeout]? *)
Definition schedules (h : Handler) (event : DomEvent) : bool :=
  match h with
  | h_onMouseUp | h_onTouchEnd => true
  | h_onWheel => ctrlKey event || metaKey event
  | _ => false
  end.

(** A release (mouse up, mouse leave, touch end) or a wheel event with Ctrl
    or Meta held. *)
Definition startsCooldown (e : Event) : bool :=
  match e with
  | Input event =>
      match type event with
      | mouseup | mouseleave | touchend => true
      | wheel => ctrlKey event || metaKey event
      | _ => false
      end
  | _ => false
  end.

(** A release alone. *)
Definition isRelease (e : Event) : bool :=
  match e with
  | Input event =>
      match type event with
      | mouseup | mouseleave | touchend => true
      | _ => false
      end
  | _ => false
  end.

(** The queue after [clearTimeout(h)]. *)
Definition cleared (h : option nat) (ts : list Timer) : list Timer :=
  match h with
  | None => ts
  | Some n => filter (fun t => negb (handle t =? n)%nat) ts
  end.

(** The same condition as [calm] below, for one handler. *)
Definition handler_calm (h : Handler) (event : DomEvent) (w : World) : Prop :=
  match h with
  | h_onTouchEnd => timers (loop w) = []
  | h_onWheel =>
      ctrlKey event || metaKey event = true -> isDragging (pointer w) = false
  | _ => True
  end.

(** The events that the drag invariant tolerates in world [w]: all of them,
    except a touch end that arrives while a timeout is pending and a wheel
    event with Ctrl or Meta held that arrives during a drag. *)
Definition calm (w : World) (e : Event) : bool :=
  match e with
  | Input event =>
      match type event with
      | touchend => match timers (loop w) with [] => true | _ => false end
      | wheel =>
          negb (ctrlKey event || metaKey event) || negb (isDragging (pointer w))
      | _ => true
      end
  | _ => true
  end.

Fixpoint calm_run (w : World) (es : list Event) : bool :=
  match es with
  | [] => true
  | e :: es' => calm w e && calm_run (step w e) es'
  end.

(** A drag through the points [pts]: one mouse move per point. *)
Definition dragThrough (pts : list (R * R)) (w : World) : World :=
  fold_left (fun w p =>
    world_of (onMouseMove (mouseAt mousemove (fst p) (snd p)) w)) pts w.

(** The point where the pointer was last seen. *)
Definition lastSeen (w : World) : R * R :=
  (previousMouseX (pointer w), previousMouseY (pointer w)).

Definition isSome {A : Type} (o : option A) : bool :=
  match o with Some _ => true | None => false end.

(** The machinery behind the handlers: the frame queue, the outstanding
    loads, and which of scene, camera, renderer and canvas exist. *)
Record Plant := {
  p_frames : list nat;
  p_nextFrame : nat;
  p_animationId : option nat;
  p_loads : nat;
  p_scene : bool;
  p_camera : bool;
  p_renderer : bool;
  p_canvas : bool
}.

Definition plant (w : World) : Plant :=
  {| p_frames := frameRequests (loop w);
     p_nextFrame := nextFrame (loop w);
     p_animationId := animationId (stage w);
     p_loads := loads (loop w);
     p_scene := isSome (scene (stage w));
     p_camera := isSome (camera (stage w));
     p_renderer := isSome (renderer (stage w));
     p_canvas := isSome (canvas (dom w)) |}.

(** Scene, camera and renderer all exist. *)
Definition built (w : World) : Prop :=
  p_scene (plant w) = true /\ p_camera (plant w) = true
  /\ p_renderer (plant w) = true.

(** Nothing of the module can be called back by the browser. *)
Definition idle (w : World) : Prop :=
  canvasListeners (dom w) = [] /\ windowListeners (dom w) = []
  /\ frameRequests (loop w) = [] /\ loads (loop w) = 0%nat.

(** Both distances within the zoom range. *)
Definition dist_ok (r : Rig) : Prop :=
  20 <= targetCameraDistance r <= 120 /\ 20 <= currentCameraDistance r <= 120.

Definition isCallInit (e : Event) : bool :=
  match e with CallInit => true | _ => false end.

(** One frame loop at most: nothing is pending, or the one pending frame
    is the one [animationId] names. *)
Definition one_loop (p : Plant) : Prop :=
  p_nextFrame p <> 0%nat
  /\ (p_frames p = []
      \/ exists id, p_frames p = [S id] /\ p_animationId p = Some (S id)).

(** The three colour components that one iteration of the fallback loop
    pushes when the next draw is number [k]. *)
Definition fallbackColor (rnd : nat -> R) (k : nat) : list R :=
  let t := ((rnd (S (S k)) - 0.5) * 20 + 10) / 20 in
  [ 0.486 * t + 0.3 * (1 - t);
    0.227 * t + 0.3 * (1 - t);
    0.929 * t + 0.3 * (1 - t) ].

Fixpoint fallbackColors (rnd : nat -> R) (k n : nat) : list R :=
  match n with
  | O => []
  | S n' => fallbackColor rnd k ++ fallbackColors rnd (S (S (S k))) n'
  end.

(** ** The caller in main.js: section tracking

    [updateNavOnScroll] (a closure of [initNavIndicator]) decides on every
    scroll which section is in view and switches the orbit accordingly.
    Its variables: [navNavigationInProgress] and [currentSection] of the
    module, [lastActiveSection] of the closure.  The restyling of the
    navigation links and of the indicator is left out. *)

Record Nav := {
  navNavigationInProgress : bool;
  lastActiveSection : option String.string;
  currentSection : String.string
}.

(** A [section[data-section]] element as a scroll sees it: its
    [dataset.section] and the [top] and [bottom] of its bounding rectangle. *)
Record SectionBox := {
  sectionName : String.string;
  top : R;
  bottom : R
}.

Definition Rleb (a b : R) : bool := if Rle_dec a b then true else false.

Definition navInitial : Nav :=
  {| navNavigationInProgress := false; lastActiveSection := None;
     currentSection := "hero"%string |}.

Definition updateActiveSection (sectionId : String.string) (nv : Nav) : Nav :=
  if navNavigationInProgress nv then nv else
  if String.eqb (currentSection nv) sectionId then nv else
  {| navNavigationInProgress := navNavigationInProgress nv;
     lastActiveSection := lastActiveSection nv;
     currentSection := sectionId |}.

(** The [forEach] over the sections: a later section that spans the centre
    replaces an earlier one. *)
Definition sectionAtCentre (viewportCenter : R) (sections : list SectionBox)
  : option String.string :=
  fold_left (fun activeSection section =>
    if Rleb (top section) viewportCenter && Rleb viewportCenter (bottom section)
    then Some (sectionName section) else activeSection) sections None.

(** [a !== lastActiveSection]. *)
Definition differs (a : String.string) (last : option String.string) : bool :=
  match last with
  | Some l => negb (String.eqb a l)
  | None => true
  end.

(** Truthiness of a string: the empty string is falsy. *)
Definition truthy (a : String.string) : bool := negb (String.eqb a ""%string).

Definition orbitSection (a : String.string) : bool :=
  String.eqb a "hero"%string || String.eqb a "contact"%string.

Definition updateNavOnScroll (sections : list SectionBox) (nv : Nav) (w : World)
  : Nav * Outcome :=
  if navNavigationInProgress nv then (nv, Done w) else
  let viewportCenter := innerHeight (dom w) / 2 in
  match sectionAtCentre viewportCenter sections with
  | Some activeSection =>
      if truthy activeSection && differs activeSection (lastActiveSection nv)
      then
        let nv := {| navNavigationInProgress := navNavigationInProgress nv;
                     lastActiveSection := Some activeSection;
                     currentSection := currentSection nv |} in
        let nv := updateActiveSection activeSection nv in
        (nv, setOrbitEnabled (orbitSection activeSection) w)
      else (nv, Done w)
  | None => (nv, Done w)
  end.

(** A series of scrolls; each comes with the value that
    [navNavigationInProgress] has at that moment (a click on a navigation
    link sets it, the end of the smooth scroll clears it) and with the
    rectangles of the sections at that moment. *)
Definition scrolls (ss : list (bool * list SectionBox)) (nv : Nav) (w : World)
  : Nav * World :=
  fold_left (fun st s =>
    let nv := {| navNavigationInProgress := fst s;
                 lastActiveSection := lastActiveSection (fst st);
                 currentSection := currentSection (fst st) |} in
    let r := updateNavOnScroll (snd s) nv (snd st) in
    (fst r, world_of (snd r))) ss (nv, w).

(** The orbit is as the last section seen demands. *)
Definition orbit_follows (nv : Nav) (w : World) : Prop :=
  match lastActiveSection nv with
  | Some a =>
      currentSection nv = a
      /\ orbitEnabled (pointer w) = orbitSection a
      /\ (forall st, canvas (dom w) = Some st ->
            pointerEvents st = if orbitSection a then pe_auto else pe_none)
  | None => True
  end.

(** ** The choice of the file in [loadPointCloud] *)

Definition choices : list String.string :=
  [ "/scene-0061.ply"%string; "/scene-0355.ply"%string ].

(** [choices[Math.floor(r * choices.length)]]: [None] is JavaScript's
    [undefined] for an index outside the array. *)
Definition choiceAt (r : R) : option String.string :=
  let i := Zfloor (r * INR (length choices)) in
  if (i <? 0)%Z then None else nth_error choices (Z.to_nat i).

(** The file that [loadPointCloud] asks for in state [w]: the one its
    draw selects. *)
Definition requestedFile (w : World) : option String.string :=
  choiceAt (fst (Math_random w)).

(** [navigator.userAgent.includes('Mobile') ? 25 : 75] *)
Definition scale_factor (mobile : bool) : R := if mobile then 25 else 75.

(** What the picture's proportions depend on: the camera's aspect, the
    renderer's size, and the viewport. *)
Definition view (w : World) : option R * option R * option R * R * R :=
  (option_map aspect (camera (stage w)),
   option_map width (renderer (stage w)),
   option_map height (renderer (stage w)),
   innerWidth (dom w), innerHeight (dom w)).

(** While the resize listener is registered, camera and renderer exist and
    match the viewport. *)
Definition fitted (w : World) : Prop :=
  In (resize, h_onWindowResize) (windowListeners (dom w)) ->
  view w = (Some (innerWidth (dom w) / innerHeight (dom w)),
            Some (innerWidth (dom w)), Some (innerHeight (dom w)),
            innerWidth (dom w), innerHeight (dom w)).

(** Unfolding of field reads over field updates, and nothing else: numerals
    and the real-number operations are left as they are written. *)
Ltac fields :=
  cbn [rig pointer stage dom loop
       cameraTheta cameraPhi targetCameraDistance currentCameraDistance
       isUserInteracting interactionTimeout isDragging previousMouseX
       previousMouseY orbitEnabled
       scene camera renderer pointCloud animationId time heap
       canvas canvasListeners windowListeners canvasDragging innerWidth
       innerHeight devicePixelRatio
       timers clock nextHandle frameRequests nextFrame draws drawn loads
       set_cameraTheta set_cameraPhi set_targetCameraDistance
       set_currentCameraDistance set_isUserInteracting
       set_interactionTimeout set_isDragging set_previousMouse
       set_orbitEnabled set_scene set_camera set_renderer set_pointCloud
       set_animationId set_time set_heap set_canvas set_canvasListeners
       set_windowListeners set_canvasDragging set_viewport set_timers
       set_clock set_nextHandle set_frameRequests set_nextFrame set_drawn
       set_loads in_rig in_pointer in_stage in_dom in_loop
       world_of returns andThen fst snd
       position lookTarget aspect fov near far camera_place camera_lookAt
       camera_setAspect vx vy vz handle due
       clientX clientY ctrlKey metaKey deltaY touches type
       negb andb orb] in *.

(** Case analysis on what a function branches on, innermost test first. *)
Ltac cases :=
  repeat (fields; match goal with
  | |- context [match ?x with _ => _ end] =>
      lazymatch x with
      | context [match _ with _ => _ end] => fail
      | _ => destruct x eqn:?
      end
  end); fields.

(** A closed equation or inequality between reals: evaluate, decide the
    comparisons of [Rmax] and [Rmin] from the inside out, and leave the
    arithmetic to [lra]. *)
Ltac by_value :=
  vm_compute;
  repeat match goal with
  | |- context [Rle_dec ?a ?b] =>
      lazymatch a with
      | context [Rle_dec _ _] => fail
      | _ => lazymatch b with
             | context [Rle_dec _ _] => fail
             | _ => destruct (Rle_dec a b)
             end
      end
  end; lra.

(** The handlers and the primitives they call, unfolded. *)
Ltac open_handlers :=
  unfold invoke, onMouseDown, onMouseMove, onMouseUp, onWheel, onTouchStart,
    onTouchMove, onTouchEnd, onWindowResize, updateCameraPosition,
    setTimeout, clearTimeout.

(** ** The two scenarios on binary64 floats

    The same two updates with JavaScript's own arithmetic: IEEE 754
    binary64, round to nearest. *)
Module Binary64.

Local Open Scope float_scope.
#[local] Set Warnings "-inexact-float".

Definition Math_max (a b : float) : float :=
  if PrimFloat.is_nan a || PrimFloat.is_nan b then nan
  else if (a <? b) then b else a.

Definition Math_min (a b : float) : float :=
  if PrimFloat.is_nan a || PrimFloat.is_nan b then nan
  else if (b <? a) then b else a.

(** [cameraTheta -= deltaX * 0.005] *)
Definition thetaAfterDrag (theta deltaX : float) : float :=
  theta - deltaX * 0.005.

(** [targetCameraDistance += event.deltaY * 0.05], then the clamp. *)
Definition targetAfterWheel (target deltaY : float) : float :=
  Math_max 20 (Math_min 120 (target + deltaY * 0.05)).

End Binary64.

(** * Properties *)

Lemma fold_left_keeps {A : Type} (P : World -> Prop) (f : World -> A -> World)
  (l : list A) :
  (forall w x, P w -> P (f w x)) -> forall w, P w -> P (fold_left f l w).
Proof.
  intros Hf. induction l as [|x l IH]; intros w Hw; simpl; auto.
Qed.

(** ** The camera position *)

Lemma spherical_ring (r : Rig) :
  vx (spherical r) * vx (spherical r) + vz (spherical r) * vz (spherical r)
  = (currentCameraDistance r * cos (cameraPhi r))
    * (currentCameraDistance r * cos (cameraPhi r)).
Proof.
  simpl.
  pose proof (sin2_cos2 (cameraTheta r)) as H. unfold Rsqr in H.
  nra.
Qed.

Lemma updateCameraPosition_done (w : World) (c : PerspectiveCamera) :
  camera (stage w) = Some c ->
  updateCameraPosition w
  = Done (in_stage (set_camera (Some
      {| fov := fov c; aspect := aspect c; near := near c; far := far c;
         position := spherical (rig w); lookTarget := Some origin |})) w).
Proof.
  intros H. unfold updateCameraPosition. rewrite H. reflexivity.
Qed.

(** C1.  Whenever a camera exists, [updateCameraPosition] returns, and the
    only thing it changes is the camera: its position becomes
    x = distance * cos(phi) * sin(theta), y = distance * sin(phi) + 5,
    z = distance * cos(phi) * cos(theta), and it is aimed at (0, 0, 0).
    Hence x^2 + z^2 = (distance * cos(phi))^2 and the height is
    distance * sin(phi) + 5, whatever theta, phi and the distance are. *)
Theorem updateCameraPosition_spherical (w : World) :
  camera (stage w) <> None ->
  exists c' : PerspectiveCamera,
    updateCameraPosition w = Done (in_stage (set_camera (Some c')) w)
    /\ vx (position c')
       = currentCameraDistance (rig w) * cos (cameraPhi (rig w))
         * sin (cameraTheta (rig w))
    /\ vy (position c')
       = currentCameraDistance (rig w) * sin (cameraPhi (rig w)) + 5
    /\ vz (position c')
       = currentCameraDistance (rig w) * cos (cameraPhi (rig w))
         * cos (cameraTheta (rig w))
    /\ lookTarget c' = Some {| vx := 0; vy := 0; vz := 0 |}
    /\ (vx (position c'))² + (vz (position c'))²
       = (currentCameraDistance (rig w) * cos (cameraPhi (rig w)))².
Proof.
  intros H. destruct (camera (stage w)) as [c|] eqn:Hc; [|congruence].
  eexists. split; [apply (updateCameraPosition_done w c Hc)|].
  cbn [position lookTarget]. repeat split.
  unfold Rsqr. apply spherical_ring.
Qed.

Lemma updateCameraPosition_spherical_witness :
  exists c' : PerspectiveCamera,
    updateCameraPosition demoPage
    = Done (in_stage (set_camera (Some c')) demoPage)
    /\ vx (position c')
       = currentCameraDistance (rig demoPage) * cos (cameraPhi (rig demoPage))
         * sin (cameraTheta (rig demoPage))
    /\ vy (position c')
       = currentCameraDistance (rig demoPage) * sin (cameraPhi (rig demoPage)) + 5
    /\ vz (position c')
       = currentCameraDistance (rig demoPage) * cos (cameraPhi (rig demoPage))
         * cos (cameraTheta (rig demoPage))
    /\ lookTarget c' = Some {| vx := 0; vy := 0; vz := 0 |}
    /\ (vx (position c'))² + (vz (position c'))²
       = (currentCameraDistance (rig demoPage) * cos (cameraPhi (rig demoPage)))².
Proof.
  apply (updateCameraPosition_spherical demoPage).
  intros H. vm_compute in H. discriminate H.
Defined.

Lemma clamp_between (lo hi x : R) :
  lo <= hi -> lo <= Rmax lo (Rmin hi x) <= hi.
Proof.
  intros H. split.
  - apply Rmax_l.
  - apply Rmax_lub; [exact H | apply Rmin_l].
Qed.

Lemma clamp_inside (lo hi x : R) :
  lo <= x <= hi -> Rmax lo (Rmin hi x) = x.
Proof.
  intros [H1 H2]. rewrite Rmin_right by exact H2. apply Rmax_right, H1.
Qed.

(** ** Dragging with the mouse *)

Lemma onMouseMove_dragging (event : DomEvent) (c : PerspectiveCamera) (w : World) :
  isDragging (pointer w) = true -> camera (stage w) = Some c ->
  onMouseMove event w = Done (dragged event c w).
Proof.
  intros Hd Hc. unfold onMouseMove, updateCameraPosition. rewrite Hd.
  fields. rewrite Hc. reflexivity.
Qed.

(** C7.  A mouse move while [isDragging] holds, with dx and dy the pointer's
    displacement from the last recorded position: theta becomes
    theta - dx * 0.005, phi becomes clamp(phi + dy * 0.003, 0.1, 1.4), the
    camera sits at the position computed from the new angles when the
    handler returns, and the last pointer position is the event's; nothing
    else changes.  From theta = 0, dx = 100 gives theta = -0.5.  A mouse
    move while [isDragging] is false changes nothing. *)
Theorem onMouseMove_orbits (event : DomEvent) (w : World) :
  camera (stage w) <> None ->
  let dx := clientX event - previousMouseX (pointer w) in
  let dy := clientY event - previousMouseY (pointer w) in
  let w' := world_of (onMouseMove event w) in
  (isDragging (pointer w) = false -> onMouseMove event w = Done w)
  /\ (isDragging (pointer w) = true ->
      returns (onMouseMove event w) = true
      /\ cameraTheta (rig w') = cameraTheta (rig w) - dx * 0.005
      /\ cameraPhi (rig w') = Rmax 0.1 (Rmin 1.4 (cameraPhi (rig w) + dy * 0.003))
      /\ (exists c', camera (stage w') = Some c'
                     /\ position c' = spherical (rig w')
                     /\ lookTarget c' = Some origin)
      /\ previousMouseX (pointer w') = clientX event
      /\ previousMouseY (pointer w') = clientY event
      /\ targetCameraDistance (rig w') = targetCameraDistance (rig w)
      /\ currentCameraDistance (rig w') = currentCameraDistance (rig w)
      /\ isDragging (pointer w') = true
      /\ isUserInteracting (pointer w') = isUserInteracting (pointer w)
      /\ interactionTimeout (pointer w') = interactionTimeout (pointer w)
      /\ dom w' = dom w /\ loop w' = loop w
      /\ (cameraTheta (rig w) = 0 -> dx = 100 -> cameraTheta (rig w') = -0.5)).
Proof.
  intros Hc dx dy w'. split.
  - intros Hd. unfold onMouseMove. rewrite Hd. reflexivity.
  - intros Hd. destruct (camera (stage w)) as [c|] eqn:Ec; [|congruence].
    subst w'. rewrite (onMouseMove_dragging event c w Hd Ec).
    unfold dragged. fields. fold dx dy.
    repeat split; try assumption.
    + eexists. repeat split.
    + intros H0 H100. rewrite H0, H100. lra.
Qed.

Lemma onMouseMove_orbits_witness :
  cameraTheta (rig (world_of (onMouseMove (mouseAt mousemove 100 0) midDrag)))
  = -0.5.
Proof.
  assert (Hc : camera (stage midDrag) <> None)
    by (intros H; vm_compute in H; discriminate H).
  destruct (onMouseMove_orbits (mouseAt mousemove 100 0) midDrag Hc)
    as [_ H].
  assert (Hd : isDragging (pointer midDrag) = true) by reflexivity.
  destruct (H Hd) as (_ & _ & _ & _ & _ & _ & _ & _ & _ & _ & _ & _ & _ & Hs).
  apply Hs.
  - reflexivity.
  - change (100 - 0 = 100). lra.
Defined.

(** ** The wheel *)

Lemma cooldowns_clear (l : list Timer) :
  l <> [] -> forall w,
  isUserInteracting
    (pointer (fold_left (fun (w : World) (_ : Timer) => cooldown w) l w))
  = false.
Proof.
  induction l as [|x l IH]; intros Hne w; [congruence|].
  destruct l as [|y l'].
  - reflexivity.
  - apply (IH ltac:(discriminate) (cooldown w)).
Qed.

Lemma elapse_fires (ms : nat) (w : World) (t : Timer) :
  In t (timers (loop w)) -> (due t <= clock (loop w) + ms)%nat ->
  isUserInteracting (pointer (elapse ms w)) = false.
Proof.
  intros Hin Hdue. unfold elapse.
  apply cooldowns_clear.
  assert (Hf : In t (filter (isDue (clock (loop w) + ms)) (timers (loop w)))).
  { apply filter_In. split; [exact Hin|]. unfold isDue. now apply Nat.leb_le. }
  intros E. rewrite E in Hf. destruct Hf.
Qed.

(** C6.  A wheel event with neither Ctrl nor Meta held changes nothing: not
    [targetCameraDistance], not [isUserInteracting].  With one of them held
    the handler sets [isUserInteracting], cancels the timeout it holds,
    adds deltaY * 0.05 to [targetCameraDistance] and clamps the sum to
    [20, 120], and schedules the cooldown: one new timeout, due in 2000 ms,
    whose firing clears [isUserInteracting].  From 60, deltaY = 200 gives
    70. *)
Theorem onWheel_zooms (event : DomEvent) (w : World) :
  let w' := world_of (onWheel event w) in
  (ctrlKey event = false -> metaKey event = false -> onWheel event w = Done w)
  /\ (ctrlKey event = true \/ metaKey event = true ->
      returns (onWheel event w) = true
      /\ isUserInteracting (pointer w') = true
      /\ targetCameraDistance (rig w')
         = Rmax 20 (Rmin 120 (targetCameraDistance (rig w) + deltaY event * 0.05))
      /\ 20 <= targetCameraDistance (rig w') <= 120
      /\ timers (loop w')
         = timers (loop (clearTimeout (interactionTimeout (pointer w)) w))
           ++ [{| handle := nextHandle (loop w);
                  due := clock (loop w) + 2000 |}]
      /\ interactionTimeout (pointer w') = Some (nextHandle (loop w))
      /\ isUserInteracting (pointer (elapse 2000 w')) = false
      /\ (targetCameraDistance (rig w) = 60 -> deltaY event = 200 ->
          targetCameraDistance (rig w') = 70)).
Proof.
  intros w'. split.
  - intros Hc Hm. unfold onWheel. rewrite Hc, Hm. reflexivity.
  - intros Hmod.
    assert (Hg : negb (ctrlKey event) && negb (metaKey event) = false)
      by (destruct Hmod as [H|H]; rewrite H; simpl;
          [reflexivity | apply andb_false_r]).
    subst w'. unfold onWheel. rewrite Hg.
    unfold setTimeout, clearTimeout. fields.
    destruct (interactionTimeout (pointer w)) as [n|]; fields;
      (repeat split;
       [ apply Rmax_l
       | apply Rmax_lub; [lra | apply Rmin_l]
       | eapply elapse_fires;
         [ fields; apply in_or_app; right; left; reflexivity
         | fields; lia ]
       | intros H60 H200; rewrite H60, H200;
         rewrite clamp_inside; lra ]).
Qed.

Lemma onWheel_zooms_witness :
  targetCameraDistance (rig (world_of (onWheel (wheelBy true false 200) demoPage)))
  = 70
  /\ onWheel (wheelBy false false 200) demoPage = Done demoPage.
Proof.
  destruct (onWheel_zooms (wheelBy true false 200) demoPage) as [_ H].
  destruct (onWheel_zooms (wheelBy false false 200) demoPage) as [H0 _].
  split.
  - destruct (H (or_introl eq_refl))
      as (_ & _ & _ & _ & _ & _ & _ & Hs).
    apply Hs; reflexivity.
  - apply H0; reflexivity.
Defined.

(** ** What each function leaves alone *)

Lemma animate_controls (w : World) :
  controls (world_of (animate w)) = controls w.
Proof.
  unfold animate, requestAnimationFrame, updateCameraPosition.
  cases; reflexivity.
Qed.

Lemma onWindowResize_controls (w : World) :
  controls (world_of (onWindowResize w)) = controls w.
Proof. unfold onWindowResize. cases; reflexivity. Qed.

Lemma setOrbitEnabled_controls (b : bool) (w : World) :
  controls (world_of (setOrbitEnabled b w)) = controls w.
Proof. unfold setOrbitEnabled. cases; reflexivity. Qed.

Lemma fallbackLoop_world (n : nat) :
  forall ps cs w,
    snd (fallbackLoop n ps cs w)
    = in_loop (set_drawn (3 * n + drawn (loop w))) w.
Proof.
  induction n as [|n IH]; intros ps cs w.
  - destruct w as [r p s d l]. destruct l. reflexivity.
  - cbn [fallbackLoop]. unfold Math_random. rewrite IH. fields.
    unfold in_loop, set_drawn. fields. do 2 f_equal. lia.
Qed.

Lemma scene_add_controls (idx : nat) (w : World) :
  controls (world_of (scene_add idx w)) = controls w.
Proof. unfold scene_add. cases; reflexivity. Qed.

Lemma createFallbackPointCloud_controls (w : World) :
  controls (world_of (createFallbackPointCloud w)) = controls w.
Proof.
  unfold createFallbackPointCloud. generalize numPoints. intros n.
  pose proof (fallbackLoop_world n [] [] w) as Hw.
  destruct (fallbackLoop n [] [] w) as [[ps cs] w1].
  cbn [snd] in Hw. subst w1.
  unfold newPoints. rewrite scene_add_controls. reflexivity.
Qed.

Lemma onPlyLoaded_controls (p : Points) (w : World) :
  controls (world_of (onPlyLoaded p w)) = controls w.
Proof.
  unfold onPlyLoaded, newPoints. rewrite scene_add_controls. reflexivity.
Qed.

(** ** Smoothing of the distance *)

Lemma animate_done (w : World) :
  camera (stage w) <> None -> renderer (stage w) <> None ->
  returns (animate w) = true
  /\ currentCameraDistance (rig (world_of (animate w)))
     = currentCameraDistance (rig w)
       + (targetCameraDistance (rig w) - currentCameraDistance (rig w)) * 0.08
  /\ targetCameraDistance (rig (world_of (animate w)))
     = targetCameraDistance (rig w)
  /\ cameraTheta (rig (world_of (animate w)))
     = (if isUserInteracting (pointer w) then cameraTheta (rig w)
        else cameraTheta (rig w) + 0.002)
  /\ cameraPhi (rig (world_of (animate w))) = cameraPhi (rig w)
  /\ camera (stage (world_of (animate w))) <> None
  /\ renderer (stage (world_of (animate w))) <> None.
Proof.
  intros Hc Hr.
  unfold animate, requestAnimationFrame, updateCameraPosition.
  cases; try congruence; repeat split; congruence.
Qed.

Lemma zoomedOut_distances :
  currentCameraDistance (rig zoomedOut) = 60
  /\ targetCameraDistance (rig zoomedOut) = 70.
Proof. split; by_value. Qed.

(** C3.  A frame update (the camera and the renderer exist) replaces
    [currentCameraDistance] by current + (target - current) * 0.08 and leaves
    [targetCameraDistance] as it is.  The new value lies between the old one
    and the target: it moves toward the target, never to the other side of
    it, and the gap shrinks to 0.92 of what it was.  In particular it never
    lies past the target by more than the step just taken (it never lies
    past it at all). *)
Theorem animate_smooths (w : World) :
  camera (stage w) <> None -> renderer (stage w) <> None ->
  let c := currentCameraDistance (rig w) in
  let t := targetCameraDistance (rig w) in
  let c' := currentCameraDistance (rig (world_of (animate w))) in
  returns (animate w) = true
  /\ c' = c + (t - c) * 0.08
  /\ targetCameraDistance (rig (world_of (animate w))) = t
  /\ (c <= t -> c <= c' <= t)
  /\ (t <= c -> t <= c' <= c)
  /\ (c < t -> c < c' < t)
  /\ (t < c -> t < c' < c)
  /\ t - c' = 0.92 * (t - c)
  /\ Rabs (t - c') <= Rabs (t - c)
  /\ beyond c t c' <= 0
  /\ beyond c t c' <= Rabs (c' - c).
Proof.
  intros Hc Hr c t c'.
  destruct (animate_done w Hc Hr) as (Hret & Hcur & Htgt & _).
  fold c t c' in Hcur.
  assert (Hb : beyond c t c' <= 0)
    by (unfold beyond; destruct (Rle_dec c t); lra).
  repeat split; try assumption; try lra.
  - rewrite Hcur. replace (t - (c + (t - c) * 0.08)) with (0.92 * (t - c)) by lra.
    rewrite Rabs_mult. rewrite (Rabs_pos_eq 0.92) by lra.
    pose proof (Rabs_pos (t - c)). lra.
  - pose proof (Rabs_pos (c' - c)). lra.
Qed.

Lemma animate_smooths_witness :
  currentCameraDistance (rig zoomedOut) = 60
  /\ targetCameraDistance (rig zoomedOut) = 70
  /\ currentCameraDistance (rig (world_of (animate zoomedOut))) = 60.8
  /\ 60 < currentCameraDistance (rig (world_of (animate zoomedOut))) < 70.
Proof.
  assert (Hc : camera (stage zoomedOut) <> None)
    by (intros H; vm_compute in H; discriminate H).
  assert (Hr : renderer (stage zoomedOut) <> None)
    by (intros H; vm_compute in H; discriminate H).
  destruct zoomedOut_distances as [E1 E2].
  destruct (animate_smooths zoomedOut Hc Hr)
    as (_ & H2 & _ & _ & _ & H6 & _).
  rewrite E1, E2 in H2, H6.
  repeat split; try assumption.
  - rewrite H2. lra.
  - apply H6. lra.
  - apply H6. lra.
Defined.

(** ** The vertical angle *)

Lemma fold_left_keeps_in {A : Type} (P : World -> Prop)
  (f : World -> A -> World) (l : list A) :
  (forall w x, In x l -> P w -> P (f w x)) ->
  forall w, P w -> P (fold_left f l w).
Proof.
  induction l as [|x l IH]; intros Hf w Hw; simpl; auto.
  apply IH.
  - intros w' y Hy. apply Hf. now right.
  - apply Hf; [now left | exact Hw].
Qed.

Lemma invoke_phi (h : Handler) (event : DomEvent) (w : World) :
  cameraPhi (rig (world_of (invoke h event w))) = cameraPhi (rig w)
  \/ ((h = h_onMouseMove \/ h = h_onTouchMove)
      /\ isDragging (pointer w) = true
      /\ exists dy : R,
           cameraPhi (rig (world_of (invoke h event w)))
           = Rmax 0.1 (Rmin 1.4 (cameraPhi (rig w) + dy * 0.003))).
Proof.
  destruct h; unfold invoke, onMouseDown, onMouseMove, onMouseUp, onWheel,
    onTouchStart, onTouchMove, onTouchEnd, onWindowResize,
    updateCameraPosition, setTimeout, clearTimeout;
    cases; try (left; reflexivity);
    right; (split; [auto|]); (split; [destruct (isDragging (pointer w)); auto; discriminate|]);
    eexists; reflexivity.
Qed.

Lemma invoke_phi_ok (h : Handler) (event : DomEvent) (w : World) :
  phi_ok w -> phi_ok (world_of (invoke h event w)).
Proof.
  intros H. unfold phi_ok.
  destruct (invoke_phi h event w) as [E | (_ & _ & dy & E)]; rewrite E.
  - exact H.
  - apply clamp_between. lra.
Qed.

Lemma fire_phi_ok (ls : list Listener) (event : DomEvent) (w : World) :
  phi_ok w -> phi_ok (fire ls event w).
Proof.
  unfold fire. apply fold_left_keeps. intros w' l Hw'.
  destruct (EventType_eqb (fst l) (type event)); [|exact Hw'].
  now apply invoke_phi_ok.
Qed.

Lemma elapse_rig (ms : nat) (w : World) : rig (elapse ms w) = rig w.
Proof.
  unfold elapse.
  apply (fold_left_keeps (fun w' => rig w' = rig w)); [|reflexivity].
  intros w' _ H. exact H.
Qed.

Lemma frame_controls (w : World) : controls (frame w) = controls w.
Proof.
  unfold frame.
  apply (fold_left_keeps (fun w' => controls w' = controls w)); [|reflexivity].
  intros w' _ H. now rewrite animate_controls.
Qed.

Lemma destroyThreeScene_controls (w : World) :
  controls (world_of (destroyThreeScene w))
  = {| c_phi := cameraPhi (rig w);
       c_interacting := isUserInteracting (pointer w);
       c_dragging := isDragging (pointer w);
       c_timeout := interactionTimeout (pointer w);
       c_timers := cleared (interactionTimeout (pointer w)) (timers (loop w));
       c_clock := clock (loop w);
       c_canvasListeners :=
         match canvas (dom w) with
         | Some _ =>
             fold_left (fun ls l => removeListener l ls) registry
               (canvasListeners (dom w))
         | None => canvasListeners (dom w)
         end;
       c_windowListeners :=
         removeListener (resize, h_onWindowResize) (windowListeners (dom w)) |}.
Proof.
  unfold destroyThreeScene, cancelAnimationFrame, clearTimeout,
    canvas_removeEventListener, window_removeEventListener, controls, cleared.
  cases;
    repeat match goal with
    | H : ?x = _ |- context [?x] => rewrite H
    end; reflexivity.
Qed.

Lemma returns_done (o : Outcome) : returns o = true -> o = Done (world_of o).
Proof. destruct o; [reflexivity | discriminate]. Qed.

(** The listeners after [initThreeScene] on a page with a canvas. *)
Lemma initThreeScene_controls (w : World) :
  canvas (dom w) <> None ->
  returns (initThreeScene w) = true
  /\ controls (world_of (initThreeScene w))
     = {| c_phi := cameraPhi (rig w);
          c_interacting := isUserInteracting (pointer w);
          c_dragging := isDragging (pointer w);
          c_timeout := interactionTimeout (pointer w);
          c_timers := timers (loop w);
          c_clock := clock (loop w);
          c_canvasListeners :=
            fold_left (fun ls l => addListener l ls) registry
              (canvasListeners (dom w));
          c_windowListeners :=
            addListener (resize, h_onWindowResize) (windowListeners (dom w)) |}.
Proof.
  intros Hc. unfold initThreeScene.
  destruct (canvas (dom w)) as [st|] eqn:Ec; [|congruence].
  match goal with |- context [updateCameraPosition ?x] =>
    rewrite (updateCameraPosition_done x _ eq_refl)
  end. cbn [andThen].
  unfold loadPointCloud, Math_random. cbn [andThen].
  match goal with |- context [animate ?x] => set (w3 := x) end.
  destruct (animate_done w3) as (Hret & _); [discriminate | discriminate |].
  pose proof (animate_controls w3) as Ha.
  rewrite (returns_done _ Hret). cbn [andThen].
  set (w4 := world_of (animate w3)) in *.
  split; [reflexivity|].
  unfold canvas_addEventListener, window_addEventListener.
  unfold controls in *. fields.
  injection Ha as -> -> -> -> -> -> -> ->. reflexivity.
Qed.

Lemma initThreeScene_absent (w : World) :
  canvas (dom w) = None -> initThreeScene w = Done w.
Proof. intros H. unfold initThreeScene. now rewrite H. Qed.

Lemma initThreeScene_phi (w : World) :
  cameraPhi (rig (world_of (initThreeScene w))) = cameraPhi (rig w).
Proof.
  destruct (canvas (dom w)) eqn:Ec.
  - destruct (initThreeScene_controls w) as [_ H]; [congruence|].
    apply (f_equal c_phi) in H. exact H.
  - now rewrite initThreeScene_absent.
Qed.

Lemma step_phi (w : World) (e : Event) :
  match e with
  | Input _ | Resize _ _ => True
  | _ => cameraPhi (rig (step w e)) = cameraPhi (rig w)
  end.
Proof.
  destruct e; cbn [step]; trivial.
  - apply (f_equal c_phi (frame_controls w)).
  - now rewrite elapse_rig.
  - destruct (loads (loop w)); [reflexivity|].
    apply (f_equal c_phi (onPlyLoaded_controls p (in_loop (set_loads n) w))).
  - destruct (loads (loop w)); [reflexivity|].
    apply (f_equal c_phi
             (createFallbackPointCloud_controls (in_loop (set_loads n) w))).
  - apply initThreeScene_phi.
  - apply (f_equal c_phi (destroyThreeScene_controls w)).
  - apply (f_equal c_phi (setOrbitEnabled_controls b w)).
Qed.

Lemma step_phi_ok (w : World) (e : Event) : phi_ok w -> phi_ok (step w e).
Proof.
  intros H. pose proof (step_phi w e) as S. unfold phi_ok in *.
  destruct e; try (rewrite S; exact H); cbn [step].
  - destruct (canvas (dom w)) as [[[|] ?]|]; try exact H.
    now apply fire_phi_ok.
  - now apply fire_phi_ok.
Qed.

(** C2.  From the module's initial state (phi = 0.4), after any sequence of
    events and calls, 0.1 <= phi <= 1.4.  A handler either leaves phi as it
    was or, being the mouse-move or the touch-move handler during a drag,
    sets it to clamp(phi + dy * 0.003, 0.1, 1.4), which lies in [0.1, 1.4]
    whatever dy is; frames, timers, the loader's callbacks and the three
    exported functions do not change phi. *)
Theorem phi_stays_clamped :
  (forall c rnd wd ht dpr (es : list Event),
     cameraPhi (rig (initial c rnd wd ht dpr)) = 0.4
     /\ 0.1 <= cameraPhi (rig (run (initial c rnd wd ht dpr) es)) <= 1.4)
  /\ (forall (h : Handler) (event : DomEvent) (w : World),
        cameraPhi (rig (world_of (invoke h event w))) = cameraPhi (rig w)
        \/ ((h = h_onMouseMove \/ h = h_onTouchMove)
            /\ isDragging (pointer w) = true
            /\ exists dy : R,
                 cameraPhi (rig (world_of (invoke h event w)))
                 = Rmax 0.1 (Rmin 1.4 (cameraPhi (rig w) + dy * 0.003))))
  /\ (forall x : R, 0.1 <= Rmax 0.1 (Rmin 1.4 x) <= 1.4)
  /\ (forall (w : World) (e : Event),
        match e with
        | Input _ | Resize _ _ => True
        | _ => cameraPhi (rig (step w e)) = cameraPhi (rig w)
        end).
Proof.
  split; [|split; [|split]].
  - intros c rnd wd ht dpr es. split; [reflexivity|].
    unfold run.
    apply (fold_left_keeps phi_ok).
    + intros w e. apply step_phi_ok.
    + unfold phi_ok. cbn [initial rig cameraPhi]. lra.
  - exact invoke_phi.
  - intros x. apply clamp_between. lra.
  - exact step_phi.
Qed.

(** ** Listeners *)

Lemma EventType_eqb_eq (a b : EventType) : EventType_eqb a b = true <-> a = b.
Proof. destruct a, b; simpl; split; intros H; congruence. Qed.

Lemma Handler_eqb_eq (a b : Handler) : Handler_eqb a b = true <-> a = b.
Proof. destruct a, b; simpl; split; intros H; congruence. Qed.

Lemma Listener_eqb_eq (a b : Listener) : Listener_eqb a b = true <-> a = b.
Proof.
  destruct a as [t h], b as [t' h']. unfold Listener_eqb. cbn [fst snd].
  rewrite andb_true_iff, EventType_eqb_eq, Handler_eqb_eq.
  split; [intros [-> ->]; reflexivity | intros H; injection H; auto].
Qed.

Lemma addListener_In (l x : Listener) (ls : list Listener) :
  In x (addListener l ls) -> x = l \/ In x ls.
Proof.
  unfold addListener. destruct (existsb (Listener_eqb l) ls); [now right|].
  intros H. apply in_app_or in H. destruct H as [H|[H|[]]]; auto.
Qed.

Lemma addListener_NoDup (l : Listener) (ls : list Listener) :
  NoDup ls -> NoDup (addListener l ls).
Proof.
  intros H. unfold addListener.
  destruct (existsb (Listener_eqb l) ls) eqn:E; [exact H|].
  assert (Hn : ~ In l ls).
  { intros Hin. apply Bool.not_true_iff_false in E. apply E.
    apply existsb_exists. exists l. split; [exact Hin|].
    now apply Listener_eqb_eq. }
  clear E. induction ls as [|y ls IH]; simpl.
  - constructor; [intros []|constructor].
  - inversion H as [|? ? Hy Hls]; subst. constructor.
    + intros Hin. apply in_app_or in Hin. destruct Hin as [Hin|[Hin|[]]].
      * now apply Hy.
      * apply Hn. left. now symmetry.
    + apply IH; [exact Hls|]. intros Hin. apply Hn. now right.
Qed.

Lemma addListeners_wired (new ls : list Listener) :
  NoDup ls -> incl ls registry -> incl new registry ->
  NoDup (fold_left (fun ls l => addListener l ls) new ls)
  /\ incl (fold_left (fun ls l => addListener l ls) new ls) registry.
Proof.
  revert ls. induction new as [|l new IH]; intros ls Hn Hi Hnew; simpl.
  - now split.
  - apply IH.
    + now apply addListener_NoDup.
    + intros x Hx. apply addListener_In in Hx. destruct Hx as [->|Hx].
      * apply Hnew. now left.
      * now apply Hi.
    + intros x Hx. apply Hnew. now right.
Qed.

Lemma removeListener_wired (l : Listener) (ls : list Listener) (reg : list Listener) :
  (NoDup ls -> NoDup (removeListener l ls))
  /\ (incl ls reg -> incl (removeListener l ls) reg).
Proof.
  unfold removeListener. split.
  - apply NoDup_filter.
  - intros Hi x Hx. apply filter_In in Hx. now apply Hi.
Qed.

Lemma registry_functional (l l' : Listener) :
  In l registry -> In l' registry -> fst l = fst l' -> l = l'.
Proof.
  unfold registry. intros H H' E. simpl in H, H'.
  repeat (destruct H as [H|H]; [rewrite <- H in *; clear H|]);
    try contradiction;
    repeat (destruct H' as [H'|H']; [rewrite <- H' in *; clear H'|]);
    try contradiction; try reflexivity; discriminate E.
Qed.

Lemma fire_skip (ls : list Listener) (event : DomEvent) (w : World) :
  (forall l, In l ls -> fst l <> type event) -> fire ls event w = w.
Proof.
  unfold fire. revert w. induction ls as [|l ls IH]; intros w H; simpl.
  - reflexivity.
  - destruct (EventType_eqb (fst l) (type event)) eqn:E.
    + apply EventType_eqb_eq in E. exfalso. apply (H l); [now left | exact E].
    + apply IH. intros l' Hl'. apply H. now right.
Qed.

(** On a canvas wired by [initThreeScene], an event runs at most one
    handler: the one registered for its type. *)
Lemma fire_wired (ls : list Listener) (event : DomEvent) (w : World) :
  NoDup ls -> incl ls registry ->
  fire ls event w = w
  \/ exists h, In (type event, h) ls
               /\ fire ls event w = world_of (invoke h event w).
Proof.
  revert w. induction ls as [|l ls IH]; intros w Hn Hi.
  - now left.
  - inversion Hn as [|? ? Hl Hls]; subst.
    assert (Hi' : incl ls registry) by (intros x Hx; apply Hi; now right).
    destruct (EventType_eqb (fst l) (type event)) eqn:E.
    + right. exists (snd l). apply EventType_eqb_eq in E.
      split; [left; rewrite <- E; now destruct l|].
      unfold fire. cbn [fold_left].
      apply EventType_eqb_eq in E. rewrite E. apply EventType_eqb_eq in E.
      apply fire_skip. intros l' Hl' E'.
      apply Hl. rewrite (registry_functional l l'); auto.
      * apply Hi. now left.
      * congruence.
    + destruct (IH w Hls Hi') as [H | (h & Hh & H)].
      * left. unfold fire in *. cbn [fold_left]. now rewrite E.
      * right. exists h. split; [now right|].
        unfold fire in *. cbn [fold_left]. now rewrite E.
Qed.

(** ** What a handler does to the controls *)

Lemma invoke_frame (h : Handler) (event : DomEvent) (w : World) :
  let w' := world_of (invoke h event w) in
  clock (loop w') = clock (loop w)
  /\ canvasListeners (dom w') = canvasListeners (dom w)
  /\ windowListeners (dom w') = windowListeners (dom w)
  /\ (isUserInteracting (pointer w) = true ->
      isUserInteracting (pointer w') = true).
Proof.
  destruct h; open_handlers; cases; repeat split; auto.
Qed.

Lemma invoke_timers (h : Handler) (event : DomEvent) (w : World) (t : Timer) :
  In t (timers (loop (world_of (invoke h event w)))) ->
  In t (timers (loop w))
  \/ (due t = (clock (loop w) + 2000)%nat /\ schedules h event = true).
Proof.
  destruct h; open_handlers; cases; cbn [schedules]; intros Hin;
    repeat match goal with
    | H : In _ (_ ++ _) |- _ => apply in_app_or in H; destruct H as [H|H]
    | H : In _ (filter _ _) |- _ => apply filter_In in H; destruct H as [H _]
    | H : In _ [_] |- _ => destruct H as [H|[]]; subst
    end;
    auto;
    right; (split; [reflexivity|]);
    repeat match goal with
    | H : negb ?a && negb ?b = false |- ?a || ?b = true =>
        destruct a, b; try reflexivity; discriminate H
    end; reflexivity.
Qed.

Lemma clearTimeout_timers (h : option nat) (w : World) :
  timers (loop (clearTimeout h w)) = cleared h (timers (loop w)).
Proof. destruct h; reflexivity. Qed.

Lemma clearTimeout_rig (h : option nat) (w : World) :
  rig (clearTimeout h w) = rig w.
Proof. destruct h; reflexivity. Qed.

Lemma clearTimeout_pointer (h : option nat) (w : World) :
  pointer (clearTimeout h w) = pointer w.
Proof. destruct h; reflexivity. Qed.

Lemma clearTimeout_stage (h : option nat) (w : World) :
  stage (clearTimeout h w) = stage w.
Proof. destruct h; reflexivity. Qed.

Lemma clearTimeout_dom (h : option nat) (w : World) :
  dom (clearTimeout h w) = dom w.
Proof. destruct h; reflexivity. Qed.

Lemma clearTimeout_clock (h : option nat) (w : World) :
  clock (loop (clearTimeout h w)) = clock (loop w).
Proof. destruct h; reflexivity. Qed.

Lemma clearTimeout_nextHandle (h : option nat) (w : World) :
  nextHandle (loop (clearTimeout h w)) = nextHandle (loop w).
Proof. destruct h; reflexivity. Qed.

Create Rewrite HintDb cleared.

#[local] Hint Rewrite clearTimeout_timers clearTimeout_rig clearTimeout_pointer
  clearTimeout_stage clearTimeout_dom clearTimeout_clock
  clearTimeout_nextHandle : cleared.

Lemma cleared_single (h : option nat) (ts : list Timer) :
  ts = [] \/ (exists t, ts = [t] /\ h = Some (handle t)) ->
  cleared h ts = [].
Proof.
  intros [-> | (t & -> & ->)].
  - destruct h; reflexivity.
  - cbn [cleared filter]. rewrite Nat.eqb_refl. reflexivity.
Qed.

Lemma invoke_steady (h : Handler) (event : DomEvent) (w : World) :
  single (controls w) -> drag_ok (controls w) -> handler_calm h event w ->
  single (controls (world_of (invoke h event w)))
  /\ drag_ok (controls (world_of (invoke h event w))).
Proof.
  intros Hs Hd Hg.
  pose proof (cleared_single _ _ Hs) as Hclr. cbn [controls c_timeout c_timers] in Hclr.
  unfold single, drag_ok, controls in *.
  cbn [c_timers c_timeout c_dragging c_interacting] in *.
  destruct h; unfold invoke.
  - (* onMouseDown *)
    unfold onMouseDown. fields. autorewrite with cleared. fields.
    rewrite Hclr. split; auto.
  - (* onMouseMove *)
    unfold onMouseMove, updateCameraPosition. cases; auto.
  - (* onMouseUp *)
    unfold onMouseUp, setTimeout. fields. autorewrite with cleared. fields.
    rewrite Hclr. split; [|discriminate].
    right. eexists. split; reflexivity.
  - (* onWheel *)
    unfold onWheel, setTimeout.
    destruct (negb (ctrlKey event) && negb (metaKey event)) eqn:Em; fields;
      [auto|].
    autorewrite with cleared. fields. rewrite Hclr.
    split; [right; eexists; split; reflexivity|].
    intros Hdrag. cbn [handler_calm] in Hg. rewrite Hg in Hdrag; [discriminate|].
    destruct (ctrlKey event), (metaKey event); try reflexivity; discriminate Em.
  - (* onTouchStart *)
    unfold onTouchStart. cases; auto.
    autorewrite with cleared. fields. rewrite Hclr. split; auto.
  - (* onTouchMove *)
    unfold onTouchMove, updateCameraPosition. cases; auto.
  - (* onTouchEnd *)
    unfold onTouchEnd, setTimeout. fields. cbn [handler_calm] in Hg.
    rewrite Hg. split; [|discriminate].
    right. eexists. split; reflexivity.
  - (* onWindowResize *)
    unfold onWindowResize. cases; auto.
Qed.

(** ** Timers falling due *)

Lemma cooldowns_fold (l : list Timer) (w : World) :
  fold_left (fun (w : World) (_ : Timer) => cooldown w) l w
  = match l with [] => w | _ :: _ => cooldown w end.
Proof.
  revert w. induction l as [|x l IH]; intros w; [reflexivity|].
  cbn [fold_left]. rewrite IH. destruct l; reflexivity.
Qed.

Lemma elapse_effect (ms : nat) (w : World) :
  let now := (clock (loop w) + ms)%nat in
  timers (loop (elapse ms w))
  = filter (fun t => negb (isDue now t)) (timers (loop w))
  /\ clock (loop (elapse ms w)) = now
  /\ isDragging (pointer (elapse ms w)) = isDragging (pointer w)
  /\ interactionTimeout (pointer (elapse ms w)) = interactionTimeout (pointer w)
  /\ isUserInteracting (pointer (elapse ms w))
     = match filter (isDue now) (timers (loop w)) with
       | [] => isUserInteracting (pointer w)
       | _ :: _ => false
       end
  /\ dom (elapse ms w) = dom w
  /\ rig (elapse ms w) = rig w.
Proof.
  unfold elapse. rewrite cooldowns_fold.
  destruct (filter (isDue (clock (loop w) + ms)) (timers (loop w)));
    repeat split.
Qed.

Lemma elapse_steady (ms : nat) (w : World) :
  single (controls w) -> drag_ok (controls w) ->
  single (controls (elapse ms w)) /\ drag_ok (controls (elapse ms w)).
Proof.
  intros Hs Hd.
  destruct (elapse_effect ms w) as (Ht & _ & Hdr & Hto & Hin & _ & _).
  unfold single, drag_ok, controls in *.
  cbn [c_timers c_timeout c_dragging c_interacting] in *.
  rewrite Ht, Hdr, Hto, Hin. split.
  - destruct Hs as [E | (t & E & Eh)].
    + left. rewrite E. reflexivity.
    + rewrite E. cbn [filter]. destruct (negb _); [right|left; reflexivity].
      exists t. now split.
  - intros Hdrag. destruct (Hd Hdrag) as [Hi E]. rewrite E. cbn [filter].
    now split.
Qed.

Lemma removeListeners_wired (old ls : list Listener) :
  NoDup ls -> incl ls registry ->
  NoDup (fold_left (fun ls l => removeListener l ls) old ls)
  /\ incl (fold_left (fun ls l => removeListener l ls) old ls) registry.
Proof.
  revert ls. induction old as [|l old IH]; intros ls Hn Hi; cbn [fold_left].
  - now split.
  - destruct (removeListener_wired l ls registry) as [H1 H2].
    apply IH; auto.
Qed.

(** ** The invariants along a run *)

Lemma fire_listeners (ls : list Listener) (event : DomEvent) (w : World) :
  canvasListeners (dom (fire ls event w)) = canvasListeners (dom w)
  /\ windowListeners (dom (fire ls event w)) = windowListeners (dom w)
  /\ clock (loop (fire ls event w)) = clock (loop w)
  /\ (isUserInteracting (pointer w) = true ->
      isUserInteracting (pointer (fire ls event w)) = true).
Proof.
  unfold fire.
  apply (fold_left_keeps (fun w' =>
    canvasListeners (dom w') = canvasListeners (dom w)
    /\ windowListeners (dom w') = windowListeners (dom w)
    /\ clock (loop w') = clock (loop w)
    /\ (isUserInteracting (pointer w) = true ->
        isUserInteracting (pointer w') = true))).
  - intros w' l (H1 & H2 & H3 & H4).
    destruct (EventType_eqb (fst l) (type event)); [|auto].
    destruct (invoke_frame (snd l) event w') as (F1 & F2 & F3 & F4).
    repeat split; try congruence. auto.
  - auto.
Qed.


Lemma fire_controls_listeners (ls : list Listener) (event : DomEvent) (w : World) :
  c_canvasListeners (controls (fire ls event w)) = c_canvasListeners (controls w)
  /\ c_windowListeners (controls (fire ls event w)) = c_windowListeners (controls w).
Proof.
  destruct (fire_listeners ls event w) as (H1 & H2 & _). now split.
Qed.

Lemma wired_same (c c' : Controls) :
  c_canvasListeners c' = c_canvasListeners c ->
  c_windowListeners c' = c_windowListeners c ->
  wired c -> wired c'.
Proof. unfold wired. intros -> ->. auto. Qed.

Lemma step_wired (w : World) (e : Event) :
  wired (controls w) -> wired (controls (step w e)).
Proof.
  intros H.
  destruct e; cbn [step].
  - destruct (canvas (dom w)) as [[[|] ?]|]; auto.
    destruct (fire_controls_listeners (canvasListeners (dom w)) event w).
    eapply wired_same; eauto.
  - destruct (fire_controls_listeners
                (windowListeners (dom (in_dom (set_viewport wd ht) w)))
                resizeEvent (in_dom (set_viewport wd ht) w)).
    eapply wired_same; eauto.
  - now rewrite frame_controls.
  - destruct (elapse_effect ms w) as (_ & _ & _ & _ & _ & E & _).
    eapply wired_same; [| |exact H]; cbn [controls c_canvasListeners c_windowListeners];
      now rewrite E.
  - destruct (loads (loop w)); auto.
    now rewrite onPlyLoaded_controls.
  - destruct (loads (loop w)); auto.
    now rewrite createFallbackPointCloud_controls.
  - destruct (canvas (dom w)) eqn:Ec.
    + destruct (initThreeScene_controls w) as [_ E]; [congruence|].
      rewrite E. destruct H as (Hn & Hi & Hw).
      cbn [controls c_canvasListeners c_windowListeners] in *.
      destruct (addListeners_wired registry (canvasListeners (dom w)))
        as [H1 H2]; auto using incl_refl.
      unfold wired. cbn [c_canvasListeners c_windowListeners].
      repeat split; auto.
      intros x Hx. apply addListener_In in Hx.
      destruct Hx as [-> | Hx]; [now left | now apply Hw].
    + rewrite initThreeScene_absent by exact Ec. auto.
  - rewrite destroyThreeScene_controls. destruct H as (Hn & Hi & Hw).
    cbn [controls c_canvasListeners c_windowListeners] in *.
    unfold wired. cbn [c_canvasListeners c_windowListeners].
    split; [|split].
    + destruct (canvas (dom w)); auto.
      now apply removeListeners_wired.
    + destruct (canvas (dom w)); auto.
      now apply removeListeners_wired.
    + now apply (removeListener_wired (resize, h_onWindowResize)).
  - now rewrite setOrbitEnabled_controls.
Qed.

Lemma calm_handler (h : Handler) (event : DomEvent) (w : World) :
  In (type event, h) registry -> calm w (Input event) = true ->
  handler_calm h event w.
Proof.
  intros Hin Hc. cbn [calm] in Hc. unfold registry in Hin. simpl in Hin.
  repeat (destruct Hin as [Hin|Hin];
          [injection Hin as Ht <-; rewrite <- Ht in Hc; cbn [handler_calm]|]);
    try exact I; try contradiction.
  - intros Hm. rewrite Hm in Hc. cbn [negb orb] in Hc.
    now apply negb_true_iff in Hc.
  - destruct (timers (loop w)); [reflexivity | discriminate Hc].
Qed.

Lemma steady_same (c c' : Controls) :
  c_interacting c' = c_interacting c -> c_dragging c' = c_dragging c ->
  c_timeout c' = c_timeout c -> c_timers c' = c_timers c ->
  single c /\ drag_ok c -> single c' /\ drag_ok c'.
Proof. unfold single, drag_ok. intros -> -> -> ->. auto. Qed.

Lemma fire_resize_controls (ls : list Listener) (event : DomEvent) (w : World) :
  incl ls [(resize, h_onWindowResize)] ->
  controls (fire ls event w) = controls w.
Proof.
  intros Hi. unfold fire.
  apply (fold_left_keeps_in (fun w' => controls w' = controls w));
    [|reflexivity].
  intros w' l Hl E. destruct (EventType_eqb (fst l) (type event)); [|exact E].
  apply Hi in Hl. destruct Hl as [<- | []]. cbn [snd invoke].
  now rewrite onWindowResize_controls.
Qed.

Lemma step_steady (w : World) (e : Event) :
  wired (controls w) -> calm w e = true ->
  single (controls w) /\ drag_ok (controls w) ->
  single (controls (step w e)) /\ drag_ok (controls (step w e)).
Proof.
  intros (Hn & Hi & Hw) Hc H.
  cbn [controls c_canvasListeners c_windowListeners] in Hn, Hi, Hw.
  destruct e; cbn [step].
  - destruct (canvas (dom w)) as [[[|] ?]|]; auto.
    destruct (fire_wired (canvasListeners (dom w)) event w Hn Hi)
      as [-> | (h & Hh & ->)]; [exact H|].
    destruct H as [Hs Hd]. apply invoke_steady; auto.
    apply calm_handler; auto.
  - rewrite fire_resize_controls; auto.
  - now rewrite frame_controls.
  - destruct H. now apply elapse_steady.
  - destruct (loads (loop w)); auto. now rewrite onPlyLoaded_controls.
  - destruct (loads (loop w)); auto.
    now rewrite createFallbackPointCloud_controls.
  - destruct (canvas (dom w)) eqn:Ec.
    + destruct (initThreeScene_controls w) as [_ E]; [congruence|].
      rewrite E. revert H. apply steady_same; reflexivity.
    + rewrite initThreeScene_absent by exact Ec. auto.
  - rewrite destroyThreeScene_controls. destruct H as [Hs Hd].
    pose proof (cleared_single _ _ Hs) as Hclr.
    cbn [controls c_timers c_timeout] in Hclr.
    unfold single, drag_ok in *.
    cbn [controls c_timers c_timeout c_dragging c_interacting] in *.
    rewrite Hclr. split; [now left|].
    intros Hdr. destruct (Hd Hdr). now split.
  - now rewrite setOrbitEnabled_controls.
Qed.

Lemma run_wired (es : list Event) (w : World) :
  wired (controls w) -> wired (controls (run w es)).
Proof.
  unfold run. apply (fold_left_keeps (fun w => wired (controls w))).
  intros w' e. apply step_wired.
Qed.

Lemma run_steady (es : list Event) :
  forall w, wired (controls w) -> calm_run w es = true ->
  single (controls w) /\ drag_ok (controls w) ->
  single (controls (run w es)) /\ drag_ok (controls (run w es)).
Proof.
  induction es as [|e es IH]; intros w Hw Hc H; [exact H|].
  cbn [calm_run] in Hc. apply andb_true_iff in Hc. destruct Hc as [Hc Hr].
  cbn [run fold_left]. apply IH; auto.
  - now apply step_wired.
  - now apply step_steady.
Qed.

Lemma initial_wired c rnd wd ht dpr :
  wired (controls (initial c rnd wd ht dpr)).
Proof.
  unfold wired. cbn. split; [constructor | split; intros x []].
Qed.

Lemma initial_steady c rnd wd ht dpr :
  single (controls (initial c rnd wd ht dpr))
  /\ drag_ok (controls (initial c rnd wd ht dpr)).
Proof.
  unfold single, drag_ok. cbn. split; [now left | discriminate].
Qed.

(** ** When [isUserInteracting] falls, and where timeouts come from *)

Lemma step_interacting_falls (w : World) (e : Event) :
  isUserInteracting (pointer w) = true ->
  isUserInteracting (pointer (step w e)) = false ->
  exists (ms : nat) (t : Timer),
    e = Elapse ms /\ In t (timers (loop w))
    /\ (due t <= clock (loop w) + ms)%nat.
Proof.
  intros Ht Hf.
  assert (Hsame : forall w', controls w' = controls w ->
                    isUserInteracting (pointer w') = false -> False).
  { intros w' E F. apply (f_equal c_interacting) in E.
    cbn [controls c_interacting] in E. congruence. }
  destruct e; cbn [step] in Hf.
  - exfalso. destruct (canvas (dom w)) as [[[|] ?]|]; try congruence.
    destruct (fire_listeners (canvasListeners (dom w)) event w)
      as (_ & _ & _ & H). rewrite (H Ht) in Hf. discriminate.
  - exfalso.
    destruct (fire_listeners
                (windowListeners (dom (in_dom (set_viewport wd ht) w)))
                resizeEvent (in_dom (set_viewport wd ht) w))
      as (_ & _ & _ & H). rewrite (H Ht) in Hf. discriminate.
  - exfalso. exact (Hsame _ (frame_controls w) Hf).
  - destruct (elapse_effect ms w) as (_ & _ & _ & _ & Hi & _).
    rewrite Hi in Hf.
    destruct (filter (isDue (clock (loop w) + ms)) (timers (loop w)))
      as [|t l] eqn:E; [congruence|].
    assert (Hin : In t (filter (isDue (clock (loop w) + ms)) (timers (loop w))))
      by (rewrite E; now left).
    apply filter_In in Hin. destruct Hin as [Hin Hdue].
    exists ms, t. repeat split; auto.
    unfold isDue in Hdue. now apply Nat.leb_le in Hdue.
  - exfalso. destruct (loads (loop w)); [congruence|].
    exact (Hsame _ (onPlyLoaded_controls p (in_loop (set_loads n) w)) Hf).
  - exfalso. destruct (loads (loop w)); [congruence|].
    exact (Hsame _ (createFallbackPointCloud_controls
                      (in_loop (set_loads n) w)) Hf).
  - exfalso. destruct (canvas (dom w)) eqn:Ec.
    + destruct (initThreeScene_controls w) as [_ E]; [congruence|].
      apply (f_equal c_interacting) in E.
      cbn [controls c_interacting] in E. congruence.
    + rewrite initThreeScene_absent in Hf by exact Ec. cbn in Hf. congruence.
  - exfalso. pose proof (destroyThreeScene_controls w) as E.
    apply (f_equal c_interacting) in E.
    cbn [controls c_interacting] in E. congruence.
  - exfalso. exact (Hsame _ (setOrbitEnabled_controls b w) Hf).
Qed.

Lemma registry_schedules (h : Handler) (event : DomEvent) :
  In (type event, h) registry -> schedules h event = true ->
  startsCooldown (Input event) = true.
Proof.
  intros Hin Hs. cbn [startsCooldown]. unfold registry in Hin. simpl in Hin.
  repeat (destruct Hin as [Hin|Hin];
          [injection Hin as Ht <-; rewrite <- Ht; cbn [schedules] in Hs|]);
    try contradiction; try discriminate Hs; auto.
Qed.

Lemma step_new_timer (w : World) (e : Event) (t : Timer) :
  wired (controls w) ->
  In t (timers (loop (step w e))) -> ~ In t (timers (loop w)) ->
  due t = (clock (loop w) + 2000)%nat /\ startsCooldown e = true.
Proof.
  intros (Hn & Hi & Hw) Hin Hnot.
  cbn [controls c_canvasListeners c_windowListeners] in Hn, Hi, Hw.
  assert (Hsame : forall w', controls w' = controls w ->
                    In t (timers (loop w')) -> False).
  { intros w' E F. apply (f_equal c_timers) in E.
    cbn [controls c_timers] in E. rewrite E in F. auto. }
  destruct e; cbn [step] in Hin.
  - destruct (canvas (dom w)) as [[[|] ?]|]; try contradiction.
    destruct (fire_wired (canvasListeners (dom w)) event w Hn Hi)
      as [E | (h & Hh & E)]; rewrite E in Hin; [contradiction|].
    apply invoke_timers in Hin. destruct Hin as [Hin | [Hd Hs]];
      [contradiction|].
    split; [exact Hd|]. apply (registry_schedules h); auto.
  - exfalso. eapply Hsame; [|exact Hin].
    rewrite fire_resize_controls; auto.
  - exfalso. exact (Hsame _ (frame_controls w) Hin).
  - exfalso. destruct (elapse_effect ms w) as (E & _). rewrite E in Hin.
    apply filter_In in Hin. now destruct Hin.
  - exfalso. destruct (loads (loop w)); [contradiction|].
    exact (Hsame _ (onPlyLoaded_controls p (in_loop (set_loads n) w)) Hin).
  - exfalso. destruct (loads (loop w)); [contradiction|].
    exact (Hsame _ (createFallbackPointCloud_controls
                      (in_loop (set_loads n) w)) Hin).
  - exfalso. destruct (canvas (dom w)) eqn:Ec.
    + destruct (initThreeScene_controls w) as [_ E]; [congruence|].
      apply (f_equal c_timers) in E. cbn [controls c_timers] in E.
      rewrite E in Hin. contradiction.
    + rewrite initThreeScene_absent in Hin by exact Ec. contradiction.
  - exfalso. pose proof (destroyThreeScene_controls w) as E.
    apply (f_equal c_timers) in E. cbn [controls c_timers] in E.
    rewrite E in Hin. destruct (interactionTimeout (pointer w));
      cbn [cleared] in Hin; [|contradiction].
    apply filter_In in Hin. now destruct Hin.
  - exfalso. exact (Hsame _ (setOrbitEnabled_controls b w) Hin).
Qed.

(** X19.  Away from the two situations that [calm] excludes the queue is
    single-slot: at most one timeout is pending, and it is the one that
    [interactionTimeout] names. *)
Lemma run_single_slot c rnd wd ht dpr (es : list Event) :
  calm_run (initial c rnd wd ht dpr) es = true ->
  (length (timers (loop (run (initial c rnd wd ht dpr) es))) <= 1)%nat.
Proof.
  intros Hc.
  destruct (run_steady es (initial c rnd wd ht dpr)) as [Hs _];
    auto using initial_wired, initial_steady.
  unfold single in Hs. cbn [controls c_timers c_timeout] in Hs.
  destruct Hs as [-> | (t & -> & _)]; cbn [length]; lia.
Qed.

(** ** Single-slot cooldown: where the touch path departs from the mouse path *)

(** C4.  After a two-finger tap on the page of [demoPage] two cooldown
    timeouts are pending at once: [onTouchEnd] schedules a timeout without
    cancelling the one that [interactionTimeout] holds, which [onMouseUp]
    does (two releases by mouse leave and mouse up leave one).  A touch
    start then cancels only the later of the two; the earlier one fires
    during the drag and clears [isUserInteracting] while [isDragging]
    holds. *)
Theorem touch_end_stacks_cooldowns :
  let w := run demoPage twoFingerTap in
  length (timers (loop w)) = 2%nat
  /\ length (timers (loop (run demoPage
       [Input (mouseAt mouseleave 0 0); Input (mouseAt mouseup 0 0)]))) = 1%nat
  /\ let w' := step w (Input (touchAt touchstart [(10, 10)])) in
     length (timers (loop w')) = 1%nat
     /\ isDragging (pointer w') = true
     /\ isDragging (pointer (step w' (Elapse 2000))) = true
     /\ isUserInteracting (pointer (step w' (Elapse 2000))) = false.
Proof. vm_compute. repeat split. Qed.

(** ** Dragging and interacting *)

(** C5, as the code has it.  (1) Along every sequence of events in which no
    touch end arrives while a timeout is pending and no wheel event with
    Ctrl or Meta held arrives during a drag, [isDragging] implies
    [isUserInteracting], and no timeout is pending during a drag.
    (2) [isUserInteracting] goes from true to false only when time passes
    and a pending timeout falls due.  (3) Every timeout is scheduled 2000 ms
    ahead, by a release (mouse up, mouse leave, touch end) or by a wheel
    event with Ctrl or Meta held. *)
Theorem cooldown_discipline :
  (forall c rnd wd ht dpr (es : list Event),
     calm_run (initial c rnd wd ht dpr) es = true ->
     let w := run (initial c rnd wd ht dpr) es in
     isDragging (pointer w) = true ->
     isUserInteracting (pointer w) = true /\ timers (loop w) = [])
  /\ (forall (w : World) (e : Event),
        isUserInteracting (pointer w) = true ->
        isUserInteracting (pointer (step w e)) = false ->
        exists (ms : nat) (t : Timer),
          e = Elapse ms /\ In t (timers (loop w))
          /\ (due t <= clock (loop w) + ms)%nat)
  /\ (forall c rnd wd ht dpr (es : list Event) (e : Event) (t : Timer),
        let w := run (initial c rnd wd ht dpr) es in
        In t (timers (loop (step w e))) -> ~ In t (timers (loop w)) ->
        due t = (clock (loop w) + 2000)%nat /\ startsCooldown e = true).
Proof.
  split; [|split].
  - intros c rnd wd ht dpr es Hc w Hd.
    destruct (run_steady es (initial c rnd wd ht dpr)) as [_ H];
      auto using initial_wired, initial_steady.
  - exact step_interacting_falls.
  - intros c rnd wd ht dpr es e t w. apply step_new_timer.
    apply run_wired, initial_wired.
Qed.

Lemma cooldown_discipline_witness :
  let w := run demoStart
             [CallInit; Input (mouseAt mousedown 0 0);
              Input (mouseAt mousemove 100 0)] in
  isUserInteracting (pointer w) = true /\ timers (loop w) = [].
Proof.
  destruct cooldown_discipline as (H & _ & _).
  apply (H (Some demoCanvas) (fun _ => 0.5) 1920 1080 1
           [CallInit; Input (mouseAt mousedown 0 0);
            Input (mouseAt mousemove 100 0)]).
  - vm_compute. reflexivity.
  - vm_compute. reflexivity.
Defined.

(** C5 as stated fails at the wheel: a cooldown scheduled by a wheel event
    clears [isUserInteracting] although no release has ever occurred. *)
Lemma cooldown_without_release :
  ~ (forall (es : list Event) (e : Event),
       let w := run demoStart es in
       (isDragging (pointer w) = true -> isUserInteracting (pointer w) = true)
       /\ (isUserInteracting (pointer w) = true ->
           isUserInteracting (pointer (step w e)) = false ->
           exists r : Event, In r es /\ isRelease r = true)).
Proof.
  intros H.
  destruct (H [CallInit; Input (wheelBy true false 100)] (Elapse 2000))
    as [_ H2].
  destruct H2 as (r & Hin & Hr).
  - vm_compute. reflexivity.
  - vm_compute. reflexivity.
  - destruct Hin as [<- | [<- | []]]; discriminate Hr.
Qed.

(** The two ways in which a drag can lose [isUserInteracting]: the stale
    timeout of a two-finger tap, and a wheel cooldown started mid-drag. *)
Lemma drag_loses_interacting :
  (let w := run demoPage (twoFingerTap
              ++ [Input (touchAt touchstart [(10, 10)]); Elapse 2000]) in
   isDragging (pointer w) = true /\ isUserInteracting (pointer w) = false)
  /\ (let w := run demoPage
                 [Input (mouseAt mousedown 0 0);
                  Input (wheelBy true false 100); Elapse 2000] in
      isDragging (pointer w) = true /\ isUserInteracting (pointer w) = false).
Proof. vm_compute. repeat split. Qed.

(** ** A page without the canvas *)

Lemma destroyThreeScene_untouched (w : World) :
  untouched w -> destroyThreeScene w = Done w.
Proof.
  intros (Hs & _ & Hr & Ha & _ & _ & Ht & Hc & Hw).
  unfold destroyThreeScene. rewrite Ha, Ht. cbn [clearTimeout].
  unfold canvas_removeEventListener, window_removeEventListener.
  destruct w as [r p s d l]. destruct d as [cv cl wl cd iw ih dpr].
  cbn in *. subst. destruct cv; cbn; rewrite Hs; cbn; rewrite Hr; reflexivity.
Qed.

Lemma frame_idle (w : World) : frameRequests (loop w) = [] -> frame w = w.
Proof.
  intros H. unfold frame. rewrite H. cbn [fold_left].
  destruct w as [r p s d l]. destruct l. cbn in *. now subst.
Qed.

(** C9.  Without the canvas element [initThreeScene] returns at once and
    changes nothing: on a page where nothing has been set up, no scene, no
    camera and no renderer exist afterwards, no frame is requested (a
    display refresh runs nothing), no listener is registered (input events
    and resizes run nothing), and [destroyThreeScene] afterwards returns
    without throwing and changes nothing. *)
Theorem initThreeScene_without_canvas (w : World) :
  canvas (dom w) = None ->
  initThreeScene w = Done w
  /\ (untouched w ->
      untouched (world_of (initThreeScene w))
      /\ step (world_of (initThreeScene w)) Frame = w
      /\ (forall event, step (world_of (initThreeScene w)) (Input event) = w)
      /\ destroyThreeScene (world_of (initThreeScene w)) = Done w
      /\ run w [CallInit; CallDestroy] = w).
Proof.
  intros Hc. rewrite (initThreeScene_absent w Hc). split; [reflexivity|].
  intros Hu. cbn [world_of].
  pose proof (destroyThreeScene_untouched w Hu) as Hd.
  pose proof Hu as (_ & _ & _ & _ & Hf & _).
  repeat split; try apply Hu.
  - cbn [step]. now apply frame_idle.
  - intros event. cbn [step]. now rewrite Hc.
  - exact Hd.
  - cbn [run fold_left step]. rewrite (initThreeScene_absent w Hc).
    cbn [world_of]. now rewrite Hd.
Qed.

Lemma initThreeScene_without_canvas_witness :
  initThreeScene (initial None (fun _ => 0.5) 1920 1080 1)
  = Done (initial None (fun _ => 0.5) 1920 1080 1)
  /\ destroyThreeScene (initial None (fun _ => 0.5) 1920 1080 1)
     = Done (initial None (fun _ => 0.5) 1920 1080 1).
Proof.
  destruct (initThreeScene_without_canvas
              (initial None (fun _ => 0.5) 1920 1080 1) eq_refl) as [H1 H2].
  split; [exact H1|].
  destruct H2 as (_ & _ & _ & H & _).
  - unfold untouched. cbn. repeat split.
  - rewrite H1 in H. exact H.
Defined.

(** ** Switching the orbit off *)

Lemma setOrbitEnabled_effect (b : bool) (w : World) :
  let w' := world_of (setOrbitEnabled b w) in
  returns (setOrbitEnabled b w) = true
  /\ orbitEnabled (pointer w') = b
  /\ rig w' = rig w /\ stage w' = stage w /\ loop w' = loop w
  /\ isUserInteracting (pointer w') = isUserInteracting (pointer w)
  /\ isDragging (pointer w') = isDragging (pointer w)
  /\ interactionTimeout (pointer w') = interactionTimeout (pointer w)
  /\ previousMouseX (pointer w') = previousMouseX (pointer w)
  /\ previousMouseY (pointer w') = previousMouseY (pointer w)
  /\ canvasListeners (dom w') = canvasListeners (dom w)
  /\ windowListeners (dom w') = windowListeners (dom w)
  /\ canvas (dom w')
     = match canvas (dom w) with
       | Some _ => Some {| pointerEvents := if b then pe_auto else pe_none;
                           cursor := if b then cur_grab else cur_default |}
       | None => None
       end.
Proof.
  unfold setOrbitEnabled. cases; repeat split; auto.
Qed.








(** ** The fallback point cloud *)

Lemma numPoints_10000 : Z.of_nat numPoints = 10000%Z.
Proof. vm_compute. reflexivity. Qed.

Lemma fallbackLoop_arrays (n : nat) :
  forall ps cs w,
    fst (fst (fallbackLoop n ps cs w))
    = ps ++ fallbackPoints (draws (loop w)) (drawn (loop w)) n
    /\ length (snd (fst (fallbackLoop n ps cs w))) = (length cs + 3 * n)%nat.
Proof.
  induction n as [|n IH]; intros ps cs w.
  - cbn. rewrite app_nil_r. split; [reflexivity | lia].
  - cbn [fallbackLoop fallbackPoints]. unfold Math_random. fields.
    match goal with |- context [fallbackLoop n ?a ?b ?c] =>
      destruct (IH a b c) as [H1 H2]
    end.
    rewrite H1, H2. fields. split.
    + rewrite <- app_assoc. reflexivity.
    + rewrite length_app. cbn [length]. lia.
Qed.

Lemma fallbackPoints_length (rnd : nat -> R) (n : nat) :
  forall k, length (fallbackPoints rnd k n) = (3 * n)%nat.
Proof.
  induction n as [|n IH]; intros k; [reflexivity|].
  cbn [fallbackPoints fallbackPoint app length]. rewrite IH. lia.
Qed.

Lemma fallbackPoints_at (rnd : nat -> R) (n : nat) :
  forall k i, (i < n)%nat ->
    pointAt (fallbackPoints rnd k n) i
    = {| vx := cos (rnd (k + 3 * i)%nat * PI * 2)
               * (5 + rnd (k + 3 * i + 1)%nat * 25);
         vy := (rnd (k + 3 * i + 2)%nat - 0.5) * 20;
         vz := sin (rnd (k + 3 * i)%nat * PI * 2)
               * (5 + rnd (k + 3 * i + 1)%nat * 25) |}.
Proof.
  induction n as [|n IH]; intros k i Hi; [lia|].
  destruct i as [|i].
  - cbn [fallbackPoints fallbackPoint app]. unfold pointAt.
    replace (k + 3 * 0)%nat with k by lia.
    replace (k + 1)%nat with (S k) by lia.
    replace (k + 2)%nat with (S (S k)) by lia.
    reflexivity.
  - specialize (IH (S (S (S k))) i ltac:(lia)).
    unfold pointAt in *.
    cbn [fallbackPoints fallbackPoint app].
    replace (3 * S i)%nat with (S (S (S (3 * i)))) by lia.
    replace (S (S (S (3 * i))) + 1)%nat with (S (S (S (3 * i + 1)))) by lia.
    replace (S (S (S (3 * i))) + 2)%nat with (S (S (S (3 * i + 2)))) by lia.
    cbn [nth]. rewrite IH.
    replace (S (S (S k)) + 3 * i)%nat with (k + S (S (S (3 * i))))%nat by lia.
    replace (k + S (S (S (3 * i))) + 1)%nat
      with (k + S (S (S (3 * i + 1))))%nat by lia.
    replace (k + S (S (S (3 * i))) + 2)%nat
      with (k + S (S (S (3 * i + 2))))%nat by lia.
    replace (k + S (S (S (3 * i + 1))))%nat
      with (k + S (S (S (3 * i))) + 1)%nat by lia.
    replace (k + S (S (S (3 * i + 2))))%nat
      with (k + S (S (S (3 * i))) + 2)%nat by lia.
    reflexivity.
Qed.

Lemma ring_distance (a r : R) :
  0 <= r -> sqrt ((cos a * r) * (cos a * r) + (sin a * r) * (sin a * r)) = r.
Proof.
  intros Hr.
  replace ((cos a * r) * (cos a * r) + (sin a * r) * (sin a * r))
    with (r * r).
  - now apply sqrt_square.
  - pose proof (sin2_cos2 a) as H. unfold Rsqr in H. nra.
Qed.

Lemma createFallbackPointCloud_cloud (w : World) :
  exists p : Points,
    cloud (world_of (createFallbackPointCloud w)) = Some p
    /\ positions p
       = fallbackPoints (draws (loop w)) (drawn (loop w)) numPoints
    /\ length (colors p) = (3 * numPoints)%nat
    /\ (scene (stage w) <> None ->
        returns (createFallbackPointCloud w) = true).
Proof.
  unfold createFallbackPointCloud. generalize numPoints. intros n.
  destruct (fallbackLoop_arrays n [] [] w) as [H1 H2].
  destruct (fallbackLoop n [] [] w) as [[ps cs] w1] eqn:E.
  pose proof (fallbackLoop_world n [] [] w) as Hw. rewrite E in Hw.
  cbn [fst snd] in H1, H2, Hw. subst w1.
  eexists. unfold newPoints, scene_add, cloud. fields.
  split; [|split; [|split]].
  - destruct (scene (stage w)); fields; cbn [nth_error];
      rewrite nth_error_app2 by lia; rewrite Nat.sub_diag; reflexivity.
  - cbn [positions]. exact H1.
  - cbn [colors]. rewrite H2. reflexivity.
  - intros Hs. destruct (scene (stage w)); [reflexivity | congruence].
Qed.

(** C8.  The fallback generator stores in [pointCloud] a cloud of exactly
    10000 points (30000 coordinates and as many colour components).
    Whatever numbers in [0, 1) the random source returns, each point lies at
    distance radius = 5 + r * 25 from the y axis, r being the second of the
    three numbers drawn for that point, and 5 <= radius <= 30.  The
    generator returns normally when the scene exists, and it is what runs
    when the loader reports a failure. *)
Theorem fallback_points_in_ring (w : World) :
  (forall k : nat, 0 <= draws (loop w) k < 1) ->
  exists p : Points,
    cloud (world_of (createFallbackPointCloud w)) = Some p
    /\ Z.of_nat (length (positions p)) = (3 * 10000)%Z
    /\ length (colors p) = length (positions p)
    /\ (forall i : nat, (Z.of_nat i < 10000)%Z ->
          let radius :=
            5 + draws (loop w) (drawn (loop w) + 3 * i + 1)%nat * 25 in
          axisDistance (pointAt (positions p) i) = radius
          /\ 5 <= radius <= 30)
    /\ (scene (stage w) <> None ->
        returns (createFallbackPointCloud w) = true)
    /\ (forall n : nat, loads (loop w) = S n ->
          step w PlyFailed
          = world_of (createFallbackPointCloud (in_loop (set_loads n) w))).
Proof.
  intros Hrnd.
  destruct (createFallbackPointCloud_cloud w) as (p & Hp & Hpos & Hcol & Hret).
  exists p. split; [exact Hp|].
  assert (Hlen : length (positions p) = (3 * numPoints)%nat)
    by (rewrite Hpos; apply fallbackPoints_length).
  repeat split.
  - rewrite Hlen, Nat2Z.inj_mul, numPoints_10000. reflexivity.
  - congruence.
  - rewrite Hpos, fallbackPoints_at
      by (apply Nat2Z.inj_lt; rewrite numPoints_10000; assumption).
    unfold axisDistance. cbn [vx vz].
    apply ring_distance.
    pose proof (Hrnd (drawn (loop w) + 3 * i + 1)%nat). lra.
  - pose proof (Hrnd (drawn (loop w) + 3 * i + 1)%nat). lra.
  - pose proof (Hrnd (drawn (loop w) + 3 * i + 1)%nat). lra.
  - exact Hret.
  - intros n Hn. cbn [step]. rewrite Hn. reflexivity.
Qed.

Lemma fallback_points_in_ring_witness :
  exists p : Points,
    cloud (world_of (createFallbackPointCloud demoPage)) = Some p
    /\ Z.of_nat (length (positions p)) = (3 * 10000)%Z
    /\ axisDistance (pointAt (positions p) 7) = 5 + 0.5 * 25.
Proof.
  destruct (fallback_points_in_ring demoPage) as (p & H1 & H2 & _ & H4 & _).
  - intros k. change (0 <= 0.5 < 1). lra.
  - exists p. split; [exact H1|]. split; [exact H2|].
    destruct (H4 7%nat ltac:(lia)) as [H _].
    exact H.
Defined.

(** ** Resizing *)

(** X1.  [onWindowResize], when the camera and the renderer exist, returns
    and writes the camera's aspect (innerWidth / innerHeight) and the
    renderer's size, nothing else; running it again changes nothing more.
    Without a camera it throws before writing anything; with a camera but
    no renderer it throws after the aspect has been written. *)
Theorem onWindowResize_effect (w : World) :
  (forall c r, camera (stage w) = Some c -> renderer (stage w) = Some r ->
     let w' := world_of (onWindowResize w) in
     returns (onWindowResize w) = true
     /\ camera (stage w')
        = Some (camera_setAspect (innerWidth (dom w) / innerHeight (dom w)) c)
     /\ renderer (stage w')
        = Some (renderer_setSize (innerWidth (dom w)) (innerHeight (dom w)) r)
     /\ rig w' = rig w /\ pointer w' = pointer w /\ dom w' = dom w
     /\ loop w' = loop w /\ scene (stage w') = scene (stage w)
     /\ pointCloud (stage w') = pointCloud (stage w)
     /\ heap (stage w') = heap (stage w)
     /\ onWindowResize w' = Done w')
  /\ (camera (stage w) = None -> onWindowResize w = Threw w)
  /\ (forall c, camera (stage w) = Some c -> renderer (stage w) = None ->
        returns (onWindowResize w) = false
        /\ camera (stage (world_of (onWindowResize w)))
           = Some (camera_setAspect
                     (innerWidth (dom w) / innerHeight (dom w)) c)).
Proof.
  split; [|split].
  - intros c r Hc Hr. unfold onWindowResize. rewrite Hc. fields. rewrite Hr.
    fields. repeat split.
  - intros Hc. unfold onWindowResize. now rewrite Hc.
  - intros c Hc Hr. unfold onWindowResize. rewrite Hc. fields. rewrite Hr.
    fields. split; reflexivity.
Qed.

Lemma onWindowResize_effect_witness :
  returns (onWindowResize demoPage) = true
  /\ onWindowResize (initial None (fun _ => 0.5) 1920 1080 1)
     = Threw (initial None (fun _ => 0.5) 1920 1080 1).
Proof.
  destruct (onWindowResize_effect demoPage) as (H1 & _ & _).
  destruct (onWindowResize_effect (initial None (fun _ => 0.5) 1920 1080 1))
    as (_ & H2 & _).
  split.
  - refine (proj1 (H1 _ _ _ _)); vm_compute; reflexivity.
  - apply H2. reflexivity.
Defined.

(** ** Toggling the orbit *)

(** X2.  Of two [setOrbitEnabled] calls in a row only the second counts: the
    state is the one the second call alone would have produced.  So the call
    is idempotent, and enabling after disabling gives the canvas pointer
    events and the grab cursor, whatever its cursor was before. *)
Theorem setOrbitEnabled_last_wins (a b : bool) (w : World) :
  setOrbitEnabled b (world_of (setOrbitEnabled a w)) = setOrbitEnabled b w
  /\ (forall st, canvas (dom w) = Some st ->
        canvas (dom (world_of (setOrbitEnabled true
                                 (world_of (setOrbitEnabled false w)))))
        = Some {| pointerEvents := pe_auto; cursor := cur_grab |}).
Proof.
  split.
  - unfold setOrbitEnabled. fields.
    destruct (canvas (dom w)) eqn:E; fields; rewrite ?E; reflexivity.
  - intros st Hc. unfold setOrbitEnabled. fields. rewrite Hc. fields.
    reflexivity.
Qed.

Lemma setOrbitEnabled_last_wins_witness :
  canvas (dom demoPage) = Some demoCanvas
  /\ canvas (dom (world_of (setOrbitEnabled true
                              (world_of (setOrbitEnabled false demoPage)))))
     = Some {| pointerEvents := pe_auto; cursor := cur_grab |}.
Proof.
  assert (Hc : canvas (dom demoPage) = Some demoCanvas)
    by (vm_compute; reflexivity).
  destruct (setOrbitEnabled_last_wins false true demoPage) as [_ H].
  split; [exact Hc | exact (H demoCanvas Hc)].
Defined.

(** ** Touch handlers beside mouse handlers *)

(** X3.  With exactly one touch point the touch handlers do what the mouse
    handlers do at the same coordinates: [onTouchMove] gives the very state
    [onMouseMove] gives, and [onTouchStart] the state of [onMouseDown] short
    of the 'canvas-dragging' class, which only the mouse path sets.  With no
    touch point or with several, both touch handlers leave the state as it
    is, drag or no drag. *)
Theorem touch_follows_mouse (x y : R) (w : World) :
  onTouchMove (touchAt touchmove [(x, y)]) w
  = onMouseMove (mouseAt mousemove x y) w
  /\ onMouseDown (mouseAt mousedown x y) w
     = Done (in_dom (set_canvasDragging true)
               (world_of (onTouchStart (touchAt touchstart [(x, y)]) w)))
  /\ returns (onTouchStart (touchAt touchstart [(x, y)]) w) = true
  /\ (forall ts : list (R * R), length ts <> 1%nat ->
        onTouchStart (touchAt touchstart ts) w = Done w
        /\ onTouchMove (touchAt touchmove ts) w = Done w).
Proof.
  repeat split.
  - destruct ts as [|[a b] [|q ts]]; cbn [length] in H; try congruence;
      reflexivity.
  - destruct ts as [|[a b] [|q ts]]; cbn [length] in H; try congruence;
      unfold onTouchMove; fields;
      destruct (isDragging (pointer w)); reflexivity.
Qed.

Lemma touch_follows_mouse_witness :
  onTouchStart (touchAt touchstart [(1, 2); (3, 4)]) demoPage = Done demoPage.
Proof.
  destruct (touch_follows_mouse 0 0 demoPage) as (_ & _ & _ & H).
  destruct (H [(1, 2); (3, 4)]) as [H1 _].
  - cbn [length]. lia.
  - exact H1.
Defined.

(** ** A drag along a path *)

Lemma onMouseMove_step (x y : R) (w : World) :
  isDragging (pointer w) = true -> camera (stage w) <> None ->
  let w' := world_of (onMouseMove (mouseAt mousemove x y) w) in
  isDragging (pointer w') = true /\ camera (stage w') <> None
  /\ cameraTheta (rig w')
     = cameraTheta (rig w) - (x - previousMouseX (pointer w)) * 0.005
  /\ cameraPhi (rig w')
     = Rmax 0.1 (Rmin 1.4
         (cameraPhi (rig w) + (y - previousMouseY (pointer w)) * 0.003))
  /\ lastSeen w' = (x, y).
Proof.
  intros Hd Hc. destruct (camera (stage w)) as [c|] eqn:Ec; [|congruence].
  cbn zeta. rewrite (onMouseMove_dragging _ c w Hd Ec).
  unfold dragged, lastSeen. fields. repeat split; auto. discriminate.
Qed.

Lemma last_cons {A : Type} (a d : A) (l : list A) :
  last (a :: l) d = last l a.
Proof.
  revert a d. induction l as [|b l IH]; intros a d; [reflexivity|].
  change (last (a :: b :: l) d) with (last (b :: l) d).
  rewrite !IH. reflexivity.
Qed.

(** X4.  During a drag the horizontal angle depends only on where the
    pointer is, not on the path it took: after any number of mouse moves,
    theta is its value at the start minus 0.005 times the horizontal
    distance between the last point and the point recorded at the start,
    and that last point is the one recorded.  The same holds for phi (with
    0.003) as long as no point of the path drives phi out of [0.1, 1.4]. *)
Theorem drag_depends_on_endpoint (pts : list (R * R)) (w : World) :
  isDragging (pointer w) = true -> camera (stage w) <> None ->
  let w' := dragThrough pts w in
  let stop := last pts (lastSeen w) in
  cameraTheta (rig w')
  = cameraTheta (rig w) - (fst stop - previousMouseX (pointer w)) * 0.005
  /\ lastSeen w' = stop
  /\ (Forall (fun p => 0.1 <= cameraPhi (rig w)
                           + (snd p - previousMouseY (pointer w)) * 0.003
                        <= 1.4) pts ->
      cameraPhi (rig w')
      = cameraPhi (rig w) + (snd stop - previousMouseY (pointer w)) * 0.003).
Proof.
  revert w. induction pts as [|[x y] pts IH]; intros w Hd Hc.
  - cbn. unfold lastSeen. cbn [fst snd]. repeat split; intros; lra.
  - destruct (onMouseMove_step x y w Hd Hc) as (Hd1 & Hc1 & Ht & Hp & Hl).
    set (w1 := world_of (onMouseMove (mouseAt mousemove x y) w)) in *.
    specialize (IH w1 Hd1 Hc1). cbn zeta in IH.
    destruct IH as (IHt & IHl & IHp).
    cbn zeta. rewrite last_cons.
    change (dragThrough ((x, y) :: pts) w) with (dragThrough pts w1).
    rewrite Hl in IHt, IHl, IHp.
    assert (Ex : previousMouseX (pointer w1) = x)
      by (apply (f_equal fst) in Hl; exact Hl).
    assert (Ey : previousMouseY (pointer w1) = y)
      by (apply (f_equal snd) in Hl; exact Hl).
    rewrite Ex in IHt. rewrite Ey in IHp.
    split; [|split].
    + rewrite IHt, Ht. lra.
    + exact IHl.
    + intros HF. apply Forall_cons_iff in HF. destruct HF as [Hxy Hrest].
      cbn [snd] in Hxy. rewrite clamp_inside in Hp by exact Hxy.
      rewrite IHp.
      * rewrite Hp. lra.
      * apply Forall_impl with (2 := Hrest). intros [a b] Hab.
        cbn [snd] in *. rewrite Hp. lra.
Qed.

Lemma drag_depends_on_endpoint_witness :
  cameraTheta (rig (dragThrough [(30, 5); (-20, 9); (100, 0)] midDrag)) = -0.5.
Proof.
  assert (Hc : camera (stage midDrag) <> None)
    by (intros H; vm_compute in H; discriminate H).
  destruct (drag_depends_on_endpoint [(30, 5); (-20, 9); (100, 0)] midDrag
              eq_refl Hc) as (H & _).
  rewrite H. cbn [last fst].
  change (cameraTheta (rig midDrag)) with 0.
  change (previousMouseX (pointer midDrag)) with 0. lra.
Defined.

(** ** Releasing the mouse *)

Lemma onMouseUp_effect (w : World) :
  let up := world_of (onMouseUp w) in
  returns (onMouseUp w) = true
  /\ isDragging (pointer up) = false
  /\ isUserInteracting (pointer up) = isUserInteracting (pointer w)
  /\ interactionTimeout (pointer up) = Some (nextHandle (loop w))
  /\ timers (loop up)
     = cleared (interactionTimeout (pointer w)) (timers (loop w))
       ++ [{| handle := nextHandle (loop w);
              due := clock (loop w) + 2000 |}]
  /\ clock (loop up) = clock (loop w)
  /\ rig up = rig w /\ stage up = stage w.
Proof.
  unfold onMouseUp, setTimeout. fields.
  rewrite ?clearTimeout_timers, ?clearTimeout_pointer, ?clearTimeout_clock,
    ?clearTimeout_nextHandle, ?clearTimeout_rig, ?clearTimeout_stage.
  fields. repeat split.
Qed.

(** X5.  When at most the timeout named by [interactionTimeout] is pending,
    a mouse up (or mouse leave) ends the drag and leaves exactly one
    timeout, due 2000 ms later.  Until then [isUserInteracting] keeps its
    value and the timeout stays pending; once 2000 ms have passed the flag
    is false and nothing is pending.  A mouse down before that cancels the
    timeout: nothing is pending, and the flag stays true however much time
    passes. *)
Theorem release_resumes_after_2000 (w : World) :
  single (controls w) ->
  let up := world_of (onMouseUp w) in
  returns (onMouseUp w) = true
  /\ isDragging (pointer up) = false
  /\ timers (loop up)
     = [{| handle := nextHandle (loop w); due := clock (loop w) + 2000 |}]
  /\ (forall ms : nat, (ms < 2000)%nat ->
        isUserInteracting (pointer (elapse ms up))
        = isUserInteracting (pointer w)
        /\ timers (loop (elapse ms up)) = timers (loop up))
  /\ (forall ms : nat, (2000 <= ms)%nat ->
        isUserInteracting (pointer (elapse ms up)) = false
        /\ timers (loop (elapse ms up)) = [])
  /\ (forall (event : DomEvent) (ms : nat),
        let down := world_of (onMouseDown event up) in
        timers (loop down) = []
        /\ isDragging (pointer down) = true
        /\ isUserInteracting (pointer (elapse ms down)) = true).
Proof.
  intros Hs up.
  destruct (onMouseUp_effect w) as (H1 & H2 & H3 & H4 & H5 & H6 & _).
  fold up in H2, H3, H4, H5, H6.
  pose proof (cleared_single _ _ Hs) as Hclr.
  cbn [controls c_timers c_timeout] in Hclr.
  rewrite Hclr in H5. cbn [app] in H5.
  split; [exact H1|]. split; [exact H2|]. split; [exact H5|].
  split; [|split].
  - intros ms Hms.
    destruct (elapse_effect ms up) as (Et & _ & _ & _ & Ei & _).
    rewrite Et, Ei, H5, H6, H3. cbn [filter]. unfold isDue. cbn [due].
    assert (E : (clock (loop w) + 2000 <=? clock (loop w) + ms)%nat = false)
      by (apply Nat.leb_gt; lia).
    rewrite E. cbn [negb]. split; reflexivity.
  - intros ms Hms.
    destruct (elapse_effect ms up) as (Et & _ & _ & _ & Ei & _).
    rewrite Et, Ei, H5, H6. cbn [filter]. unfold isDue. cbn [due].
    assert (E : (clock (loop w) + 2000 <=? clock (loop w) + ms)%nat = true)
      by (apply Nat.leb_le; lia).
    rewrite E. cbn [negb]. split; reflexivity.
  - intros event ms down.
    assert (Hd : timers (loop down) = []
                 /\ isDragging (pointer down) = true
                 /\ isUserInteracting (pointer down) = true).
    { subst down. unfold onMouseDown. fields.
      rewrite ?clearTimeout_timers, ?clearTimeout_pointer. fields.
      rewrite H4, H5. cbn [cleared filter handle].
      rewrite Nat.eqb_refl. repeat split. }
    destruct Hd as (D1 & D2 & D3).
    destruct (elapse_effect ms down) as (_ & _ & _ & _ & Ei & _).
    rewrite Ei, D1. cbn [filter]. auto.
Qed.

Lemma release_resumes_after_2000_witness :
  isUserInteracting
    (pointer (elapse 2000 (world_of (onMouseUp
       (step demoPage (Input (mouseAt mousedown 0 0))))))) = false.
Proof.
  destruct (release_resumes_after_2000
              (step demoPage (Input (mouseAt mousedown 0 0))))
    as (_ & _ & _ & _ & H & _).
  - left. vm_compute. reflexivity.
  - destruct (H 2000%nat) as [H1 _]; [lia | exact H1].
Defined.

(** ** The machinery under each function *)

Lemma invoke_plant (h : Handler) (event : DomEvent) (w : World) :
  plant (world_of (invoke h event w)) = plant w.
Proof.
  destruct h; open_handlers; unfold plant; cases;
    repeat match goal with
    | H : ?x = _ |- context [?x] => rewrite H
    end; reflexivity.
Qed.

Lemma invoke_returns (h : Handler) (event : DomEvent) (w : World) :
  built w -> returns (invoke h event w) = true.
Proof.
  intros (_ & Hc & Hr). unfold plant in *. cbn [p_camera p_renderer] in *.
  destruct (camera (stage w)) eqn:Ec; [|discriminate].
  destruct (renderer (stage w)) eqn:Er; [|discriminate].
  destruct h; open_handlers; cases; try reflexivity; congruence.
Qed.

Lemma invoke_distances (h : Handler) (event : DomEvent) (w : World) :
  currentCameraDistance (rig (world_of (invoke h event w)))
  = currentCameraDistance (rig w)
  /\ (targetCameraDistance (rig (world_of (invoke h event w)))
      = targetCameraDistance (rig w)
      \/ targetCameraDistance (rig (world_of (invoke h event w)))
         = Rmax 20 (Rmin 120
             (targetCameraDistance (rig w) + deltaY event * 0.05))).
Proof.
  destruct h; open_handlers; cases; split; auto.
Qed.

Lemma animate_plant (w : World) :
  plant (world_of (animate w))
  = {| p_frames := frameRequests (loop w) ++ [nextFrame (loop w)];
       p_nextFrame := S (nextFrame (loop w));
       p_animationId := Some (nextFrame (loop w));
       p_loads := loads (loop w);
       p_scene := isSome (scene (stage w));
       p_camera := isSome (camera (stage w));
       p_renderer := isSome (renderer (stage w));
       p_canvas := isSome (canvas (dom w)) |}.
Proof.
  unfold animate, requestAnimationFrame, updateCameraPosition, plant.
  cases;
    repeat match goal with
    | H : ?x = _ |- context [?x] => rewrite H
    end; reflexivity.
Qed.

Lemma animate_distances (w : World) :
  targetCameraDistance (rig (world_of (animate w)))
  = targetCameraDistance (rig w)
  /\ (currentCameraDistance (rig (world_of (animate w)))
      = currentCameraDistance (rig w)
      \/ currentCameraDistance (rig (world_of (animate w)))
         = currentCameraDistance (rig w)
           + (targetCameraDistance (rig w) - currentCameraDistance (rig w))
             * 0.08).
Proof.
  unfold animate, requestAnimationFrame, updateCameraPosition.
  cases; split; auto.
Qed.

Lemma scene_add_plant (idx : nat) (w : World) :
  plant (world_of (scene_add idx w)) = plant w
  /\ rig (world_of (scene_add idx w)) = rig w
  /\ (p_scene (plant w) = true -> returns (scene_add idx w) = true).
Proof.
  unfold scene_add, plant. destruct (scene (stage w)) eqn:E; fields;
    rewrite ?E; repeat split; auto; discriminate.
Qed.

Lemma createFallbackPointCloud_plant (w : World) :
  plant (world_of (createFallbackPointCloud w)) = plant w
  /\ rig (world_of (createFallbackPointCloud w)) = rig w
  /\ (built w -> returns (createFallbackPointCloud w) = true).
Proof.
  unfold createFallbackPointCloud. generalize numPoints. intros n.
  pose proof (fallbackLoop_world n [] [] w) as Hw.
  destruct (fallbackLoop n [] [] w) as [[ps cs] w1].
  cbn [snd] in Hw. subst w1. unfold newPoints.
  match goal with |- context [scene_add ?i ?x] =>
    destruct (scene_add_plant i x) as (H1 & H2 & H3)
  end.
  rewrite H1, H2. repeat split. intros (Hs & _). apply H3. exact Hs.
Qed.

Lemma onPlyLoaded_plant (p : Points) (w : World) :
  plant (world_of (onPlyLoaded p w)) = plant w
  /\ rig (world_of (onPlyLoaded p w)) = rig w
  /\ (built w -> returns (onPlyLoaded p w) = true).
Proof.
  unfold onPlyLoaded, newPoints.
  match goal with |- context [scene_add ?i ?x] =>
    destruct (scene_add_plant i x) as (H1 & H2 & H3)
  end.
  rewrite H1, H2. repeat split. intros (Hs & _). apply H3. exact Hs.
Qed.

Lemma setOrbitEnabled_plant (b : bool) (w : World) :
  plant (world_of (setOrbitEnabled b w)) = plant w.
Proof.
  unfold setOrbitEnabled, plant. fields.
  destruct (canvas (dom w)) eqn:E; fields; rewrite ?E; reflexivity.
Qed.

Lemma elapse_plant (ms : nat) (w : World) :
  plant (elapse ms w) = plant w.
Proof.
  unfold elapse. rewrite cooldowns_fold.
  destruct (filter _ _); reflexivity.
Qed.

Lemma destroyThreeScene_plant (w : World) :
  returns (destroyThreeScene w) = true
  /\ rig (world_of (destroyThreeScene w)) = rig w
  /\ pointer (world_of (destroyThreeScene w)) = pointer w
  /\ plant (world_of (destroyThreeScene w))
     = {| p_frames :=
            match animationId (stage w) with
            | Some (S n) =>
                filter (fun f => negb (f =? S n)%nat) (frameRequests (loop w))
            | _ => frameRequests (loop w)
            end;
          p_nextFrame := nextFrame (loop w);
          p_animationId := animationId (stage w);
          p_loads := loads (loop w);
          p_scene := isSome (scene (stage w));
          p_camera := isSome (camera (stage w));
          p_renderer := isSome (renderer (stage w));
          p_canvas := isSome (canvas (dom w)) |}
  /\ (forall r, renderer (stage w) = Some r ->
        renderer (stage (world_of (destroyThreeScene w)))
        = Some (renderer_dispose r)).
Proof.
  unfold destroyThreeScene, cancelAnimationFrame, clearTimeout,
    canvas_removeEventListener, window_removeEventListener, plant.
  cases;
    repeat match goal with
    | H : ?x = _ |- context [?x] => rewrite H
    end; repeat split; congruence.
Qed.

(** ** Setting the scene up *)

Lemma animate_stage (w : World) (c : PerspectiveCamera) (r : WebGLRenderer) :
  camera (stage w) = Some c -> renderer (stage w) = Some r ->
  let w' := world_of (animate w) in
  camera (stage w')
  = Some {| fov := fov c; aspect := aspect c; near := near c; far := far c;
            position := spherical (rig w'); lookTarget := Some origin |}
  /\ renderer (stage w') = Some (renderer_render r)
  /\ scene (stage w') = scene (stage w)
  /\ pointCloud (stage w') = pointCloud (stage w)
  /\ time (stage w') = time (stage w) + 0.016
  /\ drawn (loop w') = drawn (loop w)
  /\ dom w' = dom w
  /\ pointer w' = pointer w.
Proof.
  intros Hc Hr.
  unfold animate, requestAnimationFrame, updateCameraPosition.
  cases; try congruence;
    repeat match goal with
    | H : Some _ = Some _ |- _ => injection H as <-
    end; repeat split; congruence.
Qed.

(** X6.  On a page with the canvas, an [initThreeScene] that returns has
    left everything set up: an empty scene; a camera with field of view 50,
    the viewport's aspect, near 0.1 and far 500, already placed on its orbit
    and aimed at the origin; a renderer of the viewport's size with pixel
    ratio min(devicePixelRatio, 2); one more point cloud request
    outstanding; and the first frame already run, so one frame has been
    rendered, the distance has taken its first smoothing step, theta has
    advanced by 0.002 unless the user is interacting, and the next frame is
    requested under [animationId].  The pointer state and the timers are
    as before. *)
Theorem initThreeScene_sets_up (w : World) :
  canvas (dom w) <> None ->
  returns (initThreeScene w) = true ->
  let w' := world_of (initThreeScene w) in
  scene (stage w') = Some {| children := [] |}
  /\ camera (stage w')
     = Some {| fov := 50; aspect := innerWidth (dom w) / innerHeight (dom w);
               near := 0.1; far := 500;
               position := spherical (rig w'); lookTarget := Some origin |}
  /\ renderer (stage w')
     = Some {| width := innerWidth (dom w); height := innerHeight (dom w);
               pixelRatio := Rmin (devicePixelRatio (dom w)) 2;
               framesRendered := 1; rendererDisposed := false |}
  /\ loads (loop w') = S (loads (loop w))
  /\ frameRequests (loop w') = frameRequests (loop w) ++ [nextFrame (loop w)]
  /\ animationId (stage w') = Some (nextFrame (loop w))
  /\ currentCameraDistance (rig w')
     = currentCameraDistance (rig w)
       + (targetCameraDistance (rig w) - currentCameraDistance (rig w)) * 0.08
  /\ targetCameraDistance (rig w') = targetCameraDistance (rig w)
  /\ cameraPhi (rig w') = cameraPhi (rig w)
  /\ cameraTheta (rig w')
     = (if isUserInteracting (pointer w) then cameraTheta (rig w)
        else cameraTheta (rig w) + 0.002)
  /\ pointer w' = pointer w
  /\ timers (loop w') = timers (loop w).
Proof.
  intros Hc _. unfold initThreeScene.
  destruct (canvas (dom w)) as [st|] eqn:Ec; [|congruence].
  match goal with |- context [updateCameraPosition ?x] =>
    rewrite (updateCameraPosition_done x _ eq_refl)
  end. cbn [andThen].
  unfold loadPointCloud, Math_random. cbn [andThen].
  match goal with |- context [animate ?x] => set (w3 := x) end.
  destruct (animate_done w3) as (Hret & D1 & D2 & D3 & D4 & _);
    [discriminate | discriminate |].
  destruct (animate_stage w3 _ _ eq_refl eq_refl)
    as (S1 & S2 & S3 & S4 & _ & S6 & S7 & S8).
  pose proof (animate_plant w3) as Hp.
  pose proof (animate_controls w3) as Hk.
  rewrite (returns_done _ Hret). cbn [andThen].
  set (w4 := world_of (animate w3)) in *.
  unfold canvas_addEventListener, window_addEventListener. fields.
  apply (f_equal p_frames) in Hp as Hp1.
  apply (f_equal p_animationId) in Hp as Hp2.
  apply (f_equal p_loads) in Hp as Hp3.
  apply (f_equal c_interacting) in Hk as Hk1.
  apply (f_equal c_dragging) in Hk as Hk2.
  apply (f_equal c_timeout) in Hk as Hk3.
  apply (f_equal c_timers) in Hk as Hk4.
  cbn [plant p_frames p_animationId p_loads controls c_interacting
       c_dragging c_timeout c_timers] in Hp1, Hp2, Hp3, Hk1, Hk2, Hk3, Hk4.
  repeat split; try assumption; subst w3; cbn in *; congruence.
Qed.

Lemma initThreeScene_sets_up_witness :
  scene (stage (world_of (initThreeScene demoStart)))
  = Some {| children := [] |}
  /\ frameRequests (loop (world_of (initThreeScene demoStart)))
     = frameRequests (loop demoStart) ++ [nextFrame (loop demoStart)].
Proof.
  destruct (initThreeScene_sets_up demoStart)
    as (H1 & _ & _ & _ & H5 & _).
  - discriminate.
  - vm_compute. reflexivity.
  - split; [exact H1 | exact H5].
Defined.

Lemma initThreeScene_plant (w : World) :
  canvas (dom w) <> None ->
  returns (initThreeScene w) = true
  /\ plant (world_of (initThreeScene w))
     = {| p_frames := frameRequests (loop w) ++ [nextFrame (loop w)];
          p_nextFrame := S (nextFrame (loop w));
          p_animationId := Some (nextFrame (loop w));
          p_loads := S (loads (loop w));
          p_scene := true; p_camera := true; p_renderer := true;
          p_canvas := true |}
  /\ targetCameraDistance (rig (world_of (initThreeScene w)))
     = targetCameraDistance (rig w)
  /\ currentCameraDistance (rig (world_of (initThreeScene w)))
     = currentCameraDistance (rig w)
       + (targetCameraDistance (rig w) - currentCameraDistance (rig w)) * 0.08.
Proof.
  intros Hc. unfold initThreeScene.
  destruct (canvas (dom w)) as [st|] eqn:Ec; [|congruence].
  match goal with |- context [updateCameraPosition ?x] =>
    rewrite (updateCameraPosition_done x _ eq_refl)
  end. cbn [andThen].
  unfold loadPointCloud, Math_random. cbn [andThen].
  match goal with |- context [animate ?x] => set (w3 := x) end.
  destruct (animate_done w3) as (Hret & D1 & D2 & _);
    [discriminate | discriminate |].
  pose proof (animate_plant w3) as Hp.
  rewrite (returns_done _ Hret). cbn [andThen].
  set (w4 := world_of (animate w3)) in *.
  unfold canvas_addEventListener, window_addEventListener.
  split; [reflexivity|]. split; [|split].
  - unfold plant in *. fields. rewrite Hp. subst w3. fields. rewrite Ec.
    reflexivity.
  - fields. exact D2.
  - fields. exact D1.
Qed.

(** ** The zoom range *)

Lemma dist_ok_smooth (t c : R) :
  20 <= t <= 120 -> 20 <= c <= 120 -> 20 <= c + (t - c) * 0.08 <= 120.
Proof. intros Ht Hc. lra. Qed.

Lemma invoke_dist_ok (h : Handler) (event : DomEvent) (w : World) :
  dist_ok (rig w) -> dist_ok (rig (world_of (invoke h event w))).
Proof.
  intros [Ht Hc]. unfold dist_ok.
  destruct (invoke_distances h event w) as [-> [-> | ->]].
  - now split.
  - split; [apply clamp_between; lra | exact Hc].
Qed.

Lemma animate_dist_ok (w : World) :
  dist_ok (rig w) -> dist_ok (rig (world_of (animate w))).
Proof.
  intros [Ht Hc]. unfold dist_ok.
  destruct (animate_distances w) as [-> [-> | ->]].
  - now split.
  - split; [exact Ht | now apply dist_ok_smooth].
Qed.

Lemma step_dist_ok (w : World) (e : Event) :
  dist_ok (rig w) -> dist_ok (rig (step w e)).
Proof.
  intros H. destruct e; cbn [step].
  - destruct (canvas (dom w)) as [[[|] ?]|]; try exact H.
    unfold fire. apply (fold_left_keeps (fun w => dist_ok (rig w))); [|exact H].
    intros w' l Hw'. destruct (EventType_eqb _ _); [|exact Hw'].
    now apply invoke_dist_ok.
  - unfold fire. apply (fold_left_keeps (fun w => dist_ok (rig w))); [|exact H].
    intros w' l Hw'. destruct (EventType_eqb _ _); [|exact Hw'].
    now apply invoke_dist_ok.
  - unfold frame. apply (fold_left_keeps (fun w => dist_ok (rig w))); [|exact H].
    intros w' _ Hw'. now apply animate_dist_ok.
  - now rewrite elapse_rig.
  - destruct (loads (loop w)); [exact H|].
    destruct (onPlyLoaded_plant p (in_loop (set_loads n) w)) as (_ & -> & _).
    exact H.
  - destruct (loads (loop w)); [exact H|].
    destruct (createFallbackPointCloud_plant (in_loop (set_loads n) w))
      as (_ & -> & _).
    exact H.
  - destruct (canvas (dom w)) eqn:Ec.
    + destruct (initThreeScene_plant w) as (_ & _ & Et & Ec');
        [congruence|].
      destruct H as [Ht Hc]. unfold dist_ok. rewrite Et, Ec'.
      split; [exact Ht | now apply dist_ok_smooth].
    + now rewrite initThreeScene_absent.
  - destruct (destroyThreeScene_plant w) as (_ & -> & _). exact H.
  - destruct (setOrbitEnabled_effect b w) as (_ & _ & -> & _). exact H.
Qed.

(** X7.  The camera never leaves the zoom range: from the module's initial
    state (both distances 60), after any sequence of events and calls, the
    target distance and the distance actually used for the camera both lie
    in [20, 120].  Only the wheel handler writes the target (clamped), and
    only a frame update writes the current distance (to a point between
    itself and the target). *)
Theorem distances_stay_in_range c rnd wd ht dpr (es : list Event) :
  let w := run (initial c rnd wd ht dpr) es in
  20 <= targetCameraDistance (rig w) <= 120
  /\ 20 <= currentCameraDistance (rig w) <= 120.
Proof.
  cbn zeta. unfold run.
  apply (fold_left_keeps (fun w => dist_ok (rig w))).
  - intros w e. apply step_dist_ok.
  - unfold dist_ok. cbn. lra.
Qed.

(** ** No callback throws *)

Lemma built_same (w w' : World) : plant w' = plant w -> built w -> built w'.
Proof. unfold built. now intros ->. Qed.

Lemma fire_plant (ls : list Listener) (event : DomEvent) (w : World) :
  plant (fire ls event w) = plant w.
Proof.
  unfold fire. apply (fold_left_keeps (fun w' => plant w' = plant w));
    [|reflexivity].
  intros w' l E. destruct (EventType_eqb _ _); [|exact E].
  now rewrite invoke_plant.
Qed.

Lemma frame_built (w : World) : built w -> built (frame w).
Proof.
  intros H. unfold frame.
  apply (fold_left_keeps built).
  - intros w' _ (H1 & H2 & H3). pose proof (animate_plant w') as E.
    unfold built. rewrite E. cbn [p_scene p_camera p_renderer].
    unfold plant in H1, H2, H3. cbn [p_scene p_camera p_renderer] in *.
    auto.
  - exact H.
Qed.

Lemma step_built (w : World) (e : Event) : built w -> built (step w e).
Proof.
  intros H. destruct e; cbn [step].
  - destruct (canvas (dom w)) as [[[|] ?]|]; try exact H.
    eapply built_same; [apply fire_plant | exact H].
  - eapply built_same; [apply fire_plant | exact H].
  - now apply frame_built.
  - eapply built_same; [apply elapse_plant | exact H].
  - destruct (loads (loop w)); [exact H|].
    destruct (onPlyLoaded_plant p (in_loop (set_loads n) w)) as (E & _).
    unfold built in *. rewrite E. exact H.
  - destruct (loads (loop w)); [exact H|].
    destruct (createFallbackPointCloud_plant (in_loop (set_loads n) w))
      as (E & _).
    unfold built in *. rewrite E. exact H.
  - destruct (canvas (dom w)) eqn:Ec.
    + destruct (initThreeScene_plant w) as (_ & E & _); [congruence|].
      unfold built. rewrite E. repeat split.
    + now rewrite initThreeScene_absent.
  - destruct (destroyThreeScene_plant w) as (_ & _ & _ & E & _).
    unfold built in *. rewrite E. exact H.
  - eapply built_same; [apply setOrbitEnabled_plant | exact H].
Qed.

Lemma removeListeners_In (old ls : list Listener) (x : Listener) :
  In x (fold_left (fun ls l => removeListener l ls) old ls) ->
  In x ls /\ ~ In x old.
Proof.
  revert ls. induction old as [|l old IH]; intros ls H; cbn [fold_left] in H.
  - split; [exact H | intros []].
  - apply IH in H. destruct H as [H1 H2].
    unfold removeListener in H1. apply filter_In in H1.
    destruct H1 as [H1 Hne]. split; [exact H1|].
    intros [-> | Hin]; [|now apply H2].
    apply negb_true_iff in Hne.
    assert (Listener_eqb x x = true) by now apply Listener_eqb_eq.
    congruence.
Qed.

Lemma no_member_nil {A : Type} (l : list A) : (forall x, ~ In x l) -> l = [].
Proof.
  destruct l as [|a l]; [reflexivity|]. intros H. destruct (H a). now left.
Qed.

Lemma step_idle (w : World) (e : Event) :
  idle w -> idle (step w e) \/ built (step w e).
Proof.
  intros (Hc & Hw & Hf & Hl). destruct e; cbn [step].
  - left. destruct (canvas (dom w)) as [[[|] ?]|]; try (repeat split; assumption).
    rewrite Hc. cbn. repeat split; assumption.
  - left. cbn [in_dom dom windowListeners set_viewport]. rewrite Hw. cbn.
    repeat split; assumption.
  - left. rewrite (frame_idle w Hf). repeat split; assumption.
  - left. destruct (elapse_effect ms w) as (_ & _ & _ & _ & _ & Ed & _).
    pose proof (elapse_plant ms w) as Ep.
    apply (f_equal p_frames) in Ep as E1. apply (f_equal p_loads) in Ep as E2.
    cbn [plant p_frames p_loads] in E1, E2.
    unfold idle. rewrite Ed, E1, E2. repeat split; assumption.
  - left. rewrite Hl. repeat split; assumption.
  - left. rewrite Hl. repeat split; assumption.
  - destruct (canvas (dom w)) eqn:Ec.
    + right. destruct (initThreeScene_plant w) as (_ & E & _); [congruence|].
      unfold built. rewrite E. repeat split.
    + left. rewrite initThreeScene_absent by exact Ec.
      repeat split; assumption.
  - left. pose proof (destroyThreeScene_controls w) as Ek.
    destruct (destroyThreeScene_plant w) as (_ & _ & _ & Ep & _).
    apply (f_equal c_canvasListeners) in Ek as K1.
    apply (f_equal c_windowListeners) in Ek as K2.
    apply (f_equal p_frames) in Ep as E1. apply (f_equal p_loads) in Ep as E2.
    cbn [controls plant c_canvasListeners c_windowListeners p_frames p_loads]
      in K1, K2, E1, E2.
    unfold idle. rewrite K1, K2, E1, E2, Hc, Hw, Hf.
    repeat split; auto.
    + destruct (canvas (dom w)); [|reflexivity].
      apply no_member_nil. intros x Hx.
      apply removeListeners_In in Hx. now destruct Hx.
    + destruct (animationId (stage w)) as [[|n]|]; reflexivity.
  - left. pose proof (setOrbitEnabled_controls b w) as Ek.
    pose proof (setOrbitEnabled_plant b w) as Ep.
    apply (f_equal c_canvasListeners) in Ek as K1.
    apply (f_equal c_windowListeners) in Ek as K2.
    apply (f_equal p_frames) in Ep as E1. apply (f_equal p_loads) in Ep as E2.
    cbn [controls plant c_canvasListeners c_windowListeners p_frames p_loads]
      in K1, K2, E1, E2.
    unfold idle. rewrite K1, K2, E1, E2. repeat split; assumption.
Qed.

Lemma run_idle_or_built (es : list Event) (w : World) :
  idle w \/ built w -> idle (run w es) \/ built (run w es).
Proof.
  unfold run. apply (fold_left_keeps (fun w => idle w \/ built w)).
  intros w' e [H | H].
  - now apply step_idle.
  - right. now apply step_built.
Qed.

(** X8.  Nothing the browser can call back ever throws.  In every state
    reached from the module's initial state, either nothing is registered,
    requested or outstanding, or scene, camera and renderer all exist; and
    when they exist, every handler on any event, a frame update and both
    loader callbacks return normally.  ([destroyThreeScene] leaves the three
    objects in place, so callbacks still pending after it are covered.) *)
Theorem callbacks_never_throw c rnd wd ht dpr (es : list Event) :
  let w := run (initial c rnd wd ht dpr) es in
  (idle w \/ built w)
  /\ (built w ->
      (forall (h : Handler) (event : DomEvent),
         returns (invoke h event w) = true)
      /\ returns (animate w) = true
      /\ returns (createFallbackPointCloud w) = true
      /\ (forall p : Points, returns (onPlyLoaded p w) = true)).
Proof.
  cbn zeta. split.
  - apply run_idle_or_built. left. repeat split.
  - intros Hb. repeat split.
    + intros h event. now apply invoke_returns.
    + destruct Hb as (_ & Hc & Hr). unfold plant in Hc, Hr.
      cbn [p_camera p_renderer] in Hc, Hr.
      apply animate_done.
      * destruct (camera (stage _)); [discriminate | discriminate Hc].
      * destruct (renderer (stage _)); [discriminate | discriminate Hr].
    + now apply createFallbackPointCloud_plant.
    + intros p. now apply onPlyLoaded_plant.
Qed.

Lemma callbacks_never_throw_witness :
  returns (animate (run demoStart [CallInit; Frame; CallDestroy])) = true.
Proof.
  destruct (callbacks_never_throw (Some demoCanvas) (fun _ => 0.5) 1920 1080 1
              [CallInit; Frame; CallDestroy]) as [_ H].
  destruct H as (_ & H & _).
  - unfold built. vm_compute. repeat split.
  - exact H.
Defined.

(** ** Tearing down *)

Lemma one_loop_same (w w' : World) :
  plant w' = plant w -> one_loop (plant w) -> one_loop (plant w').
Proof. now intros ->. Qed.

Lemma frame_one_loop (w : World) :
  one_loop (plant w) -> one_loop (plant (frame w)).
Proof.
  intros (Hn & [Hf | (id & Hf & Ha)]); cbn [plant p_frames p_nextFrame] in *.
  - rewrite (frame_idle w Hf). split; [exact Hn | now left].
  - unfold frame. rewrite Hf. cbn [fold_left]. rewrite animate_plant.
    fields. split; [discriminate|]. right.
    destruct (nextFrame (loop w)) as [|k] eqn:E; [congruence|].
    exists k. cbn [p_frames p_animationId app]. now split.
Qed.

Lemma step_one_loop (w : World) (e : Event) :
  isCallInit e = false -> one_loop (plant w) -> one_loop (plant (step w e)).
Proof.
  intros Hi H. destruct e; cbn [step]; try discriminate Hi.
  - destruct (canvas (dom w)) as [[[|] ?]|]; try exact H.
    eapply one_loop_same; [apply fire_plant | exact H].
  - eapply one_loop_same; [apply fire_plant | exact H].
  - now apply frame_one_loop.
  - eapply one_loop_same; [apply elapse_plant | exact H].
  - destruct (loads (loop w)) eqn:El; [exact H|].
    destruct (onPlyLoaded_plant p (in_loop (set_loads n) w)) as (E & _).
    rewrite E. exact H.
  - destruct (loads (loop w)) eqn:El; [exact H|].
    destruct (createFallbackPointCloud_plant (in_loop (set_loads n) w))
      as (E & _).
    rewrite E. exact H.
  - destruct (destroyThreeScene_plant w) as (_ & _ & _ & E & _).
    rewrite E. destruct H as (Hn & Hf). split; [exact Hn|].
    cbn [plant p_frames p_animationId p_nextFrame] in *. left.
    destruct Hf as [Hf | (id & Hf & Ha)].
    + rewrite Hf. destruct (animationId (stage w)) as [[|k]|]; reflexivity.
    + rewrite Ha, Hf. cbn [filter]. rewrite Nat.eqb_refl. reflexivity.
  - eapply one_loop_same; [apply setOrbitEnabled_plant | exact H].
Qed.

Lemma run_one_loop (es : list Event) :
  forall w, forallb (fun e => negb (isCallInit e)) es = true ->
  one_loop (plant w) -> one_loop (plant (run w es)).
Proof.
  induction es as [|e es IH]; intros w Hes H; [exact H|].
  cbn [forallb] in Hes. apply andb_true_iff in Hes. destruct Hes as [He Hes].
  cbn [run fold_left]. apply IH; [exact Hes|].
  apply step_one_loop; [now apply negb_true_iff | exact H].
Qed.

Lemma run_cons (w : World) (e : Event) (es : list Event) :
  run w (e :: es) = run (step w e) es.
Proof. reflexivity. Qed.

Lemma step_canvas (w : World) (e : Event) :
  p_canvas (plant (step w e)) = p_canvas (plant w).
Proof.
  destruct e; cbn [step].
  - destruct (canvas (dom w)) as [[[|] ?]|]; try reflexivity.
    now rewrite fire_plant.
  - now rewrite fire_plant.
  - unfold frame.
    apply (fold_left_keeps (fun w' => p_canvas (plant w') = p_canvas (plant w)));
      [|reflexivity].
    intros w' _ E. rewrite animate_plant. exact E.
  - now rewrite elapse_plant.
  - destruct (loads (loop w)); [reflexivity|].
    destruct (onPlyLoaded_plant p (in_loop (set_loads n) w)) as (-> & _).
    reflexivity.
  - destruct (loads (loop w)); [reflexivity|].
    destruct (createFallbackPointCloud_plant (in_loop (set_loads n) w))
      as (-> & _).
    reflexivity.
  - destruct (canvas (dom w)) eqn:Ec.
    + destruct (initThreeScene_plant w) as (_ & -> & _); [congruence|].
      cbn [plant p_canvas]. now rewrite Ec.
    + now rewrite initThreeScene_absent.
  - destruct (destroyThreeScene_plant w) as (_ & _ & _ & -> & _). reflexivity.
  - now rewrite setOrbitEnabled_plant.
Qed.

Lemma run_canvas (es : list Event) (w : World) :
  p_canvas (plant (run w es)) = p_canvas (plant w).
Proof.
  unfold run.
  apply (fold_left_keeps (fun w' => p_canvas (plant w') = p_canvas (plant w)));
    [|reflexivity].
  intros w' e E. now rewrite step_canvas.
Qed.

(** X9.  Teardown after a single [initThreeScene] stops everything, whatever
    happened in between: [destroyThreeScene] returns normally, no frame
    request is left pending, no listener is left on the canvas or on the
    window, and the renderer is disposed.  Afterwards a display refresh and
    any mouse, wheel or touch event leave the state as it is. *)
Theorem destroy_after_one_init_stops c rnd wd ht dpr (es : list Event) :
  forallb (fun e => negb (isCallInit e)) es = true ->
  let w := run (initial (Some c) rnd wd ht dpr) (CallInit :: es) in
  let w' := world_of (destroyThreeScene w) in
  returns (destroyThreeScene w) = true
  /\ frameRequests (loop w') = []
  /\ canvasListeners (dom w') = []
  /\ windowListeners (dom w') = []
  /\ (exists r, renderer (stage w') = Some r /\ rendererDisposed r = true)
  /\ step w' Frame = w'
  /\ (forall event, step w' (Input event) = w').
Proof.
  intros Hes w w'.
  assert (Hw : wired (controls w)) by apply run_wired, initial_wired.
  assert (Hl : one_loop (plant w)).
  { subst w. rewrite run_cons. apply run_one_loop; [exact Hes|].
    cbn [step].
    destruct (initThreeScene_plant (initial (Some c) rnd wd ht dpr))
      as (_ & E & _); [discriminate|].
    rewrite E. split; [discriminate|]. right. exists 0%nat. now split. }
  assert (Hb : built w).
  { subst w. rewrite run_cons.
    apply (fold_left_keeps built); [intros ? ?; apply step_built|].
    cbn [step].
    destruct (initThreeScene_plant (initial (Some c) rnd wd ht dpr))
      as (_ & E & _); [discriminate|].
    unfold built. rewrite E. repeat split. }
  assert (Hcv : exists st, canvas (dom w) = Some st).
  { pose proof (run_canvas (CallInit :: es) (initial (Some c) rnd wd ht dpr))
      as E. fold w in E. cbn [plant p_canvas initial dom canvas isSome] in E.
    destruct (canvas (dom w)) as [st|]; [now exists st | discriminate E]. }
  destruct Hcv as (st & Hcv).
  destruct (destroyThreeScene_plant w) as (Hret & _ & _ & Ep & Hr).
  pose proof (destroyThreeScene_controls w) as Ek. fold w' in Ep, Ek, Hr.
  apply (f_equal c_canvasListeners) in Ek as K1.
  apply (f_equal c_windowListeners) in Ek as K2.
  apply (f_equal p_frames) in Ep as E1.
  cbn [controls plant c_canvasListeners c_windowListeners p_frames]
    in K1, K2, E1.
  rewrite Hcv in K1.
  destruct Hw as (_ & Hi & Hwin).
  cbn [controls c_canvasListeners c_windowListeners] in Hi, Hwin.
  assert (F : frameRequests (loop w') = []).
  { rewrite E1. destruct Hl as (_ & [Hf | (id & Hf & Ha)]);
      cbn [plant p_frames p_animationId] in *.
    - rewrite Hf. destruct (animationId (stage w)) as [[|k]|]; reflexivity.
    - rewrite Ha, Hf. cbn [filter]. rewrite Nat.eqb_refl. reflexivity. }
  assert (C : canvasListeners (dom w') = []).
  { rewrite K1. apply no_member_nil. intros x Hx.
    apply removeListeners_In in Hx. destruct Hx as [Hx Hn]. auto. }
  assert (W : windowListeners (dom w') = []).
  { rewrite K2. apply no_member_nil. intros x Hx.
    unfold removeListener in Hx. apply filter_In in Hx.
    destruct Hx as [Hx Hne]. apply Hwin in Hx. destruct Hx as [<- | []].
    apply negb_true_iff in Hne.
    assert (Listener_eqb (resize, h_onWindowResize)
              (resize, h_onWindowResize) = true) by reflexivity.
    congruence. }
  split; [exact Hret|]. split; [exact F|]. split; [exact C|].
  split; [exact W|]. split; [|split].
  - destruct Hb as (_ & _ & Hren). cbn [plant p_renderer] in Hren.
    destruct (renderer (stage w)) as [r|] eqn:Er; [|discriminate Hren].
    exists (renderer_dispose r). split; [now apply Hr | reflexivity].
  - cbn [step]. now apply frame_idle.
  - intros event. cbn [step]. rewrite C.
    destruct (canvas (dom w')) as [[[|] ?]|]; reflexivity.
Qed.

Lemma destroy_after_one_init_stops_witness :
  frameRequests (loop (world_of (destroyThreeScene
    (run demoStart [CallInit; Frame; Input (mouseAt mousedown 0 0); Frame]))))
  = [].
Proof.
  destruct (destroy_after_one_init_stops demoCanvas (fun _ => 0.5) 1920 1080 1
              [Frame; Input (mouseAt mousedown 0 0); Frame] eq_refl)
    as (_ & H & _).
  exact H.
Defined.

(** ** Initialising twice *)

Lemma addListener_present (l : Listener) (ls : list Listener) :
  In l ls -> addListener l ls = ls.
Proof.
  intros H. unfold addListener.
  assert (E : existsb (Listener_eqb l) ls = true).
  { apply existsb_exists. exists l. split; [exact H|].
    now apply Listener_eqb_eq. }
  now rewrite E.
Qed.

Lemma addListener_keeps (l x : Listener) (ls : list Listener) :
  In x ls \/ x = l -> In x (addListener l ls).
Proof.
  intros H. unfold addListener.
  destruct (existsb (Listener_eqb l) ls) eqn:E.
  - destruct H as [H | ->]; [exact H|].
    apply existsb_exists in E. destruct E as (y & Hy & Ey).
    apply Listener_eqb_eq in Ey. now subst.
  - apply in_or_app. destruct H as [H | ->]; [now left | right; now left].
Qed.

Lemma addListeners_all (new ls : list Listener) (x : Listener) :
  In x ls \/ In x new ->
  In x (fold_left (fun ls l => addListener l ls) new ls).
Proof.
  revert ls. induction new as [|l new IH]; intros ls H; cbn [fold_left].
  - destruct H as [H | []]. exact H.
  - apply IH. destruct H as [H | [-> | H]].
    + left. apply addListener_keeps. now left.
    + left. apply addListener_keeps. now right.
    + now right.
Qed.

Lemma addListeners_again (new ls : list Listener) :
  (forall x, In x new -> In x ls) ->
  fold_left (fun ls l => addListener l ls) new ls = ls.
Proof.
  induction new as [|l new IH]; intros H; cbn [fold_left]; [reflexivity|].
  rewrite addListener_present by (apply H; now left).
  apply IH. intros x Hx. apply H. now right.
Qed.

(** X10.  [initThreeScene] is not idempotent.  A second call registers no
    listener twice, but it starts a second frame loop: two frame requests
    are pending where there was one, [animationId] names only the later of
    them, and [destroyThreeScene] cancels only that one, so after teardown
    the earlier request is still pending and the loop goes on. *)
Theorem second_init_doubles_loop (w : World) :
  canvas (dom w) <> None ->
  let w1 := world_of (initThreeScene w) in
  let w2 := world_of (initThreeScene w1) in
  returns (initThreeScene w1) = true
  /\ canvasListeners (dom w2) = canvasListeners (dom w1)
  /\ windowListeners (dom w2) = windowListeners (dom w1)
  /\ frameRequests (loop w2)
     = frameRequests (loop w)
       ++ [nextFrame (loop w); S (nextFrame (loop w))]
  /\ animationId (stage w2) = Some (S (nextFrame (loop w)))
  /\ In (nextFrame (loop w))
        (frameRequests (loop (world_of (destroyThreeScene w2)))).
Proof.
  intros Hc w1 w2.
  destruct (initThreeScene_plant w Hc) as (_ & P1 & _).
  destruct (initThreeScene_controls w Hc) as (_ & K1).
  fold w1 in P1, K1.
  assert (Hc1 : canvas (dom w1) <> None).
  { apply (f_equal p_canvas) in P1. cbn [plant p_canvas] in P1.
    intros E. rewrite E in P1. discriminate P1. }
  destruct (initThreeScene_plant w1 Hc1) as (R2 & P2 & _).
  destruct (initThreeScene_controls w1 Hc1) as (_ & K2).
  fold w2 in P2, K2.
  apply (f_equal c_canvasListeners) in K1 as L1.
  apply (f_equal c_windowListeners) in K1 as W1.
  apply (f_equal c_canvasListeners) in K2 as L2.
  apply (f_equal c_windowListeners) in K2 as W2.
  cbn [controls c_canvasListeners c_windowListeners] in L1, W1, L2, W2.
  apply (f_equal p_frames) in P1 as F1.
  apply (f_equal p_nextFrame) in P1 as N1.
  apply (f_equal p_frames) in P2 as F2.
  apply (f_equal p_animationId) in P2 as A2.
  cbn [plant p_frames p_nextFrame p_animationId] in F1, N1, F2, A2.
  split; [exact R2|]. split; [|split; [|split; [|split]]].
  - rewrite L2. apply addListeners_again. intros x Hx.
    rewrite L1. apply addListeners_all. now right.
  - rewrite W2. apply addListener_present.
    rewrite W1. apply addListener_keeps. now right.
  - rewrite F2, F1, N1, <- app_assoc. reflexivity.
  - rewrite A2, N1. reflexivity.
  - destruct (destroyThreeScene_plant w2) as (_ & _ & _ & E & _).
    apply (f_equal p_frames) in E. cbn [plant p_frames] in E.
    rewrite E, A2, N1, F2, F1, N1.
    apply filter_In. split.
    + apply in_or_app. left. apply in_or_app. right. now left.
    + apply negb_true_iff. apply Nat.eqb_neq. lia.
Qed.

Lemma second_init_doubles_loop_witness :
  In 1%nat (frameRequests (loop (world_of (destroyThreeScene
       (world_of (initThreeScene (world_of (initThreeScene demoStart)))))))).
Proof.
  destruct (second_init_doubles_loop demoStart) as (_ & _ & _ & _ & _ & H).
  - discriminate.
  - exact H.
Defined.

(** ** Frame after frame *)

Lemma frame_single (w : World) (id : nat) :
  frameRequests (loop w) = [id] ->
  frame w = world_of (animate (in_loop (set_frameRequests []) w)).
Proof. intros H. unfold frame. rewrite H. reflexivity. Qed.

Lemma frame_step (w : World) :
  built w -> (exists id, frameRequests (loop w) = [id]) ->
  built (frame w)
  /\ (exists id, frameRequests (loop (frame w)) = [id])
  /\ isUserInteracting (pointer (frame w)) = isUserInteracting (pointer w)
  /\ targetCameraDistance (rig (frame w)) = targetCameraDistance (rig w)
  /\ currentCameraDistance (rig (frame w))
     = currentCameraDistance (rig w)
       + (targetCameraDistance (rig w) - currentCameraDistance (rig w)) * 0.08
  /\ cameraTheta (rig (frame w))
     = (if isUserInteracting (pointer w) then cameraTheta (rig w)
        else cameraTheta (rig w) + 0.002)
  /\ cameraPhi (rig (frame w)) = cameraPhi (rig w)
  /\ (forall r, renderer (stage w) = Some r ->
        exists r', renderer (stage (frame w)) = Some r'
                   /\ framesRendered r' = S (framesRendered r)).
Proof.
  intros Hb (id & Hf). pose proof (frame_built w Hb) as Hb'.
  rewrite (frame_single w id Hf) in *.
  set (w0 := in_loop (set_frameRequests []) w) in *.
  destruct Hb as (_ & Hc & Hr). cbn [plant p_camera p_renderer] in Hc, Hr.
  assert (Hc0 : camera (stage w0) <> None)
    by (subst w0; fields; destruct (camera (stage w)); [discriminate | discriminate Hc]).
  assert (Hr0 : renderer (stage w0) <> None)
    by (subst w0; fields; destruct (renderer (stage w)); [discriminate | discriminate Hr]).
  destruct (animate_done w0 Hc0 Hr0) as (_ & D1 & D2 & D3 & D4 & _).
  pose proof (animate_plant w0) as Hp.
  pose proof (animate_controls w0) as Hk.
  apply (f_equal p_frames) in Hp. cbn [plant p_frames] in Hp.
  apply (f_equal c_interacting) in Hk. cbn [controls c_interacting] in Hk.
  split; [exact Hb'|]. split; [|split; [|split; [|split; [|split; [|split]]]]].
  - rewrite Hp. subst w0. fields. eexists. reflexivity.
  - exact Hk.
  - exact D2.
  - exact D1.
  - exact D3.
  - exact D4.
  - intros r Er.
    destruct (camera (stage w0)) as [c|] eqn:Ec; [|congruence].
    destruct (animate_stage w0 c r Ec Er) as (_ & S2 & _).
    exists (renderer_render r). split; [exact S2 | reflexivity].
Qed.

(** X11.  With one frame loop running, n display refreshes in a row (no
    other event between them) leave the target distance alone and shrink
    the gap between it and the current distance to 0.92^n of what it was;
    theta advances by n * 0.002 while the user is not interacting and stays
    put while the user is; phi does not move; n more frames are rendered;
    and one frame request is pending again. *)
Theorem frames_converge (n : nat) (w : World) :
  built w -> (exists id, frameRequests (loop w) = [id]) ->
  let w' := run w (repeat Frame n) in
  targetCameraDistance (rig w') = targetCameraDistance (rig w)
  /\ targetCameraDistance (rig w') - currentCameraDistance (rig w')
     = 0.92 ^ n
       * (targetCameraDistance (rig w) - currentCameraDistance (rig w))
  /\ cameraTheta (rig w')
     = (if isUserInteracting (pointer w) then cameraTheta (rig w)
        else cameraTheta (rig w) + INR n * 0.002)
  /\ cameraPhi (rig w') = cameraPhi (rig w)
  /\ (forall r, renderer (stage w) = Some r ->
        exists r', renderer (stage w') = Some r'
                   /\ framesRendered r' = (framesRendered r + n)%nat)
  /\ (exists id, frameRequests (loop w') = [id]).
Proof.
  revert w. induction n as [|n IH]; intros w Hb Hf.
  - cbn [repeat run fold_left pow]. repeat split; try lra.
    + destruct (isUserInteracting (pointer w)); cbn [INR]; lra.
    + intros r Er. exists r. split; [exact Er | lia].
    + exact Hf.
  - destruct (frame_step w Hb Hf) as (Hb1 & Hf1 & Hi & Ht & Hc & Hth & Hph & Hr).
    specialize (IH (frame w) Hb1 Hf1). cbn zeta in IH.
    destruct IH as (I1 & I2 & I3 & I4 & I5 & I6).
    cbn zeta. change (repeat Frame (S n)) with (Frame :: repeat Frame n).
    rewrite run_cons. change (step w Frame) with (frame w).
    split; [|split; [|split; [|split; [|split]]]].
    + rewrite I1. exact Ht.
    + rewrite I2, Ht, Hc. cbn [pow]. lra.
    + rewrite I3, Hi, Hth. rewrite S_INR.
      destruct (isUserInteracting (pointer w)); lra.
    + rewrite I4. exact Hph.
    + intros r Er. destruct (Hr r Er) as (r1 & Er1 & Hn1).
      destruct (I5 r1 Er1) as (r' & Er' & Hn').
      exists r'. split; [exact Er' | lia].
    + exact I6.
Qed.

Lemma frames_converge_witness :
  targetCameraDistance (rig (run zoomedOut (repeat Frame 10)))
  - currentCameraDistance (rig (run zoomedOut (repeat Frame 10)))
  = 0.92 ^ 10 * 10
  /\ targetCameraDistance (rig (run zoomedOut (repeat Frame 10))) = 70.
Proof.
  destruct zoomedOut_distances as [E1 E2].
  destruct (frames_converge 10 zoomedOut) as (H1 & H2 & _).
  - unfold built. vm_compute. repeat split.
  - exists 1%nat. vm_compute. reflexivity.
  - rewrite E1, E2 in H2. rewrite E2 in H1. split; [|exact H1].
    rewrite H2. lra.
Defined.

(** ** Colours of the fallback cloud *)

Lemma fallbackLoop_colors (n : nat) :
  forall ps cs w,
    snd (fst (fallbackLoop n ps cs w))
    = cs ++ fallbackColors (draws (loop w)) (drawn (loop w)) n.
Proof.
  induction n as [|n IH]; intros ps cs w.
  - cbn. now rewrite app_nil_r.
  - cbn [fallbackLoop fallbackColors]. unfold Math_random. fields.
    rewrite IH. fields. rewrite <- app_assoc. reflexivity.
Qed.

Lemma fallbackColors_at (rnd : nat -> R) (n : nat) :
  forall k i, (i < n)%nat ->
    let t := ((rnd (k + 3 * i + 2)%nat - 0.5) * 20 + 10) / 20 in
    pointAt (fallbackColors rnd k n) i
    = {| vx := 0.486 * t + 0.3 * (1 - t);
         vy := 0.227 * t + 0.3 * (1 - t);
         vz := 0.929 * t + 0.3 * (1 - t) |}.
Proof.
  induction n as [|n IH]; intros k i Hi; [lia|].
  destruct i as [|i].
  - cbn [fallbackColors fallbackColor app]. unfold pointAt.
    replace (k + 3 * 0 + 2)%nat with (S (S k)) by lia.
    reflexivity.
  - specialize (IH (S (S (S k))) i ltac:(lia)). cbn zeta in *.
    unfold pointAt in *.
    cbn [fallbackColors fallbackColor app].
    replace (3 * S i)%nat with (S (S (S (3 * i)))) by lia.
    replace (S (S (S (3 * i))) + 1)%nat with (S (S (S (3 * i + 1)))) by lia.
    replace (S (S (S (3 * i))) + 2)%nat with (S (S (S (3 * i + 2)))) by lia.
    cbn [nth]. rewrite IH.
    replace (S (S (S k)) + 3 * i + 2)%nat
      with (k + S (S (S (3 * i))) + 2)%nat by lia.
    reflexivity.
Qed.

Lemma createFallbackPointCloud_arrays (w : World) :
  exists p : Points,
    cloud (world_of (createFallbackPointCloud w)) = Some p
    /\ positions p
       = fallbackPoints (draws (loop w)) (drawn (loop w)) numPoints
    /\ colors p
       = fallbackColors (draws (loop w)) (drawn (loop w)) numPoints
    /\ size p = 0.3 /\ opacity p = 0.8
    /\ drawn (loop (world_of (createFallbackPointCloud w)))
       = (3 * numPoints + drawn (loop w))%nat.
Proof.
  unfold createFallbackPointCloud. generalize numPoints. intros n.
  destruct (fallbackLoop_arrays n [] [] w) as [H1 _].
  pose proof (fallbackLoop_colors n [] [] w) as H2.
  pose proof (fallbackLoop_world n [] [] w) as Hw.
  destruct (fallbackLoop n [] [] w) as [[ps cs] w1].
  cbn [fst snd] in H1, H2, Hw. subst w1.
  eexists. unfold newPoints, scene_add, cloud. fields.
  split; [|split; [|split; [|split; [|split]]]].
  - destruct (scene (stage w)); fields; cbn [nth_error];
      rewrite nth_error_app2 by lia; rewrite Nat.sub_diag; reflexivity.
  - cbn [positions]. exact H1.
  - cbn [colors]. exact H2.
  - reflexivity.
  - reflexivity.
  - destruct (scene (stage w)); reflexivity.
Qed.

(** X12.  In the fallback cloud, whatever numbers in [0, 1) the random
    source returns, every point has a height in [-10, 10] and the colour
    that lies at t = (height + 10) / 20 between (0.3, 0.3, 0.3) and
    (0.486, 0.227, 0.929): red in [0.3, 0.486], green in [0.227, 0.3], blue
    in [0.3, 0.929].  The material has size 0.3 and opacity 0.8. *)
Theorem fallback_colours_follow_height (w : World) :
  (forall k : nat, 0 <= draws (loop w) k < 1) ->
  exists p : Points,
    cloud (world_of (createFallbackPointCloud w)) = Some p
    /\ size p = 0.3 /\ opacity p = 0.8
    /\ forall i : nat, (Z.of_nat i < 10000)%Z ->
         let height := vy (pointAt (positions p) i) in
         let t := (height + 10) / 20 in
         let colour := pointAt (colors p) i in
         -10 <= height <= 10
         /\ vx colour = 0.486 * t + 0.3 * (1 - t)
         /\ vy colour = 0.227 * t + 0.3 * (1 - t)
         /\ vz colour = 0.929 * t + 0.3 * (1 - t)
         /\ 0.3 <= vx colour <= 0.486
         /\ 0.227 <= vy colour <= 0.3
         /\ 0.3 <= vz colour <= 0.929.
Proof.
  intros Hrnd.
  destruct (createFallbackPointCloud_arrays w)
    as (p & Hp & Hpos & Hcol & Hs & Ho & Hd).
  exists p. split; [exact Hp|]. split; [exact Hs|]. split; [exact Ho|].
  intros i Hi.
  assert (Hlt : (i < numPoints)%nat)
    by (apply Nat2Z.inj_lt; rewrite numPoints_10000; exact Hi).
  rewrite Hpos, Hcol.
  rewrite (fallbackPoints_at _ _ _ _ Hlt).
  pose proof (fallbackColors_at (draws (loop w)) numPoints
                (drawn (loop w)) i Hlt) as Hc.
  cbn zeta in Hc. rewrite Hc. cbn [vx vy vz].
  pose proof (Hrnd (drawn (loop w) + 3 * i + 2)%nat) as Hr.
  set (r := draws (loop w) (drawn (loop w) + 3 * i + 2)%nat) in *.
  repeat split; lra.
Qed.

Lemma fallback_colours_follow_height_witness :
  exists p : Points,
    cloud (world_of (createFallbackPointCloud demoPage)) = Some p
    /\ 0.3 <= vx (pointAt (colors p) 3) <= 0.486.
Proof.
  destruct (fallback_colours_follow_height demoPage) as (p & H1 & _ & _ & H).
  - intros k. change (0 <= 0.5 < 1). lra.
  - exists p. split; [exact H1|].
    destruct (H 3%nat ltac:(lia)) as (_ & _ & _ & _ & Hx & _). exact Hx.
Defined.

(** ** Section tracking *)

Lemma sectionAtCentre_app (centre : R) (l : list SectionBox) (s : SectionBox) :
  sectionAtCentre centre (l ++ [s])
  = if Rleb (top s) centre && Rleb centre (bottom s)
    then Some (sectionName s) else sectionAtCentre centre l.
Proof. unfold sectionAtCentre. rewrite fold_left_app. reflexivity. Qed.

Lemma updateNavOnScroll_changed (sections : list SectionBox) (nv : Nav)
  (w : World) (a : String.string) :
  navNavigationInProgress nv = false ->
  sectionAtCentre (innerHeight (dom w) / 2) sections = Some a ->
  truthy a && differs a (lastActiveSection nv) = true ->
  let r := updateNavOnScroll sections nv w in
  lastActiveSection (fst r) = Some a
  /\ currentSection (fst r) = a
  /\ navNavigationInProgress (fst r) = false
  /\ snd r = setOrbitEnabled (orbitSection a) w.
Proof.
  intros Hf Ha Hd. unfold updateNavOnScroll. rewrite Hf, Ha, Hd.
  unfold updateActiveSection.
  cbn [navNavigationInProgress currentSection lastActiveSection fst snd].
  rewrite ?Hf.
  destruct (String.eqb (currentSection nv) a) eqn:E;
    cbn [navNavigationInProgress currentSection lastActiveSection fst snd];
    repeat split; auto.
  now apply String.eqb_eq.
Qed.

Lemma updateNavOnScroll_same (sections : list SectionBox) (nv : Nav) (w : World) :
  navNavigationInProgress nv = true
  \/ sectionAtCentre (innerHeight (dom w) / 2) sections = None
  \/ (exists a, sectionAtCentre (innerHeight (dom w) / 2) sections = Some a
                /\ truthy a && differs a (lastActiveSection nv) = false) ->
  updateNavOnScroll sections nv w = (nv, Done w).
Proof.
  unfold updateNavOnScroll.
  intros [H | [H | (a & H & Hd)]].
  - now rewrite H.
  - rewrite H. now destruct (navNavigationInProgress nv).
  - rewrite H, Hd. now destruct (navNavigationInProgress nv).
Qed.

Lemma updateNavOnScroll_follows (sections : list SectionBox) (nv : Nav)
  (w : World) :
  orbit_follows nv w ->
  orbit_follows (fst (updateNavOnScroll sections nv w))
                (world_of (snd (updateNavOnScroll sections nv w))).
Proof.
  intros H.
  destruct (navNavigationInProgress nv) eqn:Hf.
  { rewrite updateNavOnScroll_same by now left. exact H. }
  destruct (sectionAtCentre (innerHeight (dom w) / 2) sections) as [a|] eqn:Ha.
  2:{ rewrite updateNavOnScroll_same by (right; now left). exact H. }
  destruct (truthy a && differs a (lastActiveSection nv)) eqn:Hd.
  2:{ rewrite updateNavOnScroll_same by (right; right; now exists a). exact H. }
  destruct (updateNavOnScroll_changed sections nv w a Hf Ha Hd)
    as (E1 & E2 & _ & E4).
  unfold orbit_follows. rewrite E1, E4.
  destruct (setOrbitEnabled_effect (orbitSection a) w)
    as (_ & O2 & _ & _ & _ & _ & _ & _ & _ & _ & _ & _ & O11).
  split; [exact E2|]. split; [exact O2|].
  intros st Hst. rewrite O11 in Hst.
  destruct (canvas (dom w)); [|discriminate Hst].
  injection Hst as <-. reflexivity.
Qed.

Lemma scrolls_follow (ss : list (bool * list SectionBox)) :
  forall nv w, orbit_follows nv w ->
  orbit_follows (fst (scrolls ss nv w)) (snd (scrolls ss nv w)).
Proof.
  induction ss as [|s ss IH]; intros nv w H; [exact H|].
  unfold scrolls. cbn [fold_left fst snd].
  match goal with
  | |- context [fold_left ?f ss (?a, ?b)] =>
      change (fold_left f ss (a, b)) with (scrolls ss a b)
  end.
  apply IH. apply updateNavOnScroll_follows. exact H.
Qed.

(** X13.  Orbit input follows the section in view.  Starting with no section
    seen, after any series of scrolls: if a section has been seen, the last
    one seen is [currentSection], [orbitEnabled] is true exactly when it is
    'hero' or 'contact', and the canvas (if any) takes pointer events exactly
    then.  A scroll changes something only when navigation is not in
    progress and the section at the viewport's centre has a non-empty name
    different from the last one seen; of several sections spanning the
    centre the last in document order counts. *)
Theorem orbit_follows_section :
  (forall (ss : list (bool * list SectionBox)) (w : World),
     orbit_follows (fst (scrolls ss navInitial w))
                   (snd (scrolls ss navInitial w)))
  /\ (forall sections nv w,
        navNavigationInProgress nv = true
        \/ sectionAtCentre (innerHeight (dom w) / 2) sections = None
        \/ (exists a,
              sectionAtCentre (innerHeight (dom w) / 2) sections = Some a
              /\ truthy a && differs a (lastActiveSection nv) = false) ->
        updateNavOnScroll sections nv w = (nv, Done w))
  /\ (forall sections nv w a,
        navNavigationInProgress nv = false ->
        sectionAtCentre (innerHeight (dom w) / 2) sections = Some a ->
        truthy a && differs a (lastActiveSection nv) = true ->
        let r := updateNavOnScroll sections nv w in
        lastActiveSection (fst r) = Some a
        /\ currentSection (fst r) = a
        /\ orbitEnabled (pointer (world_of (snd r))) = orbitSection a
        /\ rig (world_of (snd r)) = rig w)
  /\ (forall centre l s,
        sectionAtCentre centre (l ++ [s])
        = if Rleb (top s) centre && Rleb centre (bottom s)
          then Some (sectionName s) else sectionAtCentre centre l).
Proof.
  split; [|split; [|split]].
  - intros ss w. apply scrolls_follow. exact I.
  - exact updateNavOnScroll_same.
  - intros sections nv w a Hf Ha Hd.
    destruct (updateNavOnScroll_changed sections nv w a Hf Ha Hd)
      as (E1 & E2 & _ & E4).
    cbn zeta. rewrite E4.
    destruct (setOrbitEnabled_effect (orbitSection a) w) as (_ & O2 & O3 & _).
    repeat split; auto.
  - exact sectionAtCentre_app.
Qed.

Lemma orbit_follows_section_witness :
  orbitEnabled (pointer (world_of (snd (updateNavOnScroll
    [ {| sectionName := "hero"; top := -900; bottom := 100 |};
      {| sectionName := "projects"; top := 100; bottom := 1200 |} ]
    navInitial demoPage)))) = false.
Proof.
  destruct orbit_follows_section as (_ & _ & H & _).
  destruct (H [ {| sectionName := "hero"; top := -900; bottom := 100 |};
                {| sectionName := "projects"; top := 100; bottom := 1200 |} ]
              navInitial demoPage "projects"%string) as (_ & _ & H3 & _).
  - reflexivity.
  - unfold sectionAtCentre. cbn [fold_left top bottom sectionName].
    change (innerHeight (dom demoPage)) with 1080.
    unfold Rleb.
    destruct (Rle_dec (-900) (1080 / 2)); [|lra].
    destruct (Rle_dec (1080 / 2) 100); [lra|].
    destruct (Rle_dec 100 (1080 / 2)); [|lra].
    destruct (Rle_dec (1080 / 2) 1200); [|lra].
    reflexivity.
  - reflexivity.
  - exact H3.
Defined.

(** ** Which file is requested *)

Lemma Zfloor_unique (x : R) (z : Z) : IZR z <= x < IZR z + 1 -> Zfloor x = z.
Proof.
  intros [H1 H2]. destruct (Zfloor_bound x) as [B1 B2].
  assert (L1 : (Zfloor x < z + 1)%Z).
  { apply lt_IZR. rewrite plus_IZR. simpl (IZR 1). lra. }
  assert (L2 : (z < Zfloor x + 1)%Z).
  { apply lt_IZR. rewrite plus_IZR. simpl (IZR 1). lra. }
  lia.
Qed.

(** X14.  [loadPointCloud] always asks for one of its two files: for a
    random draw r in [0, 1) the index floor(r * 2) is 0 or 1, never outside
    the array; the first file is chosen exactly when r < 0.5. *)
Theorem requested_file_exists (w : World) :
  0 <= draws (loop w) (drawn (loop w)) < 1 ->
  let r := draws (loop w) (drawn (loop w)) in
  (r < 0.5 -> requestedFile w = Some "/scene-0061.ply"%string)
  /\ (0.5 <= r -> requestedFile w = Some "/scene-0355.ply"%string)
  /\ (exists f, requestedFile w = Some f /\ In f choices).
Proof.
  intros Hr r. fold r in Hr.
  unfold requestedFile, Math_random, choiceAt. cbn [fst length choices].
  change (draws (loop w) (drawn (loop w))) with r.
  assert (E2 : INR 2 = 2) by (cbn; lra). rewrite E2.
  assert (Lo : r < 0.5 -> Zfloor (r * 2) = 0%Z)
    by (intros H; apply Zfloor_unique; cbn; lra).
  assert (Hi : 0.5 <= r -> Zfloor (r * 2) = 1%Z)
    by (intros H; apply Zfloor_unique; cbn; lra).
  split; [|split].
  - intros H. rewrite (Lo H). reflexivity.
  - intros H. rewrite (Hi H). reflexivity.
  - destruct (Rlt_dec r 0.5) as [H | H].
    + rewrite (Lo H). eexists. split; [reflexivity | now left].
    + rewrite (Hi ltac:(lra)). eexists. split; [reflexivity | right; now left].
Qed.

Lemma requested_file_exists_witness :
  requestedFile demoStart = Some "/scene-0355.ply"%string.
Proof.
  destruct (requested_file_exists demoStart) as (_ & H & _).
  - change (0 <= 0.5 < 1). lra.
  - apply H. change (0.5 <= 0.5). lra.
Defined.

(** ** At most one cooldown *)

Lemma run_single_slot_witness :
  (length (timers (loop (run demoStart
     [CallInit; Input (mouseAt mousedown 0 0); Input (mouseAt mouseup 0 0);
      Input (mouseAt mouseleave 0 0); Input (wheelBy true false 40)])))
   <= 1)%nat.
Proof.
  apply (run_single_slot (Some demoCanvas) (fun _ => 0.5) 1920 1080 1).
  vm_compute. reflexivity.
Defined.

(** ** The opacity pulse *)

Lemma heap_update_nth (f : Points -> Points) (idx : nat) (h : list Points) :
  nth_error (heap_update f idx h) idx = option_map f (nth_error h idx).
Proof.
  revert idx. induction h as [|p h IH]; intros [|i]; cbn; auto.
Qed.

Lemma heap_update_other (f : Points -> Points) (idx i : nat) (h : list Points) :
  i <> idx -> nth_error (heap_update f idx h) i = nth_error h i.
Proof.
  revert idx i.
  induction h as [|p h IH]; intros [|k] [|i] H; cbn; auto; congruence.
Qed.

Lemma animate_heap (w : World) :
  built w ->
  pointCloud (stage (world_of (animate w))) = pointCloud (stage w)
  /\ heap (stage (world_of (animate w)))
     = match pointCloud (stage w) with
       | Some idx =>
           heap_update
             (setOpacity (0.8 + sin ((time (stage w) + 0.016) * 0.5) * 0.05))
             idx (heap (stage w))
       | None => heap (stage w)
       end.
Proof.
  intros (_ & Hc & Hr). cbn [plant p_camera p_renderer] in Hc, Hr.
  destruct (camera (stage w)) eqn:Ec; [|discriminate Hc].
  destruct (renderer (stage w)) eqn:Er; [|discriminate Hr].
  unfold animate, requestAnimationFrame, updateCameraPosition.
  cases; try congruence;
    repeat match goal with
    | H : ?x = _ |- context [?x] => rewrite H
    end; split; reflexivity.
Qed.

(** X15.  A frame update touches nothing of the point cloud but its
    opacity: with the scene set up and a cloud loaded, after [animate] the
    cloud has the same positions, colours and point size, and its opacity
    is 0.8 + 0.05 * sin(time / 2) at the advanced time, so it stays within
    [0.75, 0.85] whatever the time is. *)
Theorem animate_pulses_opacity (w : World) (p : Points) :
  built w -> cloud w = Some p ->
  exists p' : Points,
    cloud (world_of (animate w)) = Some p'
    /\ opacity p' = 0.8 + sin ((time (stage w) + 0.016) * 0.5) * 0.05
    /\ 0.75 <= opacity p' <= 0.85
    /\ positions p' = positions p /\ colors p' = colors p
    /\ size p' = size p.
Proof.
  intros Hb Hp. unfold cloud in *.
  destruct (animate_heap w Hb) as [E1 E2]. rewrite E1, E2.
  destruct (pointCloud (stage w)) as [idx|]; [|discriminate Hp].
  rewrite heap_update_nth, Hp. cbn [option_map].
  eexists. split; [reflexivity|]. cbn [setOpacity opacity positions colors size].
  pose proof (SIN_bound ((time (stage w) + 0.016) * 0.5)) as [S1 S2].
  repeat split; lra.
Qed.

Lemma animate_pulses_opacity_witness :
  exists p' : Points,
    cloud (world_of (animate (step demoPage PlyFailed))) = Some p'
    /\ 0.75 <= opacity p' <= 0.85.
Proof.
  destruct (createFallbackPointCloud_arrays (in_loop (set_loads 0) demoPage))
    as (p & Hp & _).
  destruct (animate_pulses_opacity (step demoPage PlyFailed) p)
    as (p' & H1 & _ & H3 & _).
  - apply step_built. unfold built. vm_compute. repeat split.
  - exact Hp.
  - exists p'. split; [exact H1 | exact H3].
Defined.

(** ** Releasing the cloud *)

Lemma destroyThreeScene_heap (w : World) :
  pointCloud (stage (world_of (destroyThreeScene w))) = pointCloud (stage w)
  /\ scene (stage (world_of (destroyThreeScene w))) = scene (stage w)
  /\ camera (stage (world_of (destroyThreeScene w))) = camera (stage w)
  /\ heap (stage (world_of (destroyThreeScene w)))
     = match scene (stage w) with
       | Some s =>
           fold_left (fun h idx => heap_update dispose idx h)
             (children s) (heap (stage w))
       | None => heap (stage w)
       end.
Proof.
  unfold destroyThreeScene, cancelAnimationFrame, clearTimeout,
    canvas_removeEventListener, window_removeEventListener.
  cases;
    repeat match goal with
    | H : ?x = _ |- context [?x] => rewrite H
    end; repeat split.
Qed.

Lemma dispose_all_nth (idx : nat) (l : list nat) :
  forall (h : list Points) (q : Points),
    nth_error h idx = Some q ->
    nth_error (fold_left (fun h i => heap_update dispose i h) l h) idx
    = Some (if existsb (Nat.eqb idx) l then dispose q else q).
Proof.
  induction l as [|i l IH]; intros h q Hq; cbn [fold_left existsb].
  - exact Hq.
  - destruct (Nat.eqb idx i) eqn:E.
    + apply Nat.eqb_eq in E. subst i. cbn [orb].
      rewrite (IH _ (dispose q)).
      * destruct (existsb (Nat.eqb idx) l); reflexivity.
      * rewrite heap_update_nth, Hq. reflexivity.
    + apply Nat.eqb_neq in E. cbn [orb]. apply IH.
      rewrite heap_update_other by exact E. exact Hq.
Qed.

Lemma scene_add_linked (p : Points) (w : World) (s : Scene) :
  scene (stage w) = Some s ->
  let added := world_of (scene_add (length (heap (stage w)))
                 (in_stage (set_pointCloud (Some (length (heap (stage w)))))
                    (snd (newPoints p w)))) in
  cloud added = Some p
  /\ scene (stage added)
     = Some {| children := children s ++ [length (heap (stage w))] |}
  /\ pointCloud (stage added) = Some (length (heap (stage w)))
  /\ heap (stage added) = heap (stage w) ++ [p].
Proof.
  intros Hs. unfold scene_add, newPoints, cloud. fields. rewrite Hs. fields.
  repeat split. cbn [nth_error].
  rewrite nth_error_app2 by lia. rewrite Nat.sub_diag. reflexivity.
Qed.

Lemma linked_cloud_disposed (w : World) (p : Points) (s : Scene) (idx : nat) :
  scene (stage w) = Some s -> pointCloud (stage w) = Some idx ->
  In idx (children s) -> nth_error (heap (stage w)) idx = Some p ->
  cloud (world_of (destroyThreeScene w)) = Some (dispose p).
Proof.
  intros Hs Hp Hin Hn. unfold cloud.
  destruct (destroyThreeScene_heap w) as (E1 & _ & _ & E4).
  rewrite E1, E4, Hp, Hs. rewrite (dispose_all_nth idx _ _ p Hn).
  assert (E : existsb (Nat.eqb idx) (children s) = true).
  { apply existsb_exists. exists idx. split; [exact Hin|]. apply Nat.eqb_refl. }
  now rewrite E.
Qed.

(** X16.  What the loader's callbacks add, teardown releases.  With the
    scene set up, the success callback as well as the fallback generator
    store the new cloud in [pointCloud] and link it into the scene; a
    [destroyThreeScene] after that disposes the geometry and the material of
    that cloud, and leaves its data as they were. *)
Theorem loaded_cloud_is_disposed (w : World) (p : Points) :
  built w ->
  (cloud (world_of (onPlyLoaded p w)) = Some p
   /\ cloud (world_of (destroyThreeScene (world_of (onPlyLoaded p w))))
      = Some (dispose p))
  /\ (exists q : Points,
        cloud (world_of (createFallbackPointCloud w)) = Some q
        /\ cloud (world_of (destroyThreeScene
                              (world_of (createFallbackPointCloud w))))
           = Some (dispose q))
  /\ (forall q : Points,
        geometryDisposed (dispose q) = true
        /\ materialDisposed (dispose q) = true
        /\ positions (dispose q) = positions q
        /\ colors (dispose q) = colors q).
Proof.
  intros (Hs & _). cbn [plant p_scene] in Hs.
  destruct (scene (stage w)) as [s|] eqn:Es; [|discriminate Hs].
  split; [|split].
  - unfold onPlyLoaded.
    destruct (scene_add_linked p w s Es) as (L1 & L2 & L3 & L4).
    cbn zeta in L1, L2, L3, L4. unfold newPoints in *. cbn [fst snd] in *.
    split; [exact L1|].
    eapply linked_cloud_disposed; [exact L2 | exact L3 | |].
    + cbn [children]. apply in_or_app. right. now left.
    + rewrite L4. rewrite nth_error_app2 by lia.
      rewrite Nat.sub_diag. reflexivity.
  - unfold createFallbackPointCloud. generalize numPoints. intros n.
    pose proof (fallbackLoop_world n [] [] w) as Hw.
    destruct (fallbackLoop n [] [] w) as [[ps cs] w1].
    cbn [snd] in Hw. subst w1.
    set (w1 := in_loop (set_drawn (3 * n + drawn (loop w))) w).
    set (q := {| positions := ps; colors := cs; size := 0.3; opacity := 0.8;
                 geometryDisposed := false; materialDisposed := false |}).
    assert (Es1 : scene (stage w1) = Some s) by exact Es.
    destruct (scene_add_linked q w1 s Es1) as (L1 & L2 & L3 & L4).
    cbn zeta in L1, L2, L3, L4. unfold newPoints in *. cbn [fst snd] in *.
    exists q. split; [exact L1|].
    eapply linked_cloud_disposed; [exact L2 | exact L3 | |].
    + cbn [children]. apply in_or_app. right. now left.
    + rewrite L4. rewrite nth_error_app2 by lia.
      rewrite Nat.sub_diag. reflexivity.
  - intros q. repeat split.
Qed.

Lemma loaded_cloud_is_disposed_witness :
  exists q : Points,
    cloud (world_of (createFallbackPointCloud demoPage)) = Some q
    /\ cloud (world_of (destroyThreeScene
                          (world_of (createFallbackPointCloud demoPage))))
       = Some (dispose q).
Proof.
  destruct (loaded_cloud_is_disposed demoPage
              {| positions := []; colors := []; size := 0.15; opacity := 0.9;
                 geometryDisposed := false; materialDisposed := false |})
    as (_ & H & _).
  - unfold built. vm_compute. repeat split.
  - exact H.
Defined.

(** ** Proportions *)

Lemma invoke_view (h : Handler) (event : DomEvent) (w : World) :
  view (world_of (invoke h event w)) = view w \/ h = h_onWindowResize.
Proof.
  destruct h; try (left; open_handlers; unfold view; cases;
    repeat match goal with
    | H : ?x = _ |- context [?x] => rewrite H
    end; reflexivity).
  now right.
Qed.

Lemma animate_view (w : World) : view (world_of (animate w)) = view w.
Proof.
  unfold animate, requestAnimationFrame, updateCameraPosition, view.
  cases;
    repeat match goal with
    | H : ?x = _ |- context [?x] => rewrite H
    end; reflexivity.
Qed.

Lemma fitted_same (w w' : World) :
  view w' = view w -> windowListeners (dom w') = windowListeners (dom w) ->
  fitted w -> fitted w'.
Proof.
  unfold fitted. intros Ev El H Hin. rewrite El in Hin. specialize (H Hin).
  assert (Ew : innerWidth (dom w') = innerWidth (dom w)
               /\ innerHeight (dom w') = innerHeight (dom w)).
  { unfold view in Ev. injection Ev as _ _ _ -> ->. now split. }
  destruct Ew as [-> ->]. now rewrite Ev.
Qed.

Lemma onWindowResize_view (w : World) :
  camera (stage w) <> None -> renderer (stage w) <> None ->
  view (world_of (onWindowResize w))
  = (Some (innerWidth (dom w) / innerHeight (dom w)),
     Some (innerWidth (dom w)), Some (innerHeight (dom w)),
     innerWidth (dom w), innerHeight (dom w))
  /\ windowListeners (dom (world_of (onWindowResize w)))
     = windowListeners (dom w)
  /\ world_of (onWindowResize (world_of (onWindowResize w)))
     = world_of (onWindowResize w).
Proof.
  intros Hc Hr. unfold onWindowResize, view.
  destruct (camera (stage w)) eqn:Ec; [|congruence]. fields.
  destruct (renderer (stage w)) eqn:Er; [|congruence]. fields.
  repeat split.
Qed.

Lemma fitted_built (w : World) :
  fitted w -> In (resize, h_onWindowResize) (windowListeners (dom w)) ->
  camera (stage w) <> None /\ renderer (stage w) <> None.
Proof.
  intros H Hin. specialize (H Hin). unfold view in H.
  injection H as Ha Hw _.
  destruct (camera (stage w)); [|discriminate Ha].
  destruct (renderer (stage w)); [|discriminate Hw].
  split; discriminate.
Qed.

Lemma onWindowResize_fitted (w : World) :
  fitted w -> fitted (world_of (onWindowResize w)).
Proof.
  intros H Hin.
  assert (Hl : windowListeners (dom (world_of (onWindowResize w)))
               = windowListeners (dom w))
    by (unfold onWindowResize; cases; reflexivity).
  rewrite Hl in Hin. destruct (fitted_built w H Hin) as [Hc Hr].
  destruct (onWindowResize_view w Hc Hr) as (Ev & _ & _).
  assert (Ed : dom (world_of (onWindowResize w)) = dom w)
    by (unfold onWindowResize; cases; reflexivity).
  rewrite Ed. exact Ev.
Qed.

Lemma invoke_fitted (h : Handler) (event : DomEvent) (w : World) :
  fitted w -> fitted (world_of (invoke h event w)).
Proof.
  intros H. destruct (invoke_view h event w) as [E | ->].
  - eapply fitted_same; [exact E | | exact H].
    now destruct (invoke_frame h event w) as (_ & _ & ? & _).
  - now apply onWindowResize_fitted.
Qed.

Lemma fire_fitted (ls : list Listener) (event : DomEvent) (w : World) :
  fitted w -> fitted (fire ls event w).
Proof.
  unfold fire. apply (fold_left_keeps fitted). intros w' l H.
  destruct (EventType_eqb _ _); [now apply invoke_fitted | exact H].
Qed.

(** A resize on a window that listens: however often the listener is
    registered, the outcome is that of one [onWindowResize]. *)
Lemma fire_resize (ls : list Listener) (w : World) :
  incl ls [(resize, h_onWindowResize)] -> ls <> [] ->
  camera (stage w) <> None -> renderer (stage w) <> None ->
  fire ls resizeEvent w = world_of (onWindowResize w).
Proof.
  intros Hi Hne Hc Hr. destruct ls as [|l ls]; [congruence|]. clear Hne.
  assert (El : l = (resize, h_onWindowResize)).
  { destruct (Hi l (or_introl eq_refl)) as [<- | []]. reflexivity. }
  subst l. unfold fire. cbn [fold_left fst snd type resizeEvent EventType_eqb invoke].
  destruct (onWindowResize_view w Hc Hr) as (_ & _ & Eidem).
  set (w1 := world_of (onWindowResize w)) in *.
  assert (Hi' : incl ls [(resize, h_onWindowResize)])
    by (intros x Hx; apply Hi; now right).
  clear Hi. induction ls as [|l ls IH]; [reflexivity|].
  assert (El : l = (resize, h_onWindowResize)).
  { destruct (Hi' l (or_introl eq_refl)) as [<- | []]. reflexivity. }
  subst l. cbn [fold_left fst snd type resizeEvent EventType_eqb invoke].
  fold resizeEvent. rewrite Eidem. apply IH.
  intros x Hx. apply Hi'. now right.
Qed.

Lemma scene_add_view (idx : nat) (w : World) :
  view (world_of (scene_add idx w)) = view w
  /\ windowListeners (dom (world_of (scene_add idx w)))
     = windowListeners (dom w).
Proof. unfold scene_add, view. cases; split; reflexivity. Qed.

Lemma destroyThreeScene_view (w : World) :
  view (world_of (destroyThreeScene w)) = view w.
Proof.
  destruct (destroyThreeScene_heap w) as (_ & _ & Ec & _).
  destruct (destroyThreeScene_plant w) as (_ & _ & _ & Ep & Er).
  assert (Ed : innerWidth (dom (world_of (destroyThreeScene w)))
               = innerWidth (dom w)
               /\ innerHeight (dom (world_of (destroyThreeScene w)))
                  = innerHeight (dom w)).
  { unfold destroyThreeScene, cancelAnimationFrame, clearTimeout,
      canvas_removeEventListener, window_removeEventListener.
    cases; split; reflexivity. }
  destruct Ed as [Ew Eh]. unfold view. rewrite Ec, Ew, Eh.
  destruct (renderer (stage w)) as [r|] eqn:E.
  - rewrite (Er r eq_refl). reflexivity.
  - apply (f_equal p_renderer) in Ep. cbn [plant p_renderer] in Ep.
    rewrite ?E in Ep.
    destruct (renderer (stage (world_of (destroyThreeScene w))));
      [discriminate Ep | reflexivity].
Qed.

Lemma initThreeScene_view (w : World) :
  canvas (dom w) <> None ->
  view (world_of (initThreeScene w))
  = (Some (innerWidth (dom w) / innerHeight (dom w)),
     Some (innerWidth (dom w)), Some (innerHeight (dom w)),
     innerWidth (dom w), innerHeight (dom w)).
Proof.
  intros Hc. unfold initThreeScene.
  destruct (canvas (dom w)) as [st|] eqn:Ec; [|congruence].
  match goal with |- context [updateCameraPosition ?x] =>
    rewrite (updateCameraPosition_done x _ eq_refl)
  end. cbn [andThen].
  unfold loadPointCloud, Math_random. cbn [andThen].
  match goal with |- context [animate ?x] => set (w3 := x) end.
  destruct (animate_done w3) as (Hret & _); [discriminate | discriminate |].
  pose proof (animate_view w3) as Hv.
  rewrite (returns_done _ Hret). cbn [andThen].
  set (w4 := world_of (animate w3)) in *.
  unfold canvas_addEventListener, window_addEventListener.
  unfold view in *. fields. rewrite Hv. reflexivity.
Qed.

Lemma step_fitted (w : World) (e : Event) :
  wired (controls w) -> fitted w -> fitted (step w e).
Proof.
  intros (_ & _ & Hwin) H.
  cbn [controls c_windowListeners] in Hwin.
  destruct e; cbn [step].
  - destruct (canvas (dom w)) as [[[|] ?]|]; try exact H.
    now apply fire_fitted.
  - set (w0 := in_dom (set_viewport wd ht) w).
    intros Hin.
    destruct (fire_listeners (windowListeners (dom w0)) resizeEvent w0)
      as (_ & El & _).
    rewrite El in Hin.
    destruct (fitted_built w H Hin) as [Hc Hr].
    rewrite (fire_resize (windowListeners (dom w0)) w0); auto.
    + destruct (onWindowResize_view w0 Hc Hr) as (Ev & _ & _).
      assert (Ed : dom (world_of (onWindowResize w0)) = dom w0)
        by (unfold onWindowResize; cases; reflexivity).
      rewrite Ed. exact Ev.
    + intros E. change (windowListeners (dom w0)) with (windowListeners (dom w)) in E.
      change (windowListeners (dom w0)) with (windowListeners (dom w)) in Hin.
      rewrite E in Hin. destruct Hin.
  - unfold frame. apply (fold_left_keeps fitted); [|exact H].
    intros w' _ H'. eapply fitted_same; [apply animate_view | | exact H'].
    pose proof (animate_controls w') as E.
    now apply (f_equal c_windowListeners) in E.
  - destruct (elapse_effect ms w) as (_ & _ & _ & _ & _ & Ed & _).
    eapply fitted_same; [| now rewrite Ed | exact H].
    unfold view. rewrite Ed. f_equal.
    unfold elapse. rewrite cooldowns_fold. destruct (filter _ _); reflexivity.
  - destruct (loads (loop w)); [exact H|]. unfold onPlyLoaded, newPoints.
    match goal with |- context [scene_add ?i ?x] =>
      destruct (scene_add_view i x) as [Ev El]
    end.
    eapply fitted_same; [exact Ev | exact El | exact H].
  - destruct (loads (loop w)); [exact H|].
    unfold createFallbackPointCloud. generalize numPoints. intros k.
    pose proof (fallbackLoop_world k [] [] (in_loop (set_loads n) w)) as Hw.
    destruct (fallbackLoop k [] [] (in_loop (set_loads n) w)) as [[ps cs] w1].
    cbn [snd] in Hw. subst w1. unfold newPoints.
    match goal with |- context [scene_add ?i ?x] =>
      destruct (scene_add_view i x) as [Ev El]
    end.
    eapply fitted_same; [exact Ev | exact El | exact H].
  - destruct (canvas (dom w)) eqn:Ec.
    + intros _. assert (Hc : canvas (dom w) <> None) by congruence.
      pose proof (initThreeScene_view w Hc) as Ev.
      assert (Ed : innerWidth (dom (world_of (initThreeScene w)))
                   = innerWidth (dom w)
                   /\ innerHeight (dom (world_of (initThreeScene w)))
                      = innerHeight (dom w)).
      { unfold view in Ev. injection Ev as _ _ _ -> ->. now split. }
      destruct Ed as [-> ->]. exact Ev.
    + now rewrite initThreeScene_absent.
  - intros Hin. exfalso.
    pose proof (destroyThreeScene_controls w) as E.
    apply (f_equal c_windowListeners) in E.
    cbn [controls c_windowListeners] in E. rewrite E in Hin.
    unfold removeListener in Hin. apply filter_In in Hin.
    destruct Hin as [_ Hne]. discriminate Hne.
  - assert (Ed : view (world_of (setOrbitEnabled b w)) = view w
                 /\ windowListeners (dom (world_of (setOrbitEnabled b w)))
                    = windowListeners (dom w))
      by (unfold setOrbitEnabled, view; cases; split; reflexivity).
    destruct Ed as [Ev El].
    eapply fitted_same; [exact Ev | exact El | exact H].
Qed.

(** X17.  The picture is never stretched: in every state reached from the
    module's initial state in which the resize listener is registered, the
    camera and the renderer exist, the camera's aspect is
    innerWidth / innerHeight and the renderer has the viewport's size; a
    resize event makes that the new viewport. *)
Theorem view_fits_viewport c rnd wd ht dpr (es : list Event) :
  let w := run (initial c rnd wd ht dpr) es in
  In (resize, h_onWindowResize) (windowListeners (dom w)) ->
  (exists cam r,
     camera (stage w) = Some cam /\ renderer (stage w) = Some r
     /\ aspect cam = innerWidth (dom w) / innerHeight (dom w)
     /\ width r = innerWidth (dom w) /\ height r = innerHeight (dom w))
  /\ (forall wd' ht',
        let w' := step w (Resize wd' ht') in
        innerWidth (dom w') = wd' /\ innerHeight (dom w') = ht'
        /\ option_map aspect (camera (stage w')) = Some (wd' / ht')
        /\ option_map width (renderer (stage w')) = Some wd'
        /\ option_map height (renderer (stage w')) = Some ht').
Proof.
  intros w Hin.
  assert (Hw : wired (controls w)) by apply run_wired, initial_wired.
  assert (Hf : fitted w /\ wired (controls w)).
  { unfold w, run.
    apply (fold_left_keeps (fun w => fitted w /\ wired (controls w))).
    - intros w' e [F W]. split; [now apply step_fitted | now apply step_wired].
    - split; [intros [] | apply initial_wired]. }
  destruct Hf as [Hf _]. split.
  - pose proof (Hf Hin) as Ev. unfold view in Ev.
    injection Ev as Ea Ew Eh.
    destruct (camera (stage w)) as [cam|]; [|discriminate Ea].
    destruct (renderer (stage w)) as [r|]; [|discriminate Ew].
    exists cam, r. cbn [option_map] in *.
    injection Ea as Ea. injection Ew as Ew. injection Eh as Eh.
    repeat split; assumption.
  - intros wd' ht' w'.
    pose proof (step_fitted w (Resize wd' ht') Hw Hf) as Hf'. fold w' in Hf'.
    assert (Hd : innerWidth (dom w') = wd' /\ innerHeight (dom w') = ht'
                 /\ windowListeners (dom w') = windowListeners (dom w)).
    { subst w'. cbn [step].
      set (w0 := in_dom (set_viewport wd' ht') w).
      destruct (fire_listeners (windowListeners (dom w0)) resizeEvent w0)
        as (_ & El & _).
      assert (Ed : innerWidth (dom (fire (windowListeners (dom w0)) resizeEvent w0)) = wd'
                   /\ innerHeight (dom (fire (windowListeners (dom w0)) resizeEvent w0)) = ht').
      { unfold fire.
        apply (fold_left_keeps (fun x => innerWidth (dom x) = wd'
                                        /\ innerHeight (dom x) = ht')).
        - intros x l [A B]. destruct (EventType_eqb _ _); [|now split].
          destruct (invoke_view (snd l) resizeEvent x) as [E | E].
          + unfold view in E. injection E as _ _ _ -> ->. now split.
          + rewrite E. cbn [invoke].
            assert (Ed : dom (world_of (onWindowResize x)) = dom x)
              by (unfold onWindowResize; cases; reflexivity).
            rewrite Ed. now split.
        - split; reflexivity. }
      destruct Ed as [A B]. repeat split; assumption. }
    destruct Hd as (A & B & L).
    rewrite <- L in Hin. specialize (Hf' Hin). unfold view in Hf'.
    injection Hf' as Ea Ew Eh. rewrite A, B in *.
    repeat split; assumption.
Qed.

Lemma view_fits_viewport_witness :
  option_map aspect (camera (stage
    (step (run demoStart [CallInit; Frame]) (Resize 800 600))))
  = Some (800 / 600).
Proof.
  destruct (view_fits_viewport (Some demoCanvas) (fun _ => 0.5) 1920 1080 1
              [CallInit; Frame]) as [_ H].
  - vm_compute. left. reflexivity.
  - destruct (H 800 600) as (_ & _ & H3 & _). exact H3.
Defined.

(** ** Setting up again after teardown *)

Lemma after_init c rnd wd ht dpr (es : list Event) :
  forallb (fun e => negb (isCallInit e)) es = true ->
  let w := run (initial (Some c) rnd wd ht dpr) (CallInit :: es) in
  wired (controls w) /\ one_loop (plant w) /\ built w
  /\ p_canvas (plant w) = true.
Proof.
  intros Hes w.
  destruct (initThreeScene_plant (initial (Some c) rnd wd ht dpr))
    as (_ & E & _); [discriminate|].
  split; [apply run_wired, initial_wired|]. split; [|split].
  - subst w. rewrite run_cons. apply run_one_loop; [exact Hes|].
    cbn [step]. rewrite E. split; [discriminate|]. right. exists 0%nat.
    now split.
  - subst w. rewrite run_cons.
    apply (fold_left_keeps built); [intros ? ?; apply step_built|].
    cbn [step]. unfold built. rewrite E. repeat split.
  - subst w. rewrite run_canvas. reflexivity.
Qed.

Lemma destroy_quiet (w : World) :
  wired (controls w) -> one_loop (plant w) -> p_canvas (plant w) = true ->
  let w' := world_of (destroyThreeScene w) in
  frameRequests (loop w') = [] /\ canvasListeners (dom w') = []
  /\ windowListeners (dom w') = [] /\ p_canvas (plant w') = true
  /\ nextFrame (loop w') <> 0%nat
  /\ (built w -> built w').
Proof.
  intros (_ & Hi & Hwin) Hl Hcv w'.
  cbn [controls c_canvasListeners c_windowListeners] in Hi, Hwin.
  cbn [plant p_canvas] in Hcv.
  destruct (destroyThreeScene_plant w) as (_ & _ & _ & Ep & _).
  pose proof (destroyThreeScene_controls w) as Ek. fold w' in Ep, Ek.
  apply (f_equal c_canvasListeners) in Ek as K1.
  apply (f_equal c_windowListeners) in Ek as K2.
  apply (f_equal p_frames) in Ep as E1.
  apply (f_equal p_canvas) in Ep as E2.
  apply (f_equal p_nextFrame) in Ep as E3.
  cbn [controls plant c_canvasListeners c_windowListeners p_frames p_canvas
       p_nextFrame] in K1, K2, E1, E2, E3.
  destruct (canvas (dom w)) as [st|] eqn:Ec; [|discriminate Hcv].
  split; [|split; [|split; [|split; [|split]]]].
  - rewrite E1. destruct Hl as (_ & [Hf | (id & Hf & Ha)]);
      cbn [plant p_frames p_animationId] in *.
    + rewrite Hf. destruct (animationId (stage w)) as [[|k]|]; reflexivity.
    + rewrite Ha, Hf. cbn [filter]. rewrite Nat.eqb_refl. reflexivity.
  - rewrite K1. apply no_member_nil. intros x Hx.
    apply removeListeners_In in Hx. destruct Hx as [Hx Hn]. auto.
  - rewrite K2. apply no_member_nil. intros x Hx.
    unfold removeListener in Hx. apply filter_In in Hx.
    destruct Hx as [Hx Hne]. apply Hwin in Hx. destruct Hx as [<- | []].
    discriminate Hne.
  - cbn [plant p_canvas]. rewrite E2. exact Hcv.
  - rewrite E3. now destruct Hl.
  - intros Hb. unfold built in *. rewrite Ep. exact Hb.
Qed.

Lemma run_snoc2 (w : World) (es : list Event) (a b : Event) :
  run w (es ++ [a; b]) = step (step (run w es) a) b.
Proof. unfold run. rewrite fold_left_app. reflexivity. Qed.

Lemma init_on_cleared (w1 : World) :
  canvas (dom w1) <> None ->
  frameRequests (loop w1) = [] -> canvasListeners (dom w1) = [] ->
  windowListeners (dom w1) = [] ->
  let w := world_of (initThreeScene w1) in
  (exists id, frameRequests (loop w) = [id]
              /\ animationId (stage w) = Some id)
  /\ canvasListeners (dom w) = registry
  /\ windowListeners (dom w) = [(resize, h_onWindowResize)]
  /\ built w.
Proof.
  intros Hcv F C W w.
  destruct (initThreeScene_plant w1 Hcv) as (_ & Ep & _).
  destruct (initThreeScene_controls w1 Hcv) as (_ & Ek).
  fold w in Ep, Ek.
  apply (f_equal c_canvasListeners) in Ek as K1.
  apply (f_equal c_windowListeners) in Ek as K2.
  apply (f_equal p_frames) in Ep as E1.
  apply (f_equal p_animationId) in Ep as E2.
  cbn [controls plant c_canvasListeners c_windowListeners p_frames
       p_animationId] in K1, K2, E1, E2.
  rewrite C in K1. rewrite W in K2. rewrite F in E1.
  split; [|split; [|split]].
  - exists (nextFrame (loop w1)). split; [exact E1 | exact E2].
  - rewrite K1. reflexivity.
  - rewrite K2. reflexivity.
  - unfold built. rewrite Ep. repeat split.
Qed.

(** X18.  Teardown and a new [initThreeScene] leave the page as a first
    initialisation does: after init, any events, [destroyThreeScene] and
    [initThreeScene] again, exactly one frame request is pending and
    [animationId] names it, the canvas carries exactly the eight listeners
    of the module, each once, the window carries the one resize listener,
    and scene, camera and renderer exist. *)
Theorem reinit_after_destroy c rnd wd ht dpr (es : list Event) :
  forallb (fun e => negb (isCallInit e)) es = true ->
  let w := run (initial (Some c) rnd wd ht dpr)
               (CallInit :: es ++ [CallDestroy; CallInit]) in
  (exists id, frameRequests (loop w) = [id]
              /\ animationId (stage w) = Some id)
  /\ canvasListeners (dom w) = registry
  /\ windowListeners (dom w) = [(resize, h_onWindowResize)]
  /\ built w.
Proof.
  intros Hes. rewrite app_comm_cons, run_snoc2. cbn [step].
  destruct (after_init c rnd wd ht dpr es Hes) as (Hw & Hl & Hb & Hc).
  destruct (destroy_quiet _ Hw Hl Hc) as (F & C & W & Hc' & _ & _).
  apply init_on_cleared; [|exact F|exact C|exact W].
  cbn [plant p_canvas] in Hc'. intros E. rewrite E in Hc'. discriminate.
Qed.

Lemma reinit_after_destroy_witness :
  canvasListeners (dom (run demoStart
    (CallInit :: [Frame; Input (mouseAt mousedown 0 0)]
       ++ [CallDestroy; CallInit]))) = registry.
Proof.
  destruct (reinit_after_destroy demoCanvas (fun _ => 0.5) 1920 1080 1
              [Frame; Input (mouseAt mousedown 0 0)] eq_refl)
    as (_ & H & _).
  exact H.
Defined.


(** ** Tearing down twice *)

Lemma filter_twice {A : Type} (f : A -> bool) (l : list A) :
  filter f (filter f l) = filter f l.
Proof.
  induction l as [|a l IH]; cbn [filter]; [reflexivity|].
  destruct (f a) eqn:E; cbn [filter]; rewrite ?E, IH; reflexivity.
Qed.

Lemma removeListeners_filter (old : list Listener) :
  forall ls,
    fold_left (fun ls l => removeListener l ls) old ls
    = filter (fun x => forallb (fun l => negb (Listener_eqb l x)) old) ls.
Proof.
  induction old as [|l old IH]; intros ls; cbn [fold_left forallb].
  - induction ls as [|x ls IHl]; cbn [filter]; [|rewrite <- IHl]; reflexivity.
  - rewrite IH. unfold removeListener.
    induction ls as [|x ls IHl]; cbn [filter]; [reflexivity|].
    destruct (negb (Listener_eqb l x)); cbn [filter andb]; rewrite IHl;
      reflexivity.
Qed.

Lemma dispose_all_at (idx : nat) (l : list nat) :
  forall h : list Points,
    nth_error (fold_left (fun h i => heap_update dispose i h) l h) idx
    = option_map (fun q => if existsb (Nat.eqb idx) l then dispose q else q)
        (nth_error h idx).
Proof.
  induction l as [|i l IH]; intros h; cbn [fold_left existsb].
  - destruct (nth_error h idx); reflexivity.
  - rewrite IH. destruct (Nat.eqb idx i) eqn:E; cbn [orb].
    + apply Nat.eqb_eq in E. subst i. rewrite heap_update_nth.
      destruct (nth_error h idx); cbn [option_map]; [|reflexivity].
      destruct (existsb (Nat.eqb idx) l); reflexivity.
    + apply Nat.eqb_neq in E. rewrite heap_update_other by exact E.
      reflexivity.
Qed.

Lemma dispose_all_twice (l : list nat) (h : list Points) :
  fold_left (fun h i => heap_update dispose i h) l
    (fold_left (fun h i => heap_update dispose i h) l h)
  = fold_left (fun h i => heap_update dispose i h) l h.
Proof.
  apply nth_error_ext. intros idx. rewrite !dispose_all_at.
  destruct (nth_error h idx); cbn [option_map]; [|reflexivity].
  destruct (existsb (Nat.eqb idx) l); reflexivity.
Qed.

Lemma destroyThreeScene_normal (w : World) :
  destroyThreeScene w
  = Done
      {| rig := rig w;
         pointer := pointer w;
         stage :=
           {| scene := scene (stage w);
              camera := camera (stage w);
              renderer := option_map renderer_dispose (renderer (stage w));
              pointCloud := pointCloud (stage w);
              animationId := animationId (stage w);
              time := time (stage w);
              heap :=
                match scene (stage w) with
                | Some s =>
                    fold_left (fun h idx => heap_update dispose idx h)
                      (children s) (heap (stage w))
                | None => heap (stage w)
                end |};
         dom :=
           {| canvas := canvas (dom w);
              canvasListeners :=
                match canvas (dom w) with
                | Some _ =>
                    fold_left (fun ls l => removeListener l ls) registry
                      (canvasListeners (dom w))
                | None => canvasListeners (dom w)
                end;
              windowListeners :=
                removeListener (resize, h_onWindowResize)
                  (windowListeners (dom w));
              canvasDragging := canvasDragging (dom w);
              innerWidth := innerWidth (dom w);
              innerHeight := innerHeight (dom w);
              devicePixelRatio := devicePixelRatio (dom w) |};
         loop :=
           {| timers := cleared (interactionTimeout (pointer w)) (timers (loop w));
              clock := clock (loop w);
              nextHandle := nextHandle (loop w);
              frameRequests :=
                match animationId (stage w) with
                | Some (S n) =>
                    filter (fun f => negb (f =? S n)%nat)
                      (frameRequests (loop w))
                | _ => frameRequests (loop w)
                end;
              nextFrame := nextFrame (loop w);
              draws := draws (loop w);
              drawn := drawn (loop w);
              loads := loads (loop w) |} |}.
Proof.
  destruct w as [r p s d l]. destruct s, d, l.
  unfold destroyThreeScene, cancelAnimationFrame, clearTimeout,
    canvas_removeEventListener, window_removeEventListener, cleared.
  cases; reflexivity.
Qed.

(** X20.  [destroyThreeScene] can be called again without harm: a second
    call returns and leaves every variable of the module, the page and the
    browser queues exactly as the first call left them. *)
Theorem destroyThreeScene_twice (w : World) :
  destroyThreeScene (world_of (destroyThreeScene w)) = destroyThreeScene w.
Proof.
  rewrite (destroyThreeScene_normal (world_of (destroyThreeScene w))).
  rewrite (destroyThreeScene_normal w). cbn [world_of]. fields.
  unfold cleared, removeListener.
  f_equal. f_equal; [f_equal | f_equal | f_equal].
  - destruct (renderer (stage w)); reflexivity.
  - destruct (scene (stage w)); [apply dispose_all_twice | reflexivity].
  - destruct (canvas (dom w)); [|reflexivity].
    rewrite !removeListeners_filter. apply filter_twice.
  - apply filter_twice.
  - destruct (interactionTimeout (pointer w)); [apply filter_twice|reflexivity].
  - destruct (animationId (stage w)) as [[|n]|]; try reflexivity.
    apply filter_twice.
Qed.

(** ** A request that outlives teardown *)

(** X21.  [destroyThreeScene] does not cancel the request that
    [loadPointCloud] has sent.  When the loader answers after teardown, its
    callback still stores the cloud in [pointCloud] and links it into the
    scene, as it came from the loader and not disposed; only a further
    [destroyThreeScene] releases it. *)
Theorem load_outlives_teardown (w : World) (p : Points) (n : nat) :
  built w -> loads (loop w) = S n ->
  let w' := step (step w CallDestroy) (PlyLoaded p) in
  cloud w' = Some p
  /\ loads (loop w') = n
  /\ cloud (step w' CallDestroy) = Some (dispose p).
Proof.
  intros (Hs & _) Hl. cbn [plant p_scene] in Hs.
  destruct (scene (stage w)) as [s|] eqn:Es; [|discriminate Hs].
  cbn [step]. rewrite (destroyThreeScene_normal w). cbn [world_of]. fields.
  rewrite Hl.
  set (w1 := in_loop (set_loads n) _).
  assert (Es1 : scene (stage w1) = Some s) by exact Es.
  destruct (scene_add_linked p w1 s Es1) as (L1 & L2 & L3 & L4).
  cbn zeta in L1, L2, L3, L4. unfold onPlyLoaded, newPoints in *.
  cbn [fst snd] in *.
  split; [exact L1|]. split.
  - unfold scene_add. fields. rewrite Es1. reflexivity.
  - eapply linked_cloud_disposed; [exact L2 | exact L3 | |].
    + cbn [children]. apply in_or_app. right. now left.
    + rewrite L4. rewrite nth_error_app2 by lia.
      rewrite Nat.sub_diag. reflexivity.
Qed.

Lemma load_outlives_teardown_witness :
  let p := {| positions := [0; 1; 0]; colors := [1; 1; 1]; size := 0.1;
              opacity := 0.8; geometryDisposed := false;
              materialDisposed := false |} in
  cloud (step (step (step demoStart CallInit) CallDestroy) (PlyLoaded p))
  = Some p.
Proof.
  intros p.
  destruct (load_outlives_teardown (step demoStart CallInit) p 0) as (H & _).
  - destruct (initThreeScene_plant demoStart) as (_ & E & _);
      [discriminate|].
    cbn [step]. unfold built. rewrite E. repeat split.
  - destruct (initThreeScene_plant demoStart) as (_ & E & _);
      [discriminate|].
    apply (f_equal p_loads) in E. cbn [plant p_loads step] in *.
    rewrite E. reflexivity.
  - exact H.
Defined.

(** ** The scenarios in binary64 *)

Lemma Binary64_drag_100 :
  Binary64.thetaAfterDrag 0 100 = (-0.5)%float.
Proof. reflexivity. Qed.

Lemma Binary64_wheel_200 :
  Binary64.targetAfterWheel 60 200 = 70%float.
Proof. reflexivity. Qed.

